(** * The result-window presentation core of the widgetsboxmodel plugin

    A shallow embedding of [Plugin::Plugin] and [Plugin::init_statemachine]
    (widgetsboxmodel/src/plugin.cpp): the state tree, the transition table
    and the entered/exited handlers are transcribed from the source; the
    run-to-completion step that drives them follows the algorithm of
    QStateMachine (select transitions, remove conflicts, exit, enter). *)

From Stdlib Require Import List String Bool Arith ZArith Lia.
Import ListNotations.

(** ** Outcomes of running plugin code *)

Inductive Result (A : Type) : Type :=
| Ok (a : A)
| NullDeref                 (* a null [current_query] was dereferenced *)
| Fatal (msg : string).     (* [qFatal]: the process is terminated *)

Arguments Ok {A} a.
Arguments NullDeref {A}.
Arguments Fatal {A} msg.

Definition bind {A B : Type} (r : Result A) (k : A -> Result B) : Result B :=
  match r with
  | Ok a => k a
  | NullDeref => NullDeref
  | Fatal msg => Fatal msg
  end.

Notation "x <- r ;; k" := (bind r (fun x => k))
  (at level 61, r at next level, right associativity).

(** ** The state tree built by [init_statemachine] *)

Inductive StateId : Type :=
| machine                       (* the QStateMachine itself, root of the tree *)
| s_top
| s_button
| s_button_hidden
| s_button_shown
| s_results
| s_results_hidden
| s_results_postpone
| s_results_visible
| s_results_model
| s_results_model_matches
| s_results_model_fallbacks
| s_results_actions
| s_results_actions_hidden
| s_results_actions_visible.

Scheme Equality for StateId.

Inductive ChildMode : Type := ExclusiveStates | ParallelStates.

Definition childMode (s : StateId) : ChildMode :=
  match s with
  | s_top | s_results_visible => ParallelStates
  | _ => ExclusiveStates
  end.

Definition parentState (s : StateId) : option StateId :=
  match s with
  | machine => None
  | s_top => Some machine
  | s_button | s_results => Some s_top
  | s_button_hidden | s_button_shown => Some s_button
  | s_results_hidden | s_results_postpone | s_results_visible => Some s_results
  | s_results_model | s_results_actions => Some s_results_visible
  | s_results_model_matches | s_results_model_fallbacks => Some s_results_model
  | s_results_actions_hidden | s_results_actions_visible => Some s_results_actions
  end.

(** Children in the order in which they were constructed. *)
Definition childStates (s : StateId) : list StateId :=
  match s with
  | machine => [s_top]
  | s_top => [s_button; s_results]
  | s_button => [s_button_hidden; s_button_shown]
  | s_results => [s_results_hidden; s_results_postpone; s_results_visible]
  | s_results_visible => [s_results_model; s_results_actions]
  | s_results_model => [s_results_model_matches; s_results_model_fallbacks]
  | s_results_actions => [s_results_actions_hidden; s_results_actions_visible]
  | _ => []
  end.

Definition initialState (s : StateId) : option StateId :=
  match s with
  | machine => Some s_top
  | s_button => Some s_button_hidden
  | s_results => Some s_results_hidden
  | s_results_model => Some s_results_model_matches
  | s_results_actions => Some s_results_actions_hidden
  | _ => None
  end.

(** ** Tree queries of the state machine framework *)

Definition all_states : list StateId :=
  [machine; s_top; s_button; s_button_hidden; s_button_shown; s_results;
   s_results_hidden; s_results_postpone; s_results_visible; s_results_model;
   s_results_model_matches; s_results_model_fallbacks; s_results_actions;
   s_results_actions_hidden; s_results_actions_visible].

Definition mem (s : StateId) (l : list StateId) : bool :=
  existsb (StateId_beq s) l.

(** Sets of states (QSet) are kept as duplicate-free lists in the order of
    [all_states], so that equal sets are equal lists. *)
Definition insert (s : StateId) (l : list StateId) : list StateId :=
  filter (fun x => StateId_beq x s || mem x l) all_states.

Definition remove (s : StateId) (l : list StateId) : list StateId :=
  filter (fun x => negb (StateId_beq s x)) l.

Definition same_opt (a b : option StateId) : bool :=
  match a, b with
  | Some x, Some y => StateId_beq x y
  | None, None => true
  | _, _ => false
  end.

(** Every walk along [parentState] ends within [depth_bound] steps. *)
Definition depth_bound : nat := List.length all_states.

Fixpoint ancestors_from (n : nat) (s : StateId) (upto : option StateId)
  : list StateId :=
  match n with
  | O => []
  | S n' =>
    match parentState s with
    | None => []
    | Some p =>
      if same_opt (Some p) upto then [] else p :: ancestors_from n' p upto
    end
  end.

Definition getProperAncestors (s : StateId) (upto : option StateId)
  : list StateId := ancestors_from depth_bound s upto.

Definition isDescendant (s1 s2 : StateId) : bool :=
  mem s2 (getProperAncestors s1 None).

Definition isParallel (s : StateId) : bool :=
  match childMode s with ParallelStates => true | ExclusiveStates => false end.

Definition isAtomic (s : StateId) : bool :=
  match childStates s with [] => true | _ => false end.

Definition isCompound (s : StateId) : bool :=
  negb (isParallel s) && negb (isAtomic s).

Fixpoint indexOf (s : StateId) (l : list StateId) : nat :=
  match l with
  | [] => O
  | x :: l' => if StateId_beq s x then O else S (indexOf s l')
  end.

(** Least common ancestor of two states (not necessarily compound). *)
Definition findLCA (s1 s2 : StateId) : StateId :=
  match find (fun anc => isDescendant s2 anc) (getProperAncestors s1 None) with
  | Some anc => anc
  | None => machine
  end.

(** Least common compound ancestor of a transition's source and target. *)
Definition findLCCA (src tgt : StateId) : StateId :=
  match find (fun anc => isCompound anc && isDescendant tgt anc)
             (getProperAncestors src None) with
  | Some anc => anc
  | None => machine
  end.

Definition descendantDepth (s ancestor : StateId) : nat :=
  S (List.length (getProperAncestors s (Some ancestor))).

Definition indexOfDescendant (s desc : StateId) : nat :=
  indexOf (last (getProperAncestors desc (Some s)) desc) (childStates s).

Definition stateEntryLessThan (s1 s2 : StateId) : bool :=
  if same_opt (parentState s1) (parentState s2) then
    match parentState s1 with
    | Some p => indexOf s1 (childStates p) <? indexOf s2 (childStates p)
    | None => false
    end
  else if isDescendant s1 s2 then false
  else if isDescendant s2 s1 then true
  else
    let lca := findLCA s1 s2 in
    let d1 := descendantDepth s1 lca in
    let d2 := descendantDepth s2 lca in
    if d1 =? d2 then indexOfDescendant lca s1 <? indexOfDescendant lca s2
    else d1 <? d2.

Definition stateExitLessThan (s1 s2 : StateId) : bool :=
  if same_opt (parentState s1) (parentState s2) then
    match parentState s1 with
    | Some p => indexOf s2 (childStates p) <? indexOf s1 (childStates p)
    | None => false
    end
  else if isDescendant s1 s2 then true
  else if isDescendant s2 s1 then false
  else
    let lca := findLCA s1 s2 in
    let d1 := descendantDepth s1 lca in
    let d2 := descendantDepth s2 lca in
    if d1 =? d2 then indexOfDescendant lca s2 <? indexOfDescendant lca s1
    else d2 <? d1.

Section Sorting.
Variable A : Type.
Variable lessThan : A -> A -> bool.

Fixpoint insert_sorted (x : A) (l : list A) : list A :=
  match l with
  | [] => [x]
  | y :: l' => if lessThan y x then y :: insert_sorted x l' else x :: l
  end.

Definition sort_by (l : list A) : list A :=
  fold_left (fun acc x => insert_sorted x acc) l [].
End Sorting.

Arguments insert_sorted {A} lessThan x l.
Arguments sort_by {A} lessThan l.

(** ** Data of the plugin *)

(** Query objects live in a store ([heap]); a [shared_ptr<Query>] is an index
    into it.  Only what the window reads from a query is recorded. *)
Definition QueryId : Type := nat.

Record Query : Type := {
  q_string : string;
  q_matches : nat;                 (* matches()->rowCount() *)
  q_fallbacks : nat;               (* fallbacks()->rowCount() *)
  q_matchActions : nat -> nat;     (* matchActions(row)->rowCount() *)
  q_fallbackActions : nat -> nat;  (* fallbackActions(row)->rowCount() *)
  q_isFinished : bool;
  q_canceled : bool;
  q_running : bool
}.

(** The item models a view can be bound to. *)
Inductive Model : Type :=
| matches (q : QueryId)
| fallbacks (q : QueryId)
| matchActions (q : QueryId) (row : nat)
| fallbackActions (q : QueryId) (row : nat).

Scheme Equality for Model.

(** A ResizingList: visibility, enabledness, bound model, current index
    ([None] is the invalid index). *)
Record ListView : Type := {
  lv_visible : bool;
  lv_enabled : bool;
  lv_model : option Model;
  lv_currentIndex : option nat
}.

Inductive InputHint : Type :=
| hint_empty
| hint_synopsis (q : QueryId)
| hint_item (m : Model) (row : nat).   (* the row's InputActionRole data *)

Inductive FilterObj : Type :=
| filter_plugin | filter_results_list | filter_actions_list.

Scheme Equality for FilterObj.

(** Event filters of the input line, most recently installed first: this is
    the order in which they see an event. *)
Record InputLine : Type := {
  text : string;
  inputHint : InputHint;
  eventFilters : list FilterObj
}.

Record Window : Type := {
  w_visible : bool;
  input_line : InputLine;
  results_list : ListView;
  actions_list : ListView
}.

Inductive Direction : Type := Forward | Backward.

Inductive QuerySignal : Type :=
| sig_finished        (* albert::Query::finished, slot Plugin::queryFinsished *)
| sig_rowsInserted.   (* matches() rowsInserted, slot Plugin::resultsReady *)

Scheme Equality for QuerySignal.

(** The calls the plugin makes on its collaborators, in program order. *)
Inductive Call : Type :=
| call_cancel (q : QueryId)
| call_disconnect (q : QueryId) (sig : QuerySignal)
| call_query (q : QueryId) (text : string)
| call_connect (q : QueryId) (sig : QuerySignal)
| call_run (q : QueryId)
| call_activateMatch (q : QueryId) (i a : Z)
| call_activateFallback (q : QueryId) (i a : Z)
| call_warn
| call_history_add (s : string)
| call_window_hide
| call_emit_textChanged (s : string).

(** What the plugin reads from its surroundings when it runs, and the
    setting that [setClearOnHide] may change between any two events. *)
Record Ambient : Type := {
  underMouse : bool;          (* window.input_line->underMouse() *)
  ControlModifier : bool;     (* QApplication::keyboardModifiers() has Control *)
  clearOnHide_ : bool;        (* the member clearOnHide_ *)
  engine : string -> Query    (* the query object query(text) would construct *)
}.

(** Modelled from the spec: plugin.h is not part of the sources; the two
    configured modifier bindings [mod_fallback] and [mod_actions] range over
    Shift, Meta, Control and Alt, in the order of the table [mods_keys]. *)
Inductive Mod : Type := Shift | Meta | Control | Alt.

Inductive Key : Type := Key_Shift | Key_Meta | Key_Control | Key_Alt.

Scheme Equality for Key.

Definition mods_keys (m : Mod) : Key :=
  match m with
  | Shift => Key_Shift
  | Meta => Key_Meta
  | Control => Key_Control
  | Alt => Key_Alt
  end.

Record Plugin : Type := {
  window : Window;
  current_query : option QueryId;
  displayed_query : option QueryId;
  queries_ : list QueryId;
  show_fallbacks_on_empty_query : bool;
  mod_fallback : Mod;
  mod_actions : Mod;
  history_ : list string;
  display_delay_timer : bool;           (* isActive() *)
  opacity_animation : Direction;
  configuration : list StateId;         (* of the state machine *)
  active : list StateId;                (* states whose active() is true *)
  heap : list Query;
  connections : list (QueryId * QuerySignal);
  calls : list Call;
  ambient : Ambient
}.

(** *** Field updates *)

Definition set_window (f : Window -> Window) (p : Plugin) : Plugin :=
  {| window := f (window p); current_query := current_query p;
     displayed_query := displayed_query p; queries_ := queries_ p;
     show_fallbacks_on_empty_query := show_fallbacks_on_empty_query p;
     mod_fallback := mod_fallback p; mod_actions := mod_actions p;
     history_ := history_ p; display_delay_timer := display_delay_timer p;
     opacity_animation := opacity_animation p;
     configuration := configuration p; active := active p; heap := heap p;
     connections := connections p; calls := calls p; ambient := ambient p |}.

Definition set_current_query (v : option QueryId) (p : Plugin) : Plugin :=
  {| window := window p; current_query := v;
     displayed_query := displayed_query p; queries_ := queries_ p;
     show_fallbacks_on_empty_query := show_fallbacks_on_empty_query p;
     mod_fallback := mod_fallback p; mod_actions := mod_actions p;
     history_ := history_ p; display_delay_timer := display_delay_timer p;
     opacity_animation := opacity_animation p;
     configuration := configuration p; active := active p; heap := heap p;
     connections := connections p; calls := calls p; ambient := ambient p |}.

Definition set_displayed_query (v : option QueryId) (p : Plugin) : Plugin :=
  {| window := window p; current_query := current_query p;
     displayed_query := v; queries_ := queries_ p;
     show_fallbacks_on_empty_query := show_fallbacks_on_empty_query p;
     mod_fallback := mod_fallback p; mod_actions := mod_actions p;
     history_ := history_ p; display_delay_timer := display_delay_timer p;
     opacity_animation := opacity_animation p;
     configuration := configuration p; active := active p; heap := heap p;
     connections := connections p; calls := calls p; ambient := ambient p |}.

Definition set_queries_ (v : list QueryId) (p : Plugin) : Plugin :=
  {| window := window p; current_query := current_query p;
     displayed_query := displayed_query p; queries_ := v;
     show_fallbacks_on_empty_query := show_fallbacks_on_empty_query p;
     mod_fallback := mod_fallback p; mod_actions := mod_actions p;
     history_ := history_ p; display_delay_timer := display_delay_timer p;
     opacity_animation := opacity_animation p;
     configuration := configuration p; active := active p; heap := heap p;
     connections := connections p; calls := calls p; ambient := ambient p |}.

Definition set_history_ (v : list string) (p : Plugin) : Plugin :=
  {| window := window p; current_query := current_query p;
     displayed_query := displayed_query p; queries_ := queries_ p;
     show_fallbacks_on_empty_query := show_fallbacks_on_empty_query p;
     mod_fallback := mod_fallback p; mod_actions := mod_actions p;
     history_ := v; display_delay_timer := display_delay_timer p;
     opacity_animation := opacity_animation p;
     configuration := configuration p; active := active p; heap := heap p;
     connections := connections p; calls := calls p; ambient := ambient p |}.

Definition set_display_delay_timer (v : bool) (p : Plugin) : Plugin :=
  {| window := window p; current_query := current_query p;
     displayed_query := displayed_query p; queries_ := queries_ p;
     show_fallbacks_on_empty_query := show_fallbacks_on_empty_query p;
     mod_fallback := mod_fallback p; mod_actions := mod_actions p;
     history_ := history_ p; display_delay_timer := v;
     opacity_animation := opacity_animation p;
     configuration := configuration p; active := active p; heap := heap p;
     connections := connections p; calls := calls p; ambient := ambient p |}.

Definition set_opacity_animation (v : Direction) (p : Plugin) : Plugin :=
  {| window := window p; current_query := current_query p;
     displayed_query := displayed_query p; queries_ := queries_ p;
     show_fallbacks_on_empty_query := show_fallbacks_on_empty_query p;
     mod_fallback := mod_fallback p; mod_actions := mod_actions p;
     history_ := history_ p; display_delay_timer := display_delay_timer p;
     opacity_animation := v;
     configuration := configuration p; active := active p; heap := heap p;
     connections := connections p; calls := calls p; ambient := ambient p |}.

Definition set_configuration (v : list StateId) (p : Plugin) : Plugin :=
  {| window := window p; current_query := current_query p;
     displayed_query := displayed_query p; queries_ := queries_ p;
     show_fallbacks_on_empty_query := show_fallbacks_on_empty_query p;
     mod_fallback := mod_fallback p; mod_actions := mod_actions p;
     history_ := history_ p; display_delay_timer := display_delay_timer p;
     opacity_animation := opacity_animation p;
     configuration := v; active := active p; heap := heap p;
     connections := connections p; calls := calls p; ambient := ambient p |}.

Definition set_active (v : list StateId) (p : Plugin) : Plugin :=
  {| window := window p; current_query := current_query p;
     displayed_query := displayed_query p; queries_ := queries_ p;
     show_fallbacks_on_empty_query := show_fallbacks_on_empty_query p;
     mod_fallback := mod_fallback p; mod_actions := mod_actions p;
     history_ := history_ p; display_delay_timer := display_delay_timer p;
     opacity_animation := opacity_animation p;
     configuration := configuration p; active := v; heap := heap p;
     connections := connections p; calls := calls p; ambient := ambient p |}.

Definition set_heap (v : list Query) (p : Plugin) : Plugin :=
  {| window := window p; current_query := current_query p;
     displayed_query := displayed_query p; queries_ := queries_ p;
     show_fallbacks_on_empty_query := show_fallbacks_on_empty_query p;
     mod_fallback := mod_fallback p; mod_actions := mod_actions p;
     history_ := history_ p; display_delay_timer := display_delay_timer p;
     opacity_animation := opacity_animation p;
     configuration := configuration p; active := active p; heap := v;
     connections := connections p; calls := calls p; ambient := ambient p |}.

Definition set_connections (v : list (QueryId * QuerySignal)) (p : Plugin)
  : Plugin :=
  {| window := window p; current_query := current_query p;
     displayed_query := displayed_query p; queries_ := queries_ p;
     show_fallbacks_on_empty_query := show_fallbacks_on_empty_query p;
     mod_fallback := mod_fallback p; mod_actions := mod_actions p;
     history_ := history_ p; display_delay_timer := display_delay_timer p;
     opacity_animation := opacity_animation p;
     configuration := configuration p; active := active p; heap := heap p;
     connections := v; calls := calls p; ambient := ambient p |}.

Definition call (c : Call) (p : Plugin) : Plugin :=
  {| window := window p; current_query := current_query p;
     displayed_query := displayed_query p; queries_ := queries_ p;
     show_fallbacks_on_empty_query := show_fallbacks_on_empty_query p;
     mod_fallback := mod_fallback p; mod_actions := mod_actions p;
     history_ := history_ p; display_delay_timer := display_delay_timer p;
     opacity_animation := opacity_animation p;
     configuration := configuration p; active := active p; heap := heap p;
     connections := connections p; calls := calls p ++ [c];
     ambient := ambient p |}.

Definition set_ambient (v : Ambient) (p : Plugin) : Plugin :=
  {| window := window p; current_query := current_query p;
     displayed_query := displayed_query p; queries_ := queries_ p;
     show_fallbacks_on_empty_query := show_fallbacks_on_empty_query p;
     mod_fallback := mod_fallback p; mod_actions := mod_actions p;
     history_ := history_ p; display_delay_timer := display_delay_timer p;
     opacity_animation := opacity_animation p;
     configuration := configuration p; active := active p; heap := heap p;
     connections := connections p; calls := calls p; ambient := v |}.

Definition set_results_list (f : ListView -> ListView) : Plugin -> Plugin :=
  set_window (fun w =>
    {| w_visible := w_visible w; input_line := input_line w;
       results_list := f (results_list w); actions_list := actions_list w |}).

Definition set_actions_list (f : ListView -> ListView) : Plugin -> Plugin :=
  set_window (fun w =>
    {| w_visible := w_visible w; input_line := input_line w;
       results_list := results_list w; actions_list := f (actions_list w) |}).

Definition set_input_line (f : InputLine -> InputLine) : Plugin -> Plugin :=
  set_window (fun w =>
    {| w_visible := w_visible w; input_line := f (input_line w);
       results_list := results_list w; actions_list := actions_list w |}).

Definition set_w_visible (v : bool) : Plugin -> Plugin :=
  set_window (fun w =>
    {| w_visible := v; input_line := input_line w;
       results_list := results_list w; actions_list := actions_list w |}).

(** *** Widget operations *)

Definition hide (lv : ListView) : ListView :=
  {| lv_visible := false; lv_enabled := lv_enabled lv;
     lv_model := lv_model lv; lv_currentIndex := lv_currentIndex lv |}.

Definition show (lv : ListView) : ListView :=
  {| lv_visible := true; lv_enabled := lv_enabled lv;
     lv_model := lv_model lv; lv_currentIndex := lv_currentIndex lv |}.

Definition setEnabled (b : bool) (lv : ListView) : ListView :=
  {| lv_visible := lv_visible lv; lv_enabled := b;
     lv_model := lv_model lv; lv_currentIndex := lv_currentIndex lv |}.

(** [setModel(m)] followed by deleting the previous selection model: the
    view is bound to [m] and starts without a current index. *)
Definition setModel (m : Model) (lv : ListView) : ListView :=
  {| lv_visible := lv_visible lv; lv_enabled := lv_enabled lv;
     lv_model := Some m; lv_currentIndex := None |}.

Definition setCurrentIndex (i : option nat) (lv : ListView) : ListView :=
  {| lv_visible := lv_visible lv; lv_enabled := lv_enabled lv;
     lv_model := lv_model lv; lv_currentIndex := i |}.

Definition setInputHint (h : InputHint) (il : InputLine) : InputLine :=
  {| text := text il; inputHint := h; eventFilters := eventFilters il |}.

Definition removeEventFilter (f : FilterObj) (il : InputLine) : InputLine :=
  {| text := text il; inputHint := inputHint il;
     eventFilters :=
       filter (fun x => negb (FilterObj_beq f x)) (eventFilters il) |}.

Definition installEventFilter (f : FilterObj) (il : InputLine) : InputLine :=
  {| text := text il; inputHint := inputHint il;
     eventFilters :=
       f :: filter (fun x => negb (FilterObj_beq f x)) (eventFilters il) |}.

(** *** Reading the query store *)

Definition null_query : Query :=
  {| q_string := EmptyString; q_matches := 0; q_fallbacks := 0;
     q_matchActions := fun _ => 0; q_fallbackActions := fun _ => 0;
     q_isFinished := false; q_canceled := false; q_running := false |}.

Definition query_at (p : Plugin) (q : QueryId) : Query :=
  nth q (heap p) null_query.

Definition deref (q : option QueryId) : Result QueryId :=
  match q with
  | Some q => Ok q
  | None => NullDeref
  end.

Definition rowCount (p : Plugin) (m : Model) : nat :=
  match m with
  | matches q => q_matches (query_at p q)
  | fallbacks q => q_fallbacks (query_at p q)
  | matchActions q row => q_matchActions (query_at p q) row
  | fallbackActions q row => q_fallbackActions (query_at p q) row
  end.

(** [m->index(0, 0)]: valid exactly when the model has a row. *)
Definition index00 (p : Plugin) (m : Model) : option nat :=
  if 0 <? rowCount p m then Some 0 else None.

Definition same_model (a : option Model) (m : Model) : bool :=
  match a with
  | Some m' => Model_beq m' m
  | None => false
  end.

Definition isEmpty (s : string) : bool :=
  match s with EmptyString => true | _ => false end.

Definition same_connection (c d : QueryId * QuerySignal) : bool :=
  (fst c =? fst d) && QuerySignal_beq (snd c) (snd d).

Definition connected (p : Plugin) (q : QueryId) (sig : QuerySignal) : bool :=
  existsb (same_connection (q, sig)) (connections p).

Definition connect (q : QueryId) (sig : QuerySignal) (p : Plugin) : Plugin :=
  call (call_connect q sig) (set_connections (connections p ++ [(q, sig)]) p).

Definition disconnect (q : QueryId) (sig : QuerySignal) (p : Plugin)
  : Plugin :=
  call (call_disconnect q sig)
    (set_connections
       (filter (fun c => negb (same_connection (q, sig) c)) (connections p))
       p).

(** ** Events seen by the state machine *)

Inductive Signal : Type :=
| textChanged       (* window.input_line, QLineEdit::textChanged *)
| timeout           (* display_delay_timer, QTimer::timeout *)
| queryFinsished    (* Plugin::queryFinsished *)
| resultsReady.     (* Plugin::resultsReady *)

Scheme Equality for Signal.

Inductive KeyEventType : Type := KeyPress | KeyRelease.
Scheme Equality for KeyEventType.

Inductive HoverEventType : Type := Enter | Leave.
Scheme Equality for HoverEventType.

Inductive QEvent : Type :=
| SignalEvent (sig : Signal)
| KeyEvent (type : KeyEventType) (key : Key)      (* on window.input_line *)
| ButtonEvent (type : HoverEventType).            (* on window.settings_button *)

(** ** Transition classes

    [eventTest] of the framework's transitions and of the three conditional
    subclasses; the condition is only evaluated when the event matches. *)

Definition EventTest : Type := QEvent -> Plugin -> Result bool.

Definition QSignalTransition (sig : Signal) : EventTest :=
  fun e _ =>
    match e with
    | SignalEvent sig' => Ok (Signal_beq sig sig')
    | _ => Ok false
    end.

Definition QKeyEventTransition (type : KeyEventType) (key : Key) : EventTest :=
  fun e _ =>
    match e with
    | KeyEvent type' key' => Ok (KeyEventType_beq type type' && Key_beq key key')
    | _ => Ok false
    end.

Definition QEventTransition (type : HoverEventType) : EventTest :=
  fun e _ =>
    match e with
    | ButtonEvent type' => Ok (HoverEventType_beq type type')
    | _ => Ok false
    end.

Definition cond (base : EventTest) (test_ : Plugin -> Result bool) : EventTest :=
  fun e p => b <- base e p ;; if b then test_ p else Ok false.

Definition CondSignalTransition (sig : Signal) (test_ : Plugin -> Result bool)
  : EventTest := cond (QSignalTransition sig) test_.

Definition CondKeyEventTransition (type : KeyEventType) (key : Key)
  (test_ : Plugin -> Result bool) : EventTest :=
  cond (QKeyEventTransition type key) test_.

Definition CondEventTransition (type : HoverEventType)
  (test_ : Plugin -> Result bool) : EventTest :=
  cond (QEventTransition type) test_.

(** ** The conditions of [init_statemachine], one per lambda *)

(** [!show_fallbacks_on_empty_query || current_query->fallbacks()->rowCount() == 0] *)
Definition test_no_fallbacks (p : Plugin) : Result bool :=
  if negb (show_fallbacks_on_empty_query p) then Ok true
  else q <- deref (current_query p) ;; Ok (rowCount p (fallbacks q) =? 0).

(** [show_fallbacks_on_empty_query && current_query->fallbacks()->rowCount() > 0] *)
Definition test_show_fallbacks (p : Plugin) : Result bool :=
  if show_fallbacks_on_empty_query p
  then q <- deref (current_query p) ;; Ok (0 <? rowCount p (fallbacks q))
  else Ok false.

(** [current_query->fallbacks()->rowCount() > 0] *)
Definition test_has_fallbacks (p : Plugin) : Result bool :=
  q <- deref (current_query p) ;; Ok (0 <? rowCount p (fallbacks q)).

(** [current_query->matches()->rowCount() == 0] *)
Definition test_no_matches (p : Plugin) : Result bool :=
  q <- deref (current_query p) ;; Ok (rowCount p (matches q) =? 0).

(** [current_query->matches()->rowCount() != 0] *)
Definition test_has_matches (p : Plugin) : Result bool :=
  q <- deref (current_query p) ;; Ok (negb (rowCount p (matches q) =? 0)).

(** [!window.input_line->underMouse()] *)
Definition test_not_underMouse (p : Plugin) : Result bool :=
  Ok (negb (underMouse (ambient p))).

(** [current_query->isFinished()] *)
Definition test_isFinished (p : Plugin) : Result bool :=
  q <- deref (current_query p) ;; Ok (q_isFinished (query_at p q)).

(** ** The transition table *)

Record Transition : Type := {
  tid : nat;                 (* identity: position in order of creation *)
  sourceState : StateId;
  targetState : StateId;
  eventTest : EventTest
}.

Definition setTransition (id : nat) (src dst : StateId) (t : EventTest)
  : Transition :=
  {| tid := id; sourceState := src; targetState := dst; eventTest := t |}.

Definition transitions (p : Plugin) : list Transition :=
  [ setTransition 0 s_results_visible s_results_postpone
      (QSignalTransition textChanged);

    setTransition 1 s_results_postpone s_results_hidden
      (QSignalTransition timeout);
    setTransition 2 s_results_postpone s_results_hidden
      (CondSignalTransition queryFinsished test_no_fallbacks);
    setTransition 3 s_results_postpone s_results_model_fallbacks
      (CondSignalTransition queryFinsished test_show_fallbacks);
    setTransition 4 s_results_postpone s_results_model_fallbacks
      (CondKeyEventTransition KeyPress (mods_keys (mod_fallback p))
         test_has_fallbacks);
    setTransition 5 s_results_postpone s_results_model_matches
      (QSignalTransition resultsReady);

    setTransition 6 s_results_hidden s_results_model_fallbacks
      (CondSignalTransition queryFinsished test_show_fallbacks);
    setTransition 7 s_results_hidden s_results_model_fallbacks
      (CondKeyEventTransition KeyPress (mods_keys (mod_fallback p))
         test_has_fallbacks);
    setTransition 8 s_results_hidden s_results_model_matches
      (QSignalTransition resultsReady);

    setTransition 9 s_results_model_fallbacks s_results_hidden
      (CondKeyEventTransition KeyRelease (mods_keys (mod_fallback p))
         test_no_matches);
    setTransition 10 s_results_model_fallbacks s_results_model_matches
      (CondKeyEventTransition KeyRelease (mods_keys (mod_fallback p))
         test_has_matches);

    setTransition 11 s_results_model_matches s_results_model_fallbacks
      (CondKeyEventTransition KeyPress (mods_keys (mod_fallback p))
         test_has_fallbacks);

    setTransition 12 s_results_actions_hidden s_results_actions_visible
      (QKeyEventTransition KeyPress (mods_keys (mod_actions p)));
    setTransition 13 s_results_actions_visible s_results_actions_hidden
      (QKeyEventTransition KeyRelease (mods_keys (mod_actions p)));

    setTransition 14 s_button_hidden s_button_shown
      (QEventTransition Enter);
    setTransition 15 s_button_hidden s_button_shown
      (QSignalTransition textChanged);

    setTransition 16 s_button_shown s_button_hidden
      (CondSignalTransition queryFinsished test_not_underMouse);
    setTransition 17 s_button_shown s_button_hidden
      (CondEventTransition Leave test_isFinished) ].

(** ** Behaviour: the slots connected to [entered] and [exited] *)

Definition no_model_active : string :=
  "Logic error in s_results_actions_shown::entered".

Definition entered (s : StateId) (p : Plugin) : Result Plugin :=
  match s with
  | s_results_hidden =>
    Ok (set_results_list hide p)
  | s_results_postpone =>
    Ok (set_results_list (setEnabled false) (set_display_delay_timer true p))
  | s_results_visible =>
    Ok (set_input_line
          (fun il => installEventFilter filter_plugin
                       (installEventFilter filter_results_list
                          (removeEventFilter filter_plugin il))) p)
  | s_results_model_matches =>
    q <- deref (current_query p) ;;
    let m := matches q in
    let p := set_results_list (setModel m) p in
    let p := disconnect q sig_rowsInserted p in
    let i := index00 p m in
    let p := set_results_list (setCurrentIndex i) p in
    (* currentChanged sets the input hint unless the signals are blocked *)
    let p := match i with
             | Some row =>
               if isEmpty (q_string (query_at p q)) then p
               else set_input_line (setInputHint (hint_item m row)) p
             | None => p
             end in
    Ok (set_results_list show p)
  | s_results_model_fallbacks =>
    q <- deref (current_query p) ;;
    let m := fallbacks q in
    let p := if same_model (lv_model (results_list (window p))) m then p
             else set_results_list
                    (fun lv => setCurrentIndex (index00 p m) (setModel m lv)) p in
    Ok (set_results_list show p)
  | s_results_actions_visible =>
    match lv_currentIndex (results_list (window p)) with
    | Some row =>
      m <- (if mem s_results_model_matches (active p) then
              q <- deref (current_query p) ;; Ok (matchActions q row)
            else if mem s_results_model_fallbacks (active p) then
              q <- deref (current_query p) ;; Ok (fallbackActions q row)
            else Fatal no_model_active) ;;
      Ok (set_input_line (installEventFilter filter_actions_list)
            (set_actions_list
               (fun lv => show (setCurrentIndex (index00 p m) (setModel m lv)))
               p))
    | None => Ok p
    end
  | s_button_shown =>
    Ok (set_opacity_animation Forward p)
  | _ => Ok p
  end.

Definition exited (s : StateId) (p : Plugin) : Plugin :=
  match s with
  | s_results_postpone =>
    set_results_list (setEnabled true)
      (set_displayed_query (current_query p) p)
  | s_results_visible =>
    set_input_line (removeEventFilter filter_results_list) p
  | s_results_actions_visible =>
    set_input_line (removeEventFilter filter_actions_list)
      (set_actions_list hide p)
  | s_button_shown =>
    set_opacity_animation Backward p
  | _ => p
  end.

(** ** The run-to-completion step of the state machine *)

Definition transitions_of (p : Plugin) (s : StateId) : list Transition :=
  filter (fun t => StateId_beq (sourceState t) s) (transitions p).

(** The first transition of the list whose [eventTest] accepts the event. *)
Fixpoint first_enabled (e : QEvent) (p : Plugin) (ts : list Transition)
  : Result (list Transition) :=
  match ts with
  | [] => Ok []
  | t :: ts' =>
    b <- eventTest t e p ;;
    if b then Ok [t] else first_enabled e p ts'
  end.

(** For each active atomic state, in entry order: the state itself, then its
    ancestors, are searched for an enabled transition. *)
Fixpoint enabled_from (e : QEvent) (p : Plugin) (atoms : list StateId)
  : Result (list Transition) :=
  match atoms with
  | [] => Ok []
  | s :: rest =>
    t <- first_enabled e p
           (flat_map (transitions_of p) (s :: getProperAncestors s None)) ;;
    ts <- enabled_from e p rest ;;
    Ok (t ++ ts)
  end.

Definition getTransitionDomain (t : Transition) : StateId :=
  findLCCA (sourceState t) (targetState t).

Definition computeExitSet_Unordered (config : list StateId) (t : Transition)
  : list StateId :=
  filter (fun s => isDescendant s (getTransitionDomain t)) config.

Definition intersects (a b : list StateId) : bool :=
  existsb (fun s => mem s b) a.

Definition transitionStateEntryLessThan (t1 t2 : Transition) : bool :=
  if StateId_beq (sourceState t1) (sourceState t2) then tid t1 <? tid t2
  else stateEntryLessThan (sourceState t1) (sourceState t2).

(** One pass of the conflict filter for candidate [t1]: what is left of the
    already accepted transitions, and whether [t1] was preempted. *)
Fixpoint preempt (config : list StateId) (t1 : Transition)
  (filtered : list Transition) : list Transition * bool :=
  match filtered with
  | [] => ([], false)
  | t2 :: rest =>
    if tid t1 =? tid t2 then (t2 :: rest, true)
    else if negb (intersects (computeExitSet_Unordered config t1)
                             (computeExitSet_Unordered config t2))
    then let (kept, preempted) := preempt config t1 rest in
         (t2 :: kept, preempted)
    else if isDescendant (sourceState t1) (sourceState t2)
    then preempt config t1 rest
    else (t2 :: rest, true)
  end.

Definition removeConflictingTransitions (config : list StateId)
  (enabledTransitions : list Transition) : list Transition :=
  fold_left
    (fun filtered t1 =>
       let (kept, preempted) := preempt config t1 filtered in
       if preempted then kept else kept ++ [t1])
    (sort_by transitionStateEntryLessThan enabledTransitions) [].

Definition selectTransitions (e : QEvent) (p : Plugin)
  : Result (list Transition) :=
  enabled <- enabled_from e p
               (sort_by stateEntryLessThan
                  (filter isAtomic (configuration p))) ;;
  Ok (removeConflictingTransitions (configuration p) enabled).

Definition computeExitSet (config : list StateId) (ts : list Transition)
  : list StateId :=
  sort_by stateExitLessThan
    (fold_left
       (fun acc t =>
          fold_left (fun acc s => insert s acc)
            (computeExitSet_Unordered config t) acc)
       ts []).

Definition containsDescendantOf (states : list StateId) (node : StateId)
  : bool :=
  existsb (fun s => isDescendant s node) states.

Section EntrySet.
(** [addDescendantStatesToEnter] of the next lower level of the tree. *)
Variable addDescendant : StateId -> list StateId -> list StateId.

Definition addChildren (s : StateId) (acc : list StateId) : list StateId :=
  fold_left
    (fun acc child =>
       if containsDescendantOf acc child then acc
       else addDescendant child acc)
    (childStates s) acc.

Definition addAncestorStatesToEnter (s ancestor : StateId)
  (acc : list StateId) : list StateId :=
  fold_left
    (fun acc anc =>
       match parentState anc with
       | None => acc
       | Some _ =>
         let acc := insert anc acc in
         if isParallel anc then addChildren anc acc else acc
       end)
    (getProperAncestors s (Some ancestor)) acc.
End EntrySet.

Fixpoint addDescendantStatesToEnter (n : nat) (s : StateId)
  (acc : list StateId) : list StateId :=
  match n with
  | O => acc
  | S n' =>
    let acc := insert s acc in
    if isCompound s then
      match initialState s with
      | Some initial =>
        addAncestorStatesToEnter (addDescendantStatesToEnter n') initial s
          (addDescendantStatesToEnter n' initial acc)
      | None => acc
      end
    else if isParallel s then
      addChildren (addDescendantStatesToEnter n') s acc
    else acc
  end.

Definition computeEntrySet (ts : list Transition) : list StateId :=
  sort_by stateEntryLessThan
    (fold_left
       (fun acc t =>
          addAncestorStatesToEnter (addDescendantStatesToEnter depth_bound)
            (targetState t) (getTransitionDomain t)
            (addDescendantStatesToEnter depth_bound (targetState t) acc))
       ts []).

(** A state leaves the configuration, its [active] flag is cleared, then
    [exited] is emitted. *)
Definition exitStates (l : list StateId) (p : Plugin) : Plugin :=
  fold_left
    (fun p s =>
       exited s
         (set_active (remove s (active p))
            (set_configuration (remove s (configuration p)) p)))
    l p.

(** A state joins the configuration, [entered] is emitted, and only then is
    its [active] flag set. *)
Fixpoint enterStates (l : list StateId) (p : Plugin) : Result Plugin :=
  match l with
  | [] => Ok p
  | s :: l' =>
    p1 <- entered s (set_configuration (insert s (configuration p)) p) ;;
    enterStates l' (set_active (insert s (active p1)) p1)
  end.

Definition microstep (ts : list Transition) (p : Plugin) : Result Plugin :=
  let exitedStates := computeExitSet (configuration p) ts in
  let enteredStates := computeEntrySet ts in
  enterStates enteredStates (exitStates exitedStates p).

(** Delivery of one event to the running machine. *)
Definition processEvent (e : QEvent) (p : Plugin) : Result Plugin :=
  ts <- selectTransitions e p ;;
  match ts with
  | [] => Ok p
  | _ => microstep ts p
  end.

(** Start of the machine: the initial transition from the root to [s_top]. *)
Definition initialTransition : Transition :=
  setTransition 0 machine s_top (fun _ _ => Ok true).

Definition start (p : Plugin) : Result Plugin :=
  enterStates (computeEntrySet [initialTransition])
    (set_active [] (set_configuration [] p)).

(** ** The query lifecycle: the slot connected to [textChanged] *)

Fixpoint update_nth (n : nat) (f : Query -> Query) (l : list Query)
  : list Query :=
  match l, n with
  | [], _ => []
  | x :: l', O => f x :: l'
  | x :: l', S n' => x :: update_nth n' f l'
  end.

Definition update_query (q : QueryId) (f : Query -> Query) (p : Plugin)
  : Plugin := set_heap (update_nth q f (heap p)) p.

Definition cancel (q : QueryId) (p : Plugin) : Plugin :=
  call (call_cancel q)
    (update_query q
       (fun x =>
          {| q_string := q_string x; q_matches := q_matches x;
             q_fallbacks := q_fallbacks x;
             q_matchActions := q_matchActions x;
             q_fallbackActions := q_fallbackActions x;
             q_isFinished := q_isFinished x; q_canceled := true;
             q_running := q_running x |}) p).

Definition run (q : QueryId) (p : Plugin) : Plugin :=
  call (call_run q)
    (update_query q
       (fun x =>
          {| q_string := q_string x; q_matches := q_matches x;
             q_fallbacks := q_fallbacks x;
             q_matchActions := q_matchActions x;
             q_fallbackActions := q_fallbackActions x;
             q_isFinished := q_isFinished x; q_canceled := q_canceled x;
             q_running := true |}) p).

(** [query(text)]: a new query object for [text], with no match yet and not
    finished; its fallbacks and actions are the engine's. *)
Definition query (txt : string) (p : Plugin) : Plugin * QueryId :=
  let e := engine (ambient p) txt in
  let q := List.length (heap p) in
  (call (call_query q txt)
     (set_heap
        (heap p ++
         [{| q_string := txt; q_matches := 0; q_fallbacks := q_fallbacks e;
             q_matchActions := q_matchActions e;
             q_fallbackActions := q_fallbackActions e;
             q_isFinished := false; q_canceled := false;
             q_running := false |}]) p),
   q).

Definition release_current (p : Plugin) : Plugin :=
  match current_query p with
  | Some old =>
    disconnect old sig_rowsInserted
      (disconnect old sig_finished (cancel old p))
  | None => p
  end.

Definition on_textChanged (txt : string) (p : Plugin) : Plugin :=
  let p := release_current p in
  let (p, q) := query txt p in
  let p := set_current_query (Some q) p in
  let p := connect q sig_finished p in
  let p := connect q sig_rowsInserted p in
  let p := set_queries_ (queries_ p ++ [q]) p in
  let p := set_input_line
             (setInputHint (if isEmpty (q_string (query_at p q))
                            then hint_synopsis q else hint_empty)) p in
  run q p.

(** Emission of the input line's [textChanged]: the slot above was connected
    in the constructor, the state machine connects when it starts, so the
    slot runs first. *)
Definition emit_textChanged (txt : string) (p : Plugin) : Result Plugin :=
  processEvent (SignalEvent textChanged) (on_textChanged txt p).

(** ** Activations *)

(** Modelled from the spec: albert::History is not part of the sources; an
    added text is appended to the history, duplicates included. *)
Definition history_add (s : string) (p : Plugin) : Plugin :=
  call (call_history_add s) (set_history_ (history_ p ++ [s]) p).

Definition setText (txt : string) (il : InputLine) : InputLine :=
  {| text := txt; inputHint := inputHint il; eventFilters := eventFilters il |}.

(** ** The window is shown or hidden *)

(** [QLineEdit::clear()]: [textChanged] is emitted when there was a text. *)
Definition input_line_clear (p : Plugin) : Result Plugin :=
  if isEmpty (text (input_line (window p))) then Ok p
  else emit_textChanged EmptyString (set_input_line (setText EmptyString) p).

(** [Plugin::eventFilter] on [QEvent::Show].  The screen, the size and the
    position of the window and the rotation of the settings button are not
    part of the state. *)
Definition eventFilter_Show (p : Plugin) : Result Plugin :=
  let txt := text (input_line (window p)) in
  emit_textChanged txt (call (call_emit_textChanged txt) p).

(** The queries that [remove_if] keeps in [queries_]. *)
Definition retained (p : Plugin) (q : QueryId) : bool :=
  orb (match current_query p with Some c => Nat.eqb q c | None => false end)
      (match displayed_query p with Some d => Nat.eqb q d | None => false end).

Definition trim_queries (p : Plugin) : Plugin :=
  set_queries_ (filter (retained p) (queries_ p)) p.

(** [Plugin::eventFilter] on [QEvent::Hide].  The rotation of the settings
    button, the stored window position, the selection of the input line, the
    iterator of the history and [user_text] are not part of the state. *)
Definition eventFilter_Hide (p : Plugin) : Result Plugin :=
  p <- (if clearOnHide_ (ambient p) then input_line_clear p else Ok p) ;;
  Ok (trim_queries (history_add (text (input_line (window p))) p)).

(** [QWidget::setVisible] on the window.  Nothing happens unless the
    visibility changes; when it does, the input line, a child of the window
    that is never hidden on its own, receives [QEvent::Show] or
    [QEvent::Hide], and the plugin's filter, installed on the input line in
    the constructor and reinstalled whenever it is removed, sees it. *)
Definition window_setVisible (visible : bool) (p : Plugin) : Result Plugin :=
  if Bool.eqb (w_visible (window p)) visible then Ok p
  else if visible then eventFilter_Show (set_w_visible true p)
  else eventFilter_Hide (set_w_visible false p).

Definition window_hide (p : Plugin) : Result Plugin :=
  window_setVisible false (call call_window_hide p).

(** Conversion of an [int] row to the [uint] parameter of [activate]. *)
Definition to_uint (z : Z) : Z := Z.modulo z (2 ^ 32).

Definition row_of (i : option nat) : Z :=
  match i with
  | Some r => Z.of_nat r
  | None => (-1)%Z
  end.

Definition activate (i a : Z) (p : Plugin) : Result Plugin :=
  p <- (if mem s_results_model_matches (active p) then
          q <- deref (current_query p) ;;
          Ok (call (call_activateMatch q i a) p)
        else if mem s_results_model_fallbacks (active p) then
          q <- deref (current_query p) ;;
          Ok (call (call_activateFallback q i a) p)
        else Ok (call call_warn p)) ;;
  let txt := text (input_line (window p)) in
  let p := history_add txt p in
  if negb (ControlModifier (ambient p)) then window_hide p
  else emit_textChanged txt (call (call_emit_textChanged txt) p).

(** The current row of the results list moves to [row], a row of the model
    the list shows.  The slot connected to [currentChanged] when Model=Matches
    was entered belongs to the selection model of the matches, which goes
    when the fallbacks are bound: while the list shows matches it sets the
    hint of the input line to the completion of the row. *)
Definition results_setCurrentRow (row : nat) (p : Plugin) : Plugin :=
  match lv_model (results_list (window p)) with
  | Some m =>
    if (row <? rowCount p m) &&
       negb (match lv_currentIndex (results_list (window p)) with
             | Some r => r =? row
             | None => false
             end)
    then let p := set_results_list (setCurrentIndex (Some row)) p in
         match m with
         | matches _ => set_input_line (setInputHint (hint_item m row)) p
         | _ => p
         end
    else p
  | None => p
  end.

(** [Plugin::setVisible]; raising and activating the window is not part of
    the state. *)
Definition setVisible (visible : bool) (p : Plugin) : Result Plugin :=
  window_setVisible visible p.

(** ** Construction *)

Definition new_list : ListView :=
  {| lv_visible := false; lv_enabled := true; lv_model := None;
     lv_currentIndex := None |}.

Definition Plugin_fields (show_fallbacks : bool) (fallback_mod actions_mod : Mod)
  (history : list string) (a : Ambient) : Plugin :=
  {| window :=
       {| w_visible := false;
          input_line := {| text := EmptyString; inputHint := hint_empty;
                           eventFilters := [filter_plugin] |};
          results_list := new_list; actions_list := new_list |};
     current_query := None; displayed_query := None; queries_ := [];
     show_fallbacks_on_empty_query := show_fallbacks;
     mod_fallback := fallback_mod; mod_actions := actions_mod;
     history_ := history; display_delay_timer := false;
     opacity_animation := Backward;
     configuration := []; active := []; heap := []; connections := [];
     calls := []; ambient := a |}.

(** The plugin once its constructor has returned and the machine started. *)
Definition Plugin_ctor (show_fallbacks : bool) (fallback_mod actions_mod : Mod)
  (history : list string) (a : Ambient) : Result Plugin :=
  start (Plugin_fields show_fallbacks fallback_mod actions_mod history a).

(** ** Events delivered to the plugin by its surroundings *)

Inductive Event : Type :=
| input_textChanged (txt : string)     (* the input line's text becomes [txt] *)
| timer_timeout                        (* the debounce timer expires *)
| query_finished (q : QueryId)         (* query [q] emits finished *)
| query_rowsInserted (q : QueryId)     (* a match is appended to [q] *)
| key (type : KeyEventType) (k : Key)  (* a modifier key on the input line *)
| button (type : HoverEventType)       (* the pointer and the settings button *)
| results_activated (row : nat)        (* a result row is activated *)
| actions_activated (row : nat)        (* an action row is activated *)
| surroundings (a : Ambient)           (* pointer, keyboard, engine, setting *)
| visibility (visible : bool)          (* Plugin::setVisible is called *)
| results_currentChanged (row : nat).  (* the current result row changes *)

Definition finish (x : Query) : Query :=
  {| q_string := q_string x; q_matches := q_matches x;
     q_fallbacks := q_fallbacks x; q_matchActions := q_matchActions x;
     q_fallbackActions := q_fallbackActions x;
     q_isFinished := true; q_canceled := q_canceled x;
     q_running := false |}.

Definition append_match (x : Query) : Query :=
  {| q_string := q_string x; q_matches := S (q_matches x);
     q_fallbacks := q_fallbacks x; q_matchActions := q_matchActions x;
     q_fallbackActions := q_fallbackActions x;
     q_isFinished := q_isFinished x; q_canceled := q_canceled x;
     q_running := q_running x |}.

Definition step (ev : Event) (p : Plugin) : Result Plugin :=
  match ev with
  | input_textChanged txt =>
    emit_textChanged txt (set_input_line (setText txt) p)
  | timer_timeout =>
    if display_delay_timer p
    then processEvent (SignalEvent timeout) (set_display_delay_timer false p)
    else Ok p
  | query_finished q =>
    let p := update_query q finish p in
    if connected p q sig_finished
    then processEvent (SignalEvent queryFinsished) p
    else Ok p
  | query_rowsInserted q =>
    let p := update_query q append_match p in
    if connected p q sig_rowsInserted
    then processEvent (SignalEvent resultsReady) p
    else Ok p
  | key type k => processEvent (KeyEvent type k) p
  | button type => processEvent (ButtonEvent type) p
  | results_activated row => activate (to_uint (Z.of_nat row)) 0%Z p
  | actions_activated row =>
    activate (to_uint (row_of (lv_currentIndex (results_list (window p)))))
             (to_uint (Z.of_nat row)) p
  | surroundings a => Ok (set_ambient a p)
  | visibility visible => setVisible visible p
  | results_currentChanged row => Ok (results_setCurrentRow row p)
  end.

Fixpoint steps (evs : list Event) (p : Plugin) : Result Plugin :=
  match evs with
  | [] => Ok p
  | ev :: evs' => p' <- step ev p ;; steps evs' p'
  end.

(** ** Notions used to state and prove the properties *)

Inductive reachable : Plugin -> Prop :=
| reach_ctor : forall show_fallbacks fallback_mod actions_mod history a p,
    Plugin_ctor show_fallbacks fallback_mod actions_mod history a = Ok p ->
    reachable p
| reach_step : forall p ev p',
    reachable p -> step ev p = Ok p' -> reachable p'.

Definition is_active (s : StateId) (p : Plugin) : bool := mem s (active p).

Definition count_active (p : Plugin) (region : list StateId) : nat :=
  List.length (filter (fun s => is_active s p) region).

Definition Results : list StateId :=
  [s_results_hidden; s_results_postpone; s_results_visible].

Definition Models : list StateId :=
  [s_results_model_matches; s_results_model_fallbacks].

Definition Actions : list StateId :=
  [s_results_actions_hidden; s_results_actions_visible].

(** Exactly one leaf of the Results region is active; inside Visible exactly
    one Model and one Actions sub-state, outside Visible none. *)
Definition regions_ok (p : Plugin) : Prop :=
  count_active p Results = 1 /\
  if is_active s_results_visible p
  then count_active p Models = 1 /\ count_active p Actions = 1
  else count_active p Models = 0 /\ count_active p Actions = 0.

(** The twelve configurations of the tree: a Button leaf, and a Results
    leaf with, under Visible, a Model leaf and an Actions leaf. *)
Definition button_configs : list (list StateId) :=
  [[s_button_hidden]; [s_button_shown]].

Definition results_configs : list (list StateId) :=
  [[s_results_hidden]; [s_results_postpone]] ++
  flat_map
    (fun m =>
       map (fun a => [s_results_visible; s_results_model; m;
                      s_results_actions; a])
           Actions)
    Models.

Definition legal_configs : list (list StateId) :=
  flat_map
    (fun b => map (fun r => s_top :: s_button :: b ++ s_results :: r)
                  results_configs)
    button_configs.

Fixpoint same_states (a b : list StateId) : bool :=
  match a, b with
  | [], [] => true
  | x :: a', y :: b' => StateId_beq x y && same_states a' b'
  | _, _ => false
  end.

Definition legal (c : list StateId) : bool :=
  existsb (same_states c) legal_configs.

Definition inv (p : Plugin) : Prop :=
  legal (configuration p) = true /\ active p = configuration p.

Set Implicit Arguments.

(** What delivering an event to the machine leaves alone. *)
Record stable (p p' : Plugin) : Prop := {
  st_current_query : current_query p' = current_query p;
  st_heap : heap p' = heap p;
  st_show : show_fallbacks_on_empty_query p' = show_fallbacks_on_empty_query p;
  st_mod_fallback : mod_fallback p' = mod_fallback p;
  st_mod_actions : mod_actions p' = mod_actions p;
  st_ambient : ambient p' = ambient p;
  st_history : history_ p' = history_ p;
  st_queries : queries_ p' = queries_ p;
  st_text : text (input_line (window p')) = text (input_line (window p));
  st_w_visible : w_visible (window p') = w_visible (window p);
  st_connections : forall c, In c (connections p') -> In c (connections p);
  st_finished : forall q, In (q, sig_finished) (connections p) ->
                          In (q, sig_finished) (connections p');
  st_calls : exists extra, calls p' = calls p ++ extra /\
             forall c, In c extra ->
                       exists q, c = call_disconnect q sig_rowsInserted;
  st_model :
    lv_model (results_list (window p')) = lv_model (results_list (window p))
    \/ exists q, current_query p = Some q /\
         (lv_model (results_list (window p')) = Some (matches q) \/
          lv_model (results_list (window p')) = Some (fallbacks q))
}.

Unset Implicit Arguments.

Definition atoms_of (config : list StateId) : list StateId :=
  sort_by stateEntryLessThan (filter isAtomic config).

(** Every list of enabled transitions that the selection can come up with,
    whatever the conditions evaluate to. *)
Definition options (p : Plugin) (s : StateId) : list (list Transition) :=
  [] :: map (fun t => [t])
            (flat_map (transitions_of p) (s :: getProperAncestors s None)).

Fixpoint candidates (p : Plugin) (atoms : list StateId)
  : list (list Transition) :=
  match atoms with
  | [] => [[]]
  | s :: rest =>
    flat_map (fun t => map (fun ts => t ++ ts) (candidates p rest))
             (options p s)
  end.

(** The entry list never reaches Actions=Shown without an active model. *)
Fixpoint entry_safe (act l : list StateId) : bool :=
  match l with
  | [] => true
  | s :: l' =>
    (if StateId_beq s s_results_actions_visible
     then mem s_results_model_matches act || mem s_results_model_fallbacks act
     else true) && entry_safe (insert s act) l'
  end.

Definition after_exit (config : list StateId) (ts : list Transition)
  : list StateId :=
  fold_left (fun c s => remove s c) (computeExitSet config ts) config.

Definition after_entry (config : list StateId) (ts : list Transition)
  : list StateId :=
  fold_left (fun c s => insert s c) (computeEntrySet ts) (after_exit config ts).

Definition check (config : list StateId) (ts : list Transition) : bool :=
  match ts with
  | [] => true
  | _ => legal (after_entry config ts) &&
         entry_safe (after_exit config ts) (computeEntrySet ts)
  end.

(** The values of the conditions for one event and one current query. *)
Record Guards : Type := {
  g_key_fallback : bool;   (* the key is mods_keys[mod_fallback] *)
  g_key_actions : bool;    (* the key is mods_keys[mod_actions] *)
  g_show : bool;           (* show_fallbacks_on_empty_query *)
  g_fallbacks : bool;      (* the fallback set is non-empty *)
  g_matches : bool;        (* the match set is non-empty *)
  g_underMouse : bool;
  g_finished : bool
}.

Definition key_is (k : Key) (e : QEvent) : bool :=
  match e with
  | KeyEvent _ k' => Key_beq k k'
  | _ => false
  end.

Definition guards (e : QEvent) (p : Plugin) (q : QueryId) : Guards :=
  {| g_key_fallback := key_is (mods_keys (mod_fallback p)) e;
     g_key_actions := key_is (mods_keys (mod_actions p)) e;
     g_show := show_fallbacks_on_empty_query p;
     g_fallbacks := 0 <? rowCount p (fallbacks q);
     g_matches := negb (rowCount p (matches q) =? 0);
     g_underMouse := underMouse (ambient p);
     g_finished := q_isFinished (query_at p q) |}.

(** Which transitions (by [tid]) accept an event, given the conditions. *)
Definition accepts (e : QEvent) (g : Guards) (id : nat) : bool :=
  match e with
  | SignalEvent textChanged =>
    match id with 0 | 15 => true | _ => false end
  | SignalEvent timeout =>
    match id with 1 => true | _ => false end
  | SignalEvent queryFinsished =>
    match id with
    | 2 => negb (g_show g) || negb (g_fallbacks g)
    | 3 | 6 => g_show g && g_fallbacks g
    | 16 => negb (g_underMouse g)
    | _ => false
    end
  | SignalEvent resultsReady =>
    match id with 5 | 8 => true | _ => false end
  | KeyEvent KeyPress _ =>
    match id with
    | 4 | 7 | 11 => g_key_fallback g && g_fallbacks g
    | 12 => g_key_actions g
    | _ => false
    end
  | KeyEvent KeyRelease _ =>
    match id with
    | 9 => g_key_fallback g && negb (g_matches g)
    | 10 => g_key_fallback g && g_matches g
    | 13 => g_key_actions g
    | _ => false
    end
  | ButtonEvent Enter =>
    match id with 14 => true | _ => false end
  | ButtonEvent Leave =>
    match id with 17 => g_finished g | _ => false end
  end.

Fixpoint first_accepted (acc : nat -> bool) (ts : list Transition)
  : list Transition :=
  match ts with
  | [] => []
  | t :: ts' => if acc (tid t) then [t] else first_accepted acc ts'
  end.

Definition enabled_by (acc : nat -> bool) (p : Plugin) (atoms : list StateId)
  : list Transition :=
  flat_map
    (fun s => first_accepted acc
                (flat_map (transitions_of p) (s :: getProperAncestors s None)))
    atoms.

Definition selected (acc : nat -> bool) (p : Plugin) (config : list StateId)
  : list Transition :=
  removeConflictingTransitions config (enabled_by acc p (atoms_of config)).

(** The configuration after an event, as a function of the conditions. *)
Definition next_configuration (e : QEvent) (g : Guards) (p : Plugin)
  (config : list StateId) : list StateId :=
  after_entry config (selected (accepts e g) p config).

Definition model_query (m : Model) : QueryId :=
  match m with
  | matches q | fallbacks q => q
  | matchActions q _ | fallbackActions q _ => q
  end.

(** Only the current query is connected to the plugin's signals. *)
Definition wired_only_current (p : Plugin) : Prop :=
  forall q sig, In (q, sig) (connections p) -> current_query p = Some q.

(** Events that never emit [textChanged]; hiding the window emits it when
    [clearOnHide_] is set and there is a text to clear. *)
Definition quiet (ev : Event) : bool :=
  match ev with
  | input_textChanged _ | results_activated _ | actions_activated _
  | visibility _ => false
  | _ => true
  end.

(** Outcomes without the fatal error, failing only for want of a query. *)
Definition harmless {A : Type} (p : Plugin) (r : Result A) : Prop :=
  match r with
  | Ok _ => True
  | NullDeref => current_query p = None
  | Fatal _ => False
  end.

(** Well-formed plugin states: a legal configuration, only the current
    query connected, and no pointer past the end of the query store. *)
Definition wf (p : Plugin) : Prop :=
  inv p /\
  wired_only_current p /\
  (forall q, current_query p = Some q -> q < List.length (heap p)) /\
  (forall m, lv_model (results_list (window p)) = Some m ->
             model_query m < List.length (heap p)).

(** While Model=Matches is active the current query's row insertions are
    not connected to [resultsReady]. *)
Definition severed (p : Plugin) : Prop :=
  is_active s_results_model_matches p = true ->
  forall q, current_query p = Some q ->
            connected p q sig_rowsInserted = false.

(** What holds of the state [p'] that a handler leaves behind when it ran
    from [p]. *)
Definition follows (p p' : Plugin) : Prop :=
  wf p' /\
  (severed p -> severed p') /\
  (forall q, current_query p = Some q -> current_query p' <> None).

(** Lists of states left and entered, as functions of the conditions. *)
Definition idle (e : QEvent) (g : Guards) (p : Plugin)
  (config : list StateId) : bool :=
  match selected (accepts e g) p config with
  | [] => true
  | _ => false
  end.

Definition exit_list (e : QEvent) (g : Guards) (p : Plugin)
  (config : list StateId) : list StateId :=
  computeExitSet config (selected (accepts e g) p config).

Definition entry_list (e : QEvent) (g : Guards) (p : Plugin)
  (config : list StateId) : list StateId :=
  computeEntrySet (selected (accepts e g) p config).

(** The plugin from its construction through a sequence of events. *)
Definition run_from_ctor (show_fallbacks : bool) (fallback_mod actions_mod : Mod)
  (history : list string) (a : Ambient) (evs : list Event) : Result Plugin :=
  p <- Plugin_ctor show_fallbacks fallback_mod actions_mod history a ;;
  steps evs p.

(** A concrete surrounding and run, used to instantiate the properties. *)
Definition demo_query : Query :=
  {| q_string := EmptyString; q_matches := 0; q_fallbacks := 2;
     q_matchActions := fun _ => 1; q_fallbackActions := fun _ => 1;
     q_isFinished := false; q_canceled := false; q_running := false |}.

Definition demo_ambient : Ambient :=
  {| underMouse := false; ControlModifier := false; clearOnHide_ := false;
     engine := fun _ => demo_query |}.

Definition demo_fields : Plugin :=
  Plugin_fields true Meta Alt [] demo_ambient.

Definition demo_state (evs : list Event) : Plugin :=
  match run_from_ctor true Meta Alt [] demo_ambient evs with
  | Ok p => p
  | _ => demo_fields
  end.

(** A state with a selected row in which no model state is active. *)
Definition stray_selection : Plugin :=
  set_results_list (setCurrentIndex (Some 0)) demo_fields.

(** The model bound to the results list and its selected row. *)
Definition selection (p : Plugin) : option Model * option nat :=
  (lv_model (results_list (window p)),
   lv_currentIndex (results_list (window p))).

(** * Observations of the plugin state *)

(** ** What the handlers do to the plain widget state *)

(** The part of the plugin that the entered and exited handlers set without
    reading anything: the results list's enabledness and visibility, the
    debounce timer and the direction of the button's opacity animation. *)
Record View : Type := {
  v_enabled : bool;
  v_visible : bool;
  v_timer : bool;
  v_opacity : Direction
}.

Definition view (p : Plugin) : View :=
  {| v_enabled := lv_enabled (results_list (window p));
     v_visible := lv_visible (results_list (window p));
     v_timer := display_delay_timer p;
     v_opacity := opacity_animation p |}.

Definition entered_view (s : StateId) (v : View) : View :=
  match s with
  | s_results_hidden =>
    {| v_enabled := v_enabled v; v_visible := false; v_timer := v_timer v;
       v_opacity := v_opacity v |}
  | s_results_postpone =>
    {| v_enabled := false; v_visible := v_visible v; v_timer := true;
       v_opacity := v_opacity v |}
  | s_results_model_matches | s_results_model_fallbacks =>
    {| v_enabled := v_enabled v; v_visible := true; v_timer := v_timer v;
       v_opacity := v_opacity v |}
  | s_button_shown =>
    {| v_enabled := v_enabled v; v_visible := v_visible v;
       v_timer := v_timer v; v_opacity := Forward |}
  | _ => v
  end.

Definition exited_view (s : StateId) (v : View) : View :=
  match s with
  | s_results_postpone =>
    {| v_enabled := true; v_visible := v_visible v; v_timer := v_timer v;
       v_opacity := v_opacity v |}
  | s_button_shown =>
    {| v_enabled := v_enabled v; v_visible := v_visible v;
       v_timer := v_timer v; v_opacity := Backward |}
  | _ => v
  end.

Definition microstep_view (config : list StateId) (ts : list Transition)
  (v : View) : View :=
  fold_left (fun v s => entered_view s v) (computeEntrySet ts)
    (fold_left (fun v s => exited_view s v) (computeExitSet config ts) v).

Definition is_forward (d : Direction) : bool :=
  match d with Forward => true | Backward => false end.

(** The widget state that goes with a configuration. *)
Definition view_ok (config : list StateId) (v : View) : bool :=
  Bool.eqb (v_enabled v) (negb (mem s_results_postpone config)) &&
  implb (mem s_results_hidden config) (negb (v_visible v)) &&
  implb (mem s_results_visible config) (v_visible v) &&
  implb (mem s_results_postpone config) (v_timer v) &&
  Bool.eqb (is_forward (v_opacity v)) (mem s_button_shown config).

Definition all_views : list View :=
  flat_map
    (fun e =>
       flat_map
         (fun vis =>
            flat_map
              (fun t =>
                 map (fun o => {| v_enabled := e; v_visible := vis;
                                  v_timer := t; v_opacity := o |})
                     [Forward; Backward])
              [true; false])
         [true; false])
    [true; false].

Definition stop_timer (v : View) : View :=
  {| v_enabled := v_enabled v; v_visible := v_visible v; v_timer := false;
     v_opacity := v_opacity v |}.

(** Events whose transitions carry no condition. *)
Definition unguarded (e : QEvent) : bool :=
  match e with
  | SignalEvent textChanged | SignalEvent timeout | SignalEvent resultsReady
  | ButtonEvent Enter => true
  | _ => false
  end.

Definition no_guards : Guards :=
  {| g_key_fallback := false; g_key_actions := false; g_show := false;
     g_fallbacks := false; g_matches := false; g_underMouse := false;
     g_finished := false |}.

(** The widget state agrees with the configuration. *)
Definition tidy (p : Plugin) : Prop :=
  view_ok (configuration p) (view p) = true.

(** The first part of [activate]: the call that goes to the query. *)
Definition activate_call (i a : Z) (p : Plugin) : Result Plugin :=
  if mem s_results_model_matches (active p) then
    q <- deref (current_query p) ;;
    Ok (call (call_activateMatch q i a) p)
  else if mem s_results_model_fallbacks (active p) then
    q <- deref (current_query p) ;;
    Ok (call (call_activateFallback q i a) p)
  else Ok (call call_warn p).

(** ** Event filters of the input line and the actions list *)

Definition install (f : FilterObj) (l : list FilterObj) : list FilterObj :=
  eventFilters
    (installEventFilter f
       {| text := EmptyString; inputHint := hint_empty; eventFilters := l |}).

Definition uninstall (f : FilterObj) (l : list FilterObj) : list FilterObj :=
  eventFilters
    (removeEventFilter f
       {| text := EmptyString; inputHint := hint_empty; eventFilters := l |}).

(** The input line's event filters, first to see an event first, and whether
    the actions list is on screen. *)
Record Filters : Type := {
  f_list : list FilterObj;
  f_actions : bool
}.

Definition filters (p : Plugin) : Filters :=
  {| f_list := eventFilters (input_line (window p));
     f_actions := lv_visible (actions_list (window p)) |}.

(** What entering a state can make of them: entering Actions=Shown shows the
    actions list and installs its filter when a result row is selected, and
    does nothing otherwise. *)
Definition entered_filters (s : StateId) (x : Filters) : list Filters :=
  match s with
  | s_results_visible =>
    [{| f_list := install filter_plugin
                    (install filter_results_list
                       (uninstall filter_plugin (f_list x)));
        f_actions := f_actions x |}]
  | s_results_actions_visible =>
    [x; {| f_list := install filter_actions_list (f_list x);
           f_actions := true |}]
  | _ => [x]
  end.

Definition exited_filters (s : StateId) (x : Filters) : Filters :=
  match s with
  | s_results_visible =>
    {| f_list := uninstall filter_results_list (f_list x);
       f_actions := f_actions x |}
  | s_results_actions_visible =>
    {| f_list := uninstall filter_actions_list (f_list x);
       f_actions := false |}
  | _ => x
  end.

Definition microstep_filters (config : list StateId) (ts : list Transition)
  (x : Filters) : list Filters :=
  fold_left (fun xs s => flat_map (entered_filters s) xs) (computeEntrySet ts)
    [fold_left (fun x s => exited_filters s x) (computeExitSet config ts) x].

(** The filters that go with a configuration: the plugin's own filter
    always, behind it the results list's while Results=Visible is active,
    and before both the actions list's while that list is on screen. *)
Definition expected_filters (config : list StateId) (shown : bool)
  : Filters :=
  {| f_list := (if shown then [filter_actions_list] else []) ++
               [filter_plugin] ++
               (if mem s_results_visible config then [filter_results_list]
                else []);
     f_actions := shown |}.

Fixpoint same_filters (a b : list FilterObj) : bool :=
  match a, b with
  | [], [] => true
  | x :: a', y :: b' => FilterObj_beq x y && same_filters a' b'
  | _, _ => false
  end.

Definition filters_ok (config : list StateId) (x : Filters) : bool :=
  same_filters (f_list x) (f_list (expected_filters config (f_actions x))) &&
  implb (f_actions x) (mem s_results_actions_visible config).

(** ** What the results list shows *)

(** The model bound to the results list, seen from query [q]. *)
Inductive Bound : Type := bound_matches | bound_fallbacks | bound_other.

Definition bound_kind (q : QueryId) (m : option Model) : Bound :=
  match m with
  | Some (matches q') => if q' =? q then bound_matches else bound_other
  | Some (fallbacks q') => if q' =? q then bound_fallbacks else bound_other
  | _ => bound_other
  end.

Record Shown : Type := {
  s_kind : Bound;
  s_row : bool        (* the current index is valid *)
}.

Definition has_row (i : option nat) : bool :=
  match i with Some _ => true | None => false end.

Definition shown (q : QueryId) (p : Plugin) : Shown :=
  {| s_kind := bound_kind q (lv_model (results_list (window p)));
     s_row := has_row (lv_currentIndex (results_list (window p))) |}.

(** Entering a state, for a current query with ([gm]) or without matches
    and with ([gf]) or without fallbacks. *)
Definition entered_shown (gm gf : bool) (s : StateId) (x : Shown) : Shown :=
  match s with
  | s_results_model_matches => {| s_kind := bound_matches; s_row := gm |}
  | s_results_model_fallbacks =>
    match s_kind x with
    | bound_fallbacks => x
    | _ => {| s_kind := bound_fallbacks; s_row := gf |}
    end
  | _ => x
  end.

Definition is_bound (k : Bound) : bool :=
  match k with bound_other => false | _ => true end.

Definition is_matches (k : Bound) : bool :=
  match k with bound_matches => true | _ => false end.

Definition is_fallbacks (k : Bound) : bool :=
  match k with bound_fallbacks => true | _ => false end.

Definition shown_ok (config : list StateId) (gm gf : bool) (x : Shown) : bool :=
  implb (mem s_results_model_matches config) (is_matches (s_kind x) && gm) &&
  implb (mem s_results_model_fallbacks config)
        (is_fallbacks (s_kind x) && gf) &&
  implb (is_bound (s_kind x)) (s_row x).

Definition has_matches (p : Plugin) (q : QueryId) : bool :=
  0 <? rowCount p (matches q).

Definition has_fallbacks (p : Plugin) (q : QueryId) : bool :=
  0 <? rowCount p (fallbacks q).

(** The results list agrees with the configuration and the current query. *)
Definition bound_inv (p : Plugin) : Prop :=
  forall q, current_query p = Some q ->
    shown_ok (configuration p) (has_matches p q) (has_fallbacks p q)
      (shown q p) = true.

(** Without a query the Results region is not in Visible. *)
Definition visible_needs_query (p : Plugin) : Prop :=
  current_query p = None -> mem s_results_visible (configuration p) = false.

(** ** The queries the plugin has created *)

(** Every query but the current one has been cancelled. *)
Definition superseded_cancelled (p : Plugin) : Prop :=
  forall i, i < List.length (heap p) ->
    q_canceled (query_at p i)
    = negb (match current_query p with
            | Some q => i =? q
            | None => false
            end).

(** ** Signals of the current query *)

(** The current query's [finished] signal is connected. *)
Definition finished_wired (p : Plugin) : Prop :=
  forall q, current_query p = Some q -> connected p q sig_finished = true.

(** * Further parts of the code *)

(** ** The top-level window: [Window::event] *)

(** A point with [int] coordinates; the handler only subtracts points, and
    no property below depends on the result staying in range. *)
Record QPoint : Type := { xp : Z; yp : Z }.

(** [QPoint()], the null point. *)
Definition QPoint_null : QPoint := {| xp := 0; yp := 0 |}.

Definition isNull (a : QPoint) : bool := ((xp a =? 0) && (yp a =? 0))%Z.

Definition QPoint_sub (a b : QPoint) : QPoint :=
  {| xp := xp a - xp b; yp := yp a - yp b |}.

Inductive EventType : Type :=
| Close | MouseButtonPress | Move | Resize | MouseMove | MouseButtonRelease
| OtherEvent.

Scheme Equality for EventType.

(** An event with what the handler reads when it runs: [pos()] and
    [globalPosition().toPoint()] of a mouse event and, for a resize, the top
    right corner of the frame and the width of the settings button. *)
Record WindowEvent : Type := {
  type : EventType;
  pos : QPoint;
  globalPosition : QPoint;
  frame_topRight : QPoint;
  settings_button_width : Z
}.

(** What the handler writes: the window's visibility, the positions it moves
    the window to (latest last), the drag offset and the position of the
    settings button. *)
Record TopLevel : Type := {
  tl_visible : bool;
  tl_moves : list QPoint;
  clickOffset_ : QPoint;
  settings_button_pos : QPoint
}.

(** The value returned: [true], or whatever [QWidget::event] returns. *)
Inductive Returned : Type := return_true | return_QWidget_event.

Definition tl_hide (w : TopLevel) : TopLevel :=
  {| tl_visible := false; tl_moves := tl_moves w;
     clickOffset_ := clickOffset_ w;
     settings_button_pos := settings_button_pos w |}.

Definition tl_move (a : QPoint) (w : TopLevel) : TopLevel :=
  {| tl_visible := tl_visible w; tl_moves := tl_moves w ++ [a];
     clickOffset_ := clickOffset_ w;
     settings_button_pos := settings_button_pos w |}.

Definition set_clickOffset_ (a : QPoint) (w : TopLevel) : TopLevel :=
  {| tl_visible := tl_visible w; tl_moves := tl_moves w; clickOffset_ := a;
     settings_button_pos := settings_button_pos w |}.

Definition settings_button_move (a : QPoint) (w : TopLevel) : TopLevel :=
  {| tl_visible := tl_visible w; tl_moves := tl_moves w;
     clickOffset_ := clickOffset_ w; settings_button_pos := a |}.

(** [Window::event], branch by branch in the order of the source. *)
Definition Window_event (e : WindowEvent) (w : TopLevel)
  : TopLevel * Returned :=
  if EventType_beq (type e) Close then (tl_hide w, return_true)
  else if EventType_beq (type e) MouseButtonPress
  then (tl_hide w, return_true)
  else
    (if EventType_beq (type e) Move then w
     else if EventType_beq (type e) Resize
     then settings_button_move
            (QPoint_sub (frame_topRight e)
               {| xp := settings_button_width e - 1; yp := 0 |}) w
     else if EventType_beq (type e) MouseMove && negb (isNull (clickOffset_ w))
     then tl_move (QPoint_sub (globalPosition e) (clickOffset_ w)) w
     else if EventType_beq (type e) MouseButtonPress
     then set_clickOffset_ (pos e) w
     else if EventType_beq (type e) MouseButtonRelease
     then set_clickOffset_ QPoint_null w
     else w,
     return_QWidget_event).

(** A sequence of events, each handled in turn. *)
Definition Window_events (es : list WindowEvent) (w : TopLevel) : TopLevel :=
  fold_left (fun w e => fst (Window_event e w)) es w.

(** The window as constructed: hidden, never moved, with a null drag
    offset. *)
Definition Window_new (button : QPoint) : TopLevel :=
  {| tl_visible := false; tl_moves := []; clickOffset_ := QPoint_null;
     settings_button_pos := button |}.

Definition mouse (t : EventType) (at_ global : QPoint) : WindowEvent :=
  {| type := t; pos := at_; globalPosition := global;
     frame_topRight := QPoint_null; settings_button_width := 0 |}.

(** ** Themes: [applyTheme], [setLightTheme], [setDarkTheme] and the palette
    change seen by [eventFilter] *)

(** [std::map<QString, QString>] and [QSettings], as association lists with
    one entry per key. *)
Fixpoint map_at {A : Type} (k : string) (m : list (string * A)) : option A :=
  match m with
  | [] => None
  | (k', v) :: m' => if String.eqb k' k then Some v else map_at k m'
  end.

Definition setValue {A : Type} (k : string) (v : A) (s : list (string * A))
  : list (string * A) :=
  (k, v) :: filter (fun kv => negb (String.eqb (fst kv) k)) s.

Definition CFG_THEME : string := "theme".
Definition CFG_THEME_DARK : string := "dark_theme".

(** The exception [themes_.at] throws for a missing key. *)
Inductive Exception : Type := out_of_range.

Record Theming : Type := {
  themes_ : list (string * string);    (* theme name to file path *)
  theme_light_ : string;
  theme_dark_ : string;
  dark_mode_ : bool;
  styleSheet : string;                 (* window.styleSheet() *)
  settings : list (string * string);
  criticals : nat                      (* message boxes shown *)
}.

Definition set_styleSheet (v : string) (t : Theming) : Theming :=
  {| themes_ := themes_ t; theme_light_ := theme_light_ t;
     theme_dark_ := theme_dark_ t; dark_mode_ := dark_mode_ t;
     styleSheet := v; settings := settings t; criticals := criticals t |}.

Definition critical (t : Theming) : Theming :=
  {| themes_ := themes_ t; theme_light_ := theme_light_ t;
     theme_dark_ := theme_dark_ t; dark_mode_ := dark_mode_ t;
     styleSheet := styleSheet t; settings := settings t;
     criticals := S (criticals t) |}.

Definition set_theme_light_ (v : string) (t : Theming) : Theming :=
  {| themes_ := themes_ t; theme_light_ := v;
     theme_dark_ := theme_dark_ t; dark_mode_ := dark_mode_ t;
     styleSheet := styleSheet t; settings := setValue CFG_THEME v (settings t);
     criticals := criticals t |}.

Definition set_theme_dark_ (v : string) (t : Theming) : Theming :=
  {| themes_ := themes_ t; theme_light_ := theme_light_ t;
     theme_dark_ := v; dark_mode_ := dark_mode_ t;
     styleSheet := styleSheet t;
     settings := setValue CFG_THEME_DARK v (settings t);
     criticals := criticals t |}.

Definition set_dark_mode_ (v : bool) (t : Theming) : Theming :=
  {| themes_ := themes_ t; theme_light_ := theme_light_ t;
     theme_dark_ := theme_dark_ t; dark_mode_ := v;
     styleSheet := styleSheet t; settings := settings t;
     criticals := criticals t |}.

Section Themes.
(** The file system: the content of a file that can be opened for reading. *)
Variable readAll : string -> option string.

(** The state when the function returns or throws, and what it throws. *)
Definition applyTheme (theme : string) (t : Theming)
  : Theming * option Exception :=
  match map_at theme (themes_ t) with
  | None => (t, Some out_of_range)
  | Some path =>
    match readAll path with
    | Some content => (set_styleSheet content t, None)
    | None => (critical t, None)
    end
  end.

Definition setLightTheme (theme : string) (t : Theming)
  : Theming * option Exception :=
  let t := set_theme_light_ theme t in
  if negb (dark_mode_ t) then applyTheme theme t else (t, None).

Definition setDarkTheme (theme : string) (t : Theming)
  : Theming * option Exception :=
  let t := set_theme_dark_ theme t in
  if dark_mode_ t then applyTheme theme t else (t, None).

(** [QEvent::ApplicationPaletteChange] in [eventFilter], with the value of
    [haveDarkPalette()]. *)
Definition paletteChange (dark : bool) (t : Theming)
  : Theming * option Exception :=
  let t := set_dark_mode_ dark t in
  applyTheme (if dark then theme_dark_ t else theme_light_ t) t.

(** The operations on themes, and a sequence of them that stops at the first
    exception. *)
Inductive ThemeOp : Type :=
| op_setLightTheme (theme : string)
| op_setDarkTheme (theme : string)
| op_paletteChange (dark : bool).

Definition theme_op (o : ThemeOp) (t : Theming) : Theming * option Exception :=
  match o with
  | op_setLightTheme n => setLightTheme n t
  | op_setDarkTheme n => setDarkTheme n t
  | op_paletteChange d => paletteChange d t
  end.

Fixpoint theme_ops (os : list ThemeOp) (t : Theming)
  : Theming * option Exception :=
  match os with
  | [] => (t, None)
  | o :: os' =>
    match theme_op o t with
    | (t', None) => theme_ops os' t'
    | r => r
    end
  end.

(** A theme that is known and whose file can be read. *)
Definition usable (theme : string) (t : Theming) : Prop :=
  exists path content,
    map_at theme (themes_ t) = Some path /\ readAll path = Some content.

Definition op_usable (o : ThemeOp) (t : Theming) : Prop :=
  match o with
  | op_setLightTheme n | op_setDarkTheme n => usable n t
  | op_paletteChange _ => True
  end.

(** The style sheet is the file of the theme of the current mode. *)
Definition themed (t : Theming) : Prop :=
  exists path,
    map_at (if dark_mode_ t then theme_dark_ t else theme_light_ t)
           (themes_ t) = Some path /\
    readAll path = Some (styleSheet t).
End Themes.

(** A concrete setting, used to instantiate the properties: one theme, dark
    mode, and a file system in which only that theme's file can be read. *)
Definition demo_theming : Theming :=
  {| themes_ := [("Default"%string, "/themes/Default.qss"%string)];
     theme_light_ := "Default"; theme_dark_ := "Default";
     dark_mode_ := true; styleSheet := "* { }"; settings := [];
     criticals := 0 |}.

Definition demo_readAll (path : string) : option string :=
  if String.eqb path "/themes/Default.qss" then Some "* { }"%string else None.

(** ** Display settings kept in the window's widgets *)

(** [QFlags<Qt::WindowType>]: an unsigned 32-bit integer. *)
Definition WindowStaysOnTopHint : Z := 0x00040000.
Definition NoDropShadowWindowHint : Z := 0x40000000.

(** [~flag] on 32 bits. *)
Definition complement (flag : Z) : Z := Z.lxor (2 ^ 32 - 1) flag.

Definition setFlag (flag : Z) (on : bool) (i : Z) : Z :=
  if on then Z.lor i flag else Z.land i (complement flag).

Definition testFlag (flag : Z) (i : Z) : bool :=
  (Z.land i flag =? flag)%Z && (negb (flag =? 0)%Z || (i =? flag)%Z).

Inductive ScrollBarPolicy : Type :=
| ScrollBarAsNeeded | ScrollBarAlwaysOff | ScrollBarAlwaysOn.

(** The drop shadow effect of the window, with the properties it is given. *)
Record DropShadow : Type := {
  blurRadius : Z;
  color : Z * Z * Z * Z;
  xOffset : Z;
  yOffset : Z
}.

Definition DEF_SHADOW_SIZE : Z := 32.

Record Display : Type := {
  windowFlags : Z;
  verticalScrollBarPolicy : ScrollBarPolicy;
  graphicsEffect : option DropShadow;
  contentsMargins : Z * Z * Z * Z;
  display_settings : list (string * bool)
}.

Definition CFG_ALWAYS_ON_TOP : string := "alwaysOnTop".
Definition CFG_DISPLAY_SCROLLBAR : string := "displayScrollbar".
Definition CFG_CLIENT_SHADOW : string := "clientShadow".
Definition CFG_SYSTEM_SHADOW : string := "systemShadow".

Definition set_windowFlags (v : Z) (d : Display) : Display :=
  {| windowFlags := v;
     verticalScrollBarPolicy := verticalScrollBarPolicy d;
     graphicsEffect := graphicsEffect d;
     contentsMargins := contentsMargins d;
     display_settings := display_settings d |}.

Definition set_verticalScrollBarPolicy (v : ScrollBarPolicy) (d : Display)
  : Display :=
  {| windowFlags := windowFlags d; verticalScrollBarPolicy := v;
     graphicsEffect := graphicsEffect d;
     contentsMargins := contentsMargins d;
     display_settings := display_settings d |}.

Definition set_graphicsEffect (v : option DropShadow) (d : Display)
  : Display :=
  {| windowFlags := windowFlags d;
     verticalScrollBarPolicy := verticalScrollBarPolicy d;
     graphicsEffect := v; contentsMargins := contentsMargins d;
     display_settings := display_settings d |}.

Definition set_contentsMargins (v : Z * Z * Z * Z) (d : Display) : Display :=
  {| windowFlags := windowFlags d;
     verticalScrollBarPolicy := verticalScrollBarPolicy d;
     graphicsEffect := graphicsEffect d; contentsMargins := v;
     display_settings := display_settings d |}.

Definition display_setValue (k : string) (v : bool) (d : Display) : Display :=
  {| windowFlags := windowFlags d;
     verticalScrollBarPolicy := verticalScrollBarPolicy d;
     graphicsEffect := graphicsEffect d;
     contentsMargins := contentsMargins d;
     display_settings := setValue k v (display_settings d) |}.

Definition isSome {A : Type} (o : option A) : bool :=
  match o with Some _ => true | None => false end.

Definition alwaysOnTop (d : Display) : bool :=
  testFlag WindowStaysOnTopHint (windowFlags d).

Definition setAlwaysOnTop (alwaysOnTop : bool) (d : Display) : Display :=
  let d := display_setValue CFG_ALWAYS_ON_TOP alwaysOnTop d in
  set_windowFlags (setFlag WindowStaysOnTopHint alwaysOnTop (windowFlags d)) d.

Definition displayScrollbar (d : Display) : bool :=
  match verticalScrollBarPolicy d with
  | ScrollBarAlwaysOff => false
  | _ => true
  end.

Definition setDisplayScrollbar (value : bool) (d : Display) : Display :=
  let d := display_setValue CFG_DISPLAY_SCROLLBAR value d in
  set_verticalScrollBarPolicy
    (if value then ScrollBarAsNeeded else ScrollBarAlwaysOff) d.

Definition displayClientShadow (d : Display) : bool :=
  isSome (graphicsEffect d).

Definition setDisplayClientShadow (value : bool) (d : Display) : Display :=
  let d := if isSome (graphicsEffect d) && negb value
           then set_graphicsEffect None d else d in
  let d := if negb (isSome (graphicsEffect d)) && value
           then set_graphicsEffect
                  (Some {| blurRadius := DEF_SHADOW_SIZE;
                           color := (0, 0, 0, 92)%Z;
                           xOffset := 0; yOffset := 2 |}) d
           else d in
  let d := if value
           then set_contentsMargins
                  (DEF_SHADOW_SIZE, DEF_SHADOW_SIZE, DEF_SHADOW_SIZE,
                   DEF_SHADOW_SIZE) d
           else set_contentsMargins (0, 0, 0, 0)%Z d in
  display_setValue CFG_CLIENT_SHADOW value d.

Definition displaySystemShadow (d : Display) : bool :=
  negb (testFlag NoDropShadowWindowHint (windowFlags d)).

Definition setDisplaySystemShadow (value : bool) (d : Display) : Display :=
  let d := display_setValue CFG_SYSTEM_SHADOW value d in
  set_windowFlags
    (setFlag NoDropShadowWindowHint (negb value) (windowFlags d)) d.

(** * Properties *)

(** ** Tactics *)

Ltac break_match_hyp H :=
  match type of H with
  | context [match ?x with _ => _ end] =>
    lazymatch x with
    | context [match _ with _ => _ end] => fail
    | _ => destruct x eqn:?
    end
  end.

Ltac stable_tac :=
  constructor; cbn; auto;
  try (intros c Hc; apply filter_In in Hc; tauto);
  try (intros q' Hq'; apply filter_In; split; [exact Hq'|];
       unfold same_connection; cbn [fst snd QuerySignal_beq];
       rewrite andb_false_r; reflexivity);
  try (exists []; split; [symmetry; apply app_nil_r|intros c []]);
  try (eexists; split; [reflexivity|];
       intros c [<-|[]]; eexists; reflexivity).

(** ** What the handlers and the step leave alone *)

Lemma stable_refl p : stable p p.
Proof. stable_tac. Qed.

Lemma stable_trans p1 p2 p3 : stable p1 p2 -> stable p2 p3 -> stable p1 p3.
Proof.
  intros H1 H2.
  pose proof (st_model H1) as M1. pose proof (st_model H2) as M2.
  pose proof (st_current_query H1) as Q1.
  pose proof (st_connections H1) as C1. pose proof (st_connections H2) as C2.
  pose proof (st_finished H1) as F1. pose proof (st_finished H2) as F2.
  pose proof (st_calls H1) as (x1 & X1 & Y1).
  pose proof (st_calls H2) as (x2 & X2 & Y2).
  destruct H1, H2; constructor; try congruence; auto.
  { exists (x1 ++ x2). split.
    - rewrite X2, X1. symmetry. apply app_assoc.
    - intros c Hc. apply in_app_or in Hc. destruct Hc; auto. }
  destruct M1 as [E|(q & Hq & E)]; destruct M2 as [E'|(q' & Hq' & E')].
  - left; congruence.
  - right. exists q'. split; [congruence|]. auto.
  - right. exists q. rewrite E'. auto.
  - right. exists q'. split; [congruence|]. auto.
Qed.

Lemma entered_stable s p p' :
  entered s p = Ok p' ->
  configuration p' = configuration p /\ active p' = active p /\ stable p p'.
Proof.
  intros H. destruct s; cbn in H; unfold bind, deref in H;
    repeat (break_match_hyp H; cbn in H); try discriminate;
    injection H as <-; (split; [reflexivity|split; [reflexivity|]]);
    try apply stable_refl; stable_tac;
    try (right; eexists; split; [eassumption|tauto]).
Qed.

Lemma exited_stable s p :
  configuration (exited s p) = configuration p /\
  active (exited s p) = active p /\ stable p (exited s p).
Proof.
  destruct s; cbn; (split; [reflexivity|split; [reflexivity|]]);
    try apply stable_refl; stable_tac.
Qed.

Lemma stable_set_configuration v p : stable p (set_configuration v p).
Proof. stable_tac. Qed.

Lemma stable_set_active v p : stable p (set_active v p).
Proof. stable_tac. Qed.

Lemma enterStates_spec l : forall p p',
  enterStates l p = Ok p' ->
  configuration p' = fold_left (fun c s => insert s c) l (configuration p) /\
  active p' = fold_left (fun c s => insert s c) l (active p) /\
  stable p p'.
Proof.
  induction l as [|s l IH]; simpl; intros p p' H.
  - injection H as <-. auto using stable_refl.
  - destruct (entered s _) as [p1| |] eqn:E; cbn [bind] in H; try discriminate.
    apply entered_stable in E. destruct E as (Ec & Ea & Es).
    cbn [configuration active set_configuration] in Ec, Ea.
    apply IH in H. destruct H as (Hc & Ha & Hs).
    cbn [configuration active set_active] in Hc, Ha.
    rewrite Hc, Ha, Ec, Ea. split; [reflexivity|split; [reflexivity|]].
    eapply stable_trans; [apply stable_set_configuration|].
    eapply stable_trans; [apply Es|].
    eapply stable_trans; [apply stable_set_active|]. exact Hs.
Qed.

Lemma exitStates_spec l : forall p,
  configuration (exitStates l p)
    = fold_left (fun c s => remove s c) l (configuration p) /\
  active (exitStates l p) = fold_left (fun c s => remove s c) l (active p) /\
  stable p (exitStates l p).
Proof.
  unfold exitStates. induction l as [|s l IH]; simpl; intros p.
  - auto using stable_refl.
  - destruct (IH (exited s (set_active (remove s (active p))
                  (set_configuration (remove s (configuration p)) p))))
      as (Hc & Ha & Hs).
    destruct (exited_stable s (set_active (remove s (active p))
                  (set_configuration (remove s (configuration p)) p)))
      as (Ec & Ea & Es).
    rewrite Hc, Ha, Ec, Ea. cbn [configuration active set_configuration set_active].
    split; [reflexivity|split; [reflexivity|]].
    eapply stable_trans; [apply stable_set_configuration|].
    eapply stable_trans; [apply stable_set_active|].
    eapply stable_trans; [apply Es|]. exact Hs.
Qed.

Lemma entered_harmless s p :
  (if StateId_beq s s_results_actions_visible
   then mem s_results_model_matches (active p)
        || mem s_results_model_fallbacks (active p)
   else true) = true ->
  harmless p (entered s p).
Proof.
  intros H. destruct s; cbn in *; unfold bind, deref; auto;
    destruct (current_query p) eqn:Q; cbn; auto.
  - destruct (lv_currentIndex _); cbn; auto.
    destruct (mem s_results_model_matches (active p)); cbn; auto.
    destruct (mem s_results_model_fallbacks (active p)); cbn; auto.
    discriminate.
  - destruct (lv_currentIndex _); cbn; auto.
    destruct (mem s_results_model_matches (active p)); cbn; auto.
    destruct (mem s_results_model_fallbacks (active p)); cbn; auto.
    discriminate.
Qed.

Lemma enterStates_harmless l : forall p,
  entry_safe (active p) l = true -> harmless p (enterStates l p).
Proof.
  induction l as [|s l IH]; simpl; intros p H; [exact I|].
  apply andb_prop in H. destruct H as [H1 H2].
  pose proof (entered_harmless s (set_configuration (insert s (configuration p)) p) H1) as E.
  destruct (entered s _) as [p1| |] eqn:E1; cbn [bind]; auto.
  apply entered_stable in E1. destruct E1 as (_ & Ea & Es).
  cbn [active set_configuration] in Ea.
  specialize (IH (set_active (insert s (active p1)) p1)).
  cbn [active set_active] in IH.
  rewrite Ea in IH. specialize (IH H2). rewrite Ea.
  destruct (enterStates l _); cbn [harmless] in *; auto.
  cbn [current_query set_active] in IH.
  pose proof (st_current_query Es) as Q. cbn [current_query set_configuration] in Q.
  congruence.
Qed.

Lemma first_enabled_options e p ts : forall r,
  first_enabled e p ts = Ok r -> In r ([] :: map (fun t => [t]) ts).
Proof.
  induction ts as [|t ts IH]; simpl; intros r H.
  - injection H as <-. auto.
  - destruct (eventTest t e p) as [[|]| |]; cbn [bind] in H; try discriminate.
    + injection H as <-. auto.
    + apply IH in H. destruct H as [H|H]; auto.
Qed.

Lemma enabled_from_candidates e p atoms : forall ts,
  enabled_from e p atoms = Ok ts -> In ts (candidates p atoms).
Proof.
  induction atoms as [|s atoms IH]; cbn [enabled_from candidates]; intros ts H.
  - injection H as <-. left. reflexivity.
  - destruct (first_enabled e p _) as [r| |] eqn:E; cbn [bind] in H;
      try discriminate.
    destruct (enabled_from e p atoms) as [ts'| |]; cbn [bind] in H;
      try discriminate.
    injection H as <-. apply in_flat_map. exists r. split.
    + apply first_enabled_options in E. exact E.
    + apply in_map. auto.
Qed.

Lemma eventTest_harmless e p t :
  In t (transitions p) -> harmless p (eventTest t e p).
Proof.
  intros H. unfold transitions in H.
  repeat (destruct H as [<-|H]; [|]); [..|contradiction];
    destruct e as [[]|[] k|[]]; cbn; try exact I;
    repeat match goal with
           | |- context [Key_beq ?a ?b] => destruct (Key_beq a b)
           end; cbn; try exact I;
    unfold test_no_fallbacks, test_show_fallbacks, test_has_fallbacks,
      test_no_matches, test_has_matches, test_isFinished, bind, deref;
    destruct (show_fallbacks_on_empty_query p); cbn; try exact I;
    destruct (current_query p) eqn:Q; cbn; auto.
Qed.

Lemma first_enabled_harmless e p ts :
  (forall t, In t ts -> In t (transitions p)) ->
  harmless p (first_enabled e p ts).
Proof.
  induction ts as [|t ts IH]; simpl; intros H; [exact I|].
  pose proof (eventTest_harmless e p t (H t (or_introl eq_refl))) as E.
  destruct (eventTest t e p) as [[|]| |]; cbn [bind harmless] in *; auto.
  apply IH. intros t' H'. apply H. right. exact H'.
Qed.

Lemma transitions_of_In p s t : In t (transitions_of p s) -> In t (transitions p).
Proof. unfold transitions_of. intros H. apply filter_In in H. tauto. Qed.

Lemma enabled_from_harmless e p atoms : harmless p (enabled_from e p atoms).
Proof.
  induction atoms as [|s atoms IH]; cbn [enabled_from]; [exact I|].
  assert (E : harmless p (first_enabled e p
             (flat_map (transitions_of p) (s :: getProperAncestors s None)))).
  { apply first_enabled_harmless. intros t H. apply in_flat_map in H.
    destruct H as (x & _ & H). eapply transitions_of_In; eauto. }
  destruct (first_enabled e p _); cbn [bind harmless] in *; auto.
  destruct (enabled_from e p atoms); cbn [bind harmless] in *; auto.
Qed.

Lemma same_states_eq a : forall b, same_states a b = true -> a = b.
Proof.
  induction a as [|x a IH]; destruct b as [|y b]; simpl; try congruence.
  intros H. apply andb_prop in H. destruct H as [H1 H2].
  apply internal_StateId_dec_bl in H1. f_equal; auto.
Qed.

Lemma legal_In c : legal c = true -> In c legal_configs.
Proof.
  unfold legal. rewrite existsb_exists. intros [x [H1 H2]].
  apply same_states_eq in H2. subst; auto.
Qed.

Ltac each_config H :=
  apply legal_In in H;
  let l := eval vm_compute in legal_configs in change legal_configs with l in H;
  cbn [In] in H;
  repeat (destruct H as [H|H]; [symmetry in H|]); [..|contradiction].

Lemma candidates_checked p config :
  legal config = true ->
  forallb (fun en => check config (removeConflictingTransitions config en))
          (candidates p (atoms_of config)) = true.
Proof.
  intros H. each_config H; subst config; vm_compute; reflexivity.
Qed.

Lemma selectTransitions_checked e p ts :
  legal (configuration p) = true ->
  selectTransitions e p = Ok ts -> check (configuration p) ts = true.
Proof.
  intros L H. unfold selectTransitions in H.
  destruct (enabled_from e p _) as [en| |] eqn:E; cbn [bind] in H;
    try discriminate.
  injection H as <-. apply enabled_from_candidates in E.
  pose proof (candidates_checked p _ L) as C.
  rewrite forallb_forall in C. apply C. exact E.
Qed.

Lemma microstep_spec ts p p' :
  microstep ts p = Ok p' ->
  configuration p' = after_entry (configuration p) ts /\
  active p' = fold_left (fun c s => insert s c) (computeEntrySet ts)
                (fold_left (fun c s => remove s c)
                   (computeExitSet (configuration p) ts) (active p)) /\
  stable p p'.
Proof.
  unfold microstep. intros H. apply enterStates_spec in H.
  destruct H as (Hc & Ha & Hs).
  destruct (exitStates_spec (computeExitSet (configuration p) ts) p)
    as (Ec & Ea & Es).
  rewrite Hc, Ha, Ec, Ea. split; [reflexivity|split; [reflexivity|]].
  eapply stable_trans; eauto.
Qed.

(** Delivering an event to a machine in a legal configuration never ends in
    the fatal error, fails only for want of a query, and leaves the machine
    in a legal configuration. *)
Lemma processEvent_inv e p :
  inv p ->
  match processEvent e p with
  | Ok p' => inv p' /\ stable p p'
  | NullDeref => current_query p = None
  | Fatal _ => False
  end.
Proof.
  intros [L A]. unfold processEvent, selectTransitions.
  pose proof (enabled_from_harmless e p (sort_by stateEntryLessThan
                (filter isAtomic (configuration p)))) as S.
  pose proof (@selectTransitions_checked e p) as C.
  unfold selectTransitions in C.
  destruct (enabled_from e p _) as [en| |]; cbn [bind harmless] in *; auto.
  specialize (C _ L eq_refl).
  destruct (removeConflictingTransitions (configuration p) en) as [|t ts] eqn:R.
  - split; [split; assumption|apply stable_refl].
  - unfold check in C. apply andb_prop in C. destruct C as [C1 C2].
    pose proof (enterStates_harmless (computeEntrySet (t :: ts))
                  (exitStates (computeExitSet (configuration p) (t :: ts)) p))
      as E.
    destruct (exitStates_spec (computeExitSet (configuration p) (t :: ts)) p)
      as (Xc & Xa & Xs).
    rewrite Xa, A in E. specialize (E C2).
    pose proof (@microstep_spec (t :: ts) p) as M.
    unfold microstep in *.
    destruct (enterStates _ _) as [p'| |]; cbn [harmless] in E; auto.
    + destruct (M p' eq_refl) as (Mc & Ma & Ms).
      split; [|exact Ms]. split; [rewrite Mc; exact C1|].
      rewrite Ma, Mc, A. reflexivity.
    + rewrite <- E. symmetry. apply (st_current_query Xs).
Qed.

(** *** Exact evaluation of the selection *)

Lemma eqb0_ltb n : (n =? 0) = negb (0 <? n).
Proof. destruct n; reflexivity. Qed.

Lemma eventTest_accepts e p q t :
  current_query p = Some q ->
  In t (transitions p) ->
  eventTest t e p = Ok (accepts e (guards e p q) (tid t)).
Proof.
  intros Q H. unfold transitions in H.
  repeat (destruct H as [<-|H]; [|]); [..|contradiction];
    destruct e as [[]|[] k|[]];
    cbn -[rowCount Nat.ltb Nat.eqb]; try reflexivity;
    repeat match goal with
           | |- context [Key_beq ?a ?b] => destruct (Key_beq a b)
           end;
    cbn -[rowCount Nat.ltb Nat.eqb]; try reflexivity;
    unfold test_no_fallbacks, test_show_fallbacks, test_has_fallbacks,
      test_no_matches, test_has_matches, test_isFinished,
      test_not_underMouse, bind, deref;
    rewrite ?Q; try reflexivity;
    destruct (show_fallbacks_on_empty_query p);
    cbn -[rowCount Nat.ltb Nat.eqb]; rewrite ?eqb0_ltb, ?negb_involutive;
    reflexivity.
Qed.

Lemma first_enabled_pure e p acc ts :
  (forall t, In t ts -> eventTest t e p = Ok (acc (tid t))) ->
  first_enabled e p ts = Ok (first_accepted acc ts).
Proof.
  induction ts as [|t ts IH]; simpl; intros H; [reflexivity|].
  rewrite (H t (or_introl eq_refl)). cbn [bind].
  destruct (acc (tid t)); [reflexivity|].
  apply IH. intros t' H'. apply H. right. exact H'.
Qed.

Lemma enabled_from_pure e p acc atoms :
  (forall t, In t (transitions p) -> eventTest t e p = Ok (acc (tid t))) ->
  enabled_from e p atoms = Ok (enabled_by acc p atoms).
Proof.
  intros H. unfold enabled_by.
  induction atoms as [|s atoms IH]; cbn [enabled_from flat_map]; [reflexivity|].
  rewrite first_enabled_pure with (acc := acc).
  - cbn [bind]. rewrite IH. reflexivity.
  - intros t Ht. apply H. apply in_app_or in Ht. destruct Ht as [Ht|Ht].
    + eapply transitions_of_In; eauto.
    + apply in_flat_map in Ht.
      destruct Ht as (x & _ & Ht). eapply transitions_of_In; eauto.
Qed.

Lemma processEvent_exact e p q :
  current_query p = Some q ->
  processEvent e p =
  match selected (accepts e (guards e p q)) p (configuration p) with
  | [] => Ok p
  | ts => microstep ts p
  end.
Proof.
  intros Q. unfold processEvent, selectTransitions, selected, atoms_of.
  rewrite enabled_from_pure with (acc := accepts e (guards e p q)).
  - cbn [bind]. destruct (removeConflictingTransitions _ _); reflexivity.
  - intros t H. apply eventTest_accepts; assumption.
Qed.

(** With a current query, delivering an event to a machine in a legal
    configuration succeeds, and the next configuration is a function of the
    event and of the values of the conditions. *)
Lemma processEvent_next e p q :
  inv p -> current_query p = Some q ->
  exists p',
    processEvent e p = Ok p' /\ inv p' /\ stable p p' /\
    configuration p' = next_configuration e (guards e p q) p (configuration p).
Proof.
  intros I Q. pose proof (processEvent_inv e p I) as H.
  rewrite (processEvent_exact e p q Q) in *.
  unfold next_configuration.
  destruct (selected _ p (configuration p)) as [|t ts] eqn:S.
  - exists p.
    split; [reflexivity|split; [exact I|split; [apply stable_refl|reflexivity]]].
  - destruct (microstep (t :: ts) p) as [p'| |] eqn:M.
    + exists p'. destruct H as [H1 H2].
      split; [reflexivity|split; [exact H1|split; [exact H2|]]].
      apply microstep_spec in M. apply M.
    + congruence.
    + contradiction.
Qed.

Lemma processEvent_lists e p q :
  current_query p = Some q ->
  processEvent e p =
  if idle e (guards e p q) p (configuration p) then Ok p
  else enterStates (entry_list e (guards e p q) p (configuration p))
         (exitStates (exit_list e (guards e p q) p (configuration p)) p).
Proof.
  intros Q. rewrite (processEvent_exact e p q Q).
  unfold idle, entry_list, exit_list.
  destruct (selected _ p (configuration p)); reflexivity.
Qed.

(** ** Membership in sets of states *)

Lemma mem_In s l : mem s l = true <-> In s l.
Proof.
  unfold mem. rewrite existsb_exists. split.
  - intros (x & H1 & H2). apply internal_StateId_dec_bl in H2. subst; auto.
  - intros H. exists s. split; [exact H|]. apply internal_StateId_dec_lb.
    reflexivity.
Qed.

Lemma mem_insert s x c : mem s (insert x c) = true -> s = x \/ mem s c = true.
Proof.
  rewrite mem_In. unfold insert. intros H. apply filter_In in H.
  destruct H as [_ H]. apply orb_prop in H. destruct H as [H|H]; auto.
  left. apply internal_StateId_dec_bl. exact H.
Qed.

Lemma mem_remove s x c : mem s (remove x c) = true -> mem s c = true.
Proof.
  rewrite !mem_In. unfold remove. intros H. apply filter_In in H. tauto.
Qed.

Lemma mem_fold_insert s l : forall c,
  mem s (fold_left (fun c x => insert x c) l c) = true ->
  In s l \/ mem s c = true.
Proof.
  induction l as [|x l IH]; simpl; intros c H; auto.
  apply IH in H. destruct H as [H|H]; auto.
  apply mem_insert in H. destruct H; auto.
Qed.

Lemma mem_fold_remove s l : forall c,
  mem s (fold_left (fun c x => remove x c) l c) = true -> mem s c = true.
Proof.
  induction l as [|x l IH]; simpl; intros c H; auto.
  apply IH in H. eapply mem_remove; eauto.
Qed.

(** ** Connections *)

Lemma connected_In p q sig :
  connected p q sig = true <-> In (q, sig) (connections p).
Proof.
  unfold connected. rewrite existsb_exists. split.
  - intros ([q' sig'] & H1 & H2). unfold same_connection in H2.
    apply andb_prop in H2. cbn [fst snd] in H2. destruct H2 as [H2 H3].
    apply Nat.eqb_eq in H2. apply internal_QuerySignal_dec_bl in H3.
    subst; auto.
  - intros H. exists (q, sig). split; [exact H|]. unfold same_connection.
    cbn [fst snd]. rewrite Nat.eqb_refl.
    rewrite (internal_QuerySignal_dec_lb sig sig eq_refl). reflexivity.
Qed.

Lemma connected_stable p p' q sig :
  stable p p' -> connected p q sig = false -> connected p' q sig = false.
Proof.
  intros S H. destruct (connected p' q sig) eqn:E; [|reflexivity].
  apply connected_In in E. apply (st_connections S) in E.
  apply connected_In in E. congruence.
Qed.

Lemma disconnect_severs p q sig : connected (disconnect q sig p) q sig = false.
Proof.
  destruct (connected _ q sig) eqn:E; [|reflexivity].
  apply connected_In in E. cbn in E. apply filter_In in E.
  destruct E as [_ E]. unfold same_connection in E. cbn [fst snd] in E.
  rewrite Nat.eqb_refl in E.
  rewrite (internal_QuerySignal_dec_lb sig sig eq_refl) in E. discriminate.
Qed.

Lemma entered_matches_severs p p' q :
  entered s_results_model_matches p = Ok p' ->
  current_query p = Some q ->
  connected p' q sig_rowsInserted = false.
Proof.
  intros H Q. cbn in H. unfold bind, deref in H. rewrite Q in H.
  injection H as <-.
  pose proof (disconnect_severs (set_results_list (setModel (matches q)) p)
                q sig_rowsInserted) as D.
  repeat match goal with
         | |- context [match ?x with _ => _ end] => destruct x
         end; exact D.
Qed.

Lemma enterStates_severs l : forall p p' q,
  In s_results_model_matches l ->
  enterStates l p = Ok p' ->
  current_query p = Some q ->
  connected p' q sig_rowsInserted = false.
Proof.
  induction l as [|s l IH]; cbn [enterStates In]; intros p p' q H E Q;
    [contradiction|].
  destruct (entered s _) as [p1| |] eqn:E1; cbn [bind] in E; try discriminate.
  pose proof (entered_stable _ _ _ E1) as (_ & _ & S1).
  pose proof (st_current_query S1) as Q1.
  cbn [current_query set_configuration] in Q1.
  destruct (in_dec StateId_eq_dec s_results_model_matches l) as [X|X].
  - eapply IH; eauto. cbn [current_query set_active]. congruence.
  - destruct H as [->|H]; [|contradiction].
    apply enterStates_spec in E. destruct E as (_ & _ & S2).
    eapply connected_stable.
    + eapply stable_trans; [apply stable_set_active|exact S2].
    + eapply entered_matches_severs; eauto.
Qed.

Lemma processEvent_cases e p p' :
  processEvent e p = Ok p' ->
  p' = p \/ exists ts, microstep ts p = Ok p'.
Proof.
  unfold processEvent. intros H.
  destruct (selectTransitions e p) as [ts| |]; cbn [bind] in H;
    try discriminate.
  destruct ts as [|t ts].
  - left. congruence.
  - right. eauto.
Qed.

Lemma processEvent_stable e p p' : processEvent e p = Ok p' -> stable p p'.
Proof.
  intros H. apply processEvent_cases in H. destruct H as [->|(ts & H)].
  - apply stable_refl.
  - apply microstep_spec in H. apply H.
Qed.

Lemma processEvent_severed e p p' :
  severed p -> processEvent e p = Ok p' -> severed p'.
Proof.
  intros V H. pose proof (processEvent_stable _ _ _ H) as S.
  apply processEvent_cases in H. destruct H as [->|(ts & H)]; [exact V|].
  intros A q Q. rewrite (st_current_query S) in Q.
  pose proof (microstep_spec _ _ _ H) as (_ & Ha & _).
  unfold is_active in A. rewrite Ha in A. apply mem_fold_insert in A.
  destruct A as [A|A].
  - unfold microstep in H. eapply enterStates_severs; eauto.
    rewrite <- Q.
    apply (st_current_query
             (proj2 (proj2 (exitStates_spec
                (computeExitSet (configuration p) ts) p)))).
  - apply mem_fold_remove in A. eapply connected_stable; eauto.
Qed.

(** ** Well-formedness is preserved *)

Lemma processEvent_wf e p p' : wf p -> processEvent e p = Ok p' -> wf p'.
Proof.
  intros (I & W & B & M) H.
  pose proof (processEvent_inv e p I) as I'. rewrite H in I'.
  destruct I' as [I' S]. split; [exact I'|]. split; [|split].
  - intros q sig C. rewrite (st_current_query S).
    apply (W q sig). apply (st_connections S). exact C.
  - intros q Q. rewrite (st_heap S). apply B.
    rewrite <- (st_current_query S). exact Q.
  - intros m E. rewrite (st_heap S).
    destruct (st_model S) as [X|(q & Q & [X|X])].
    + apply M. congruence.
    + rewrite X in E. injection E as <-. apply B. exact Q.
    + rewrite X in E. injection E as <-. apply B. exact Q.
Qed.

Lemma wf_transfer p p' :
  configuration p' = configuration p ->
  active p' = active p ->
  connections p' = connections p ->
  current_query p' = current_query p ->
  List.length (heap p') = List.length (heap p) ->
  lv_model (results_list (window p')) = lv_model (results_list (window p)) ->
  wf p -> wf p'.
Proof.
  intros C A N Q L M (I & W & B & X). unfold wf, inv, wired_only_current.
  rewrite C, A, N, Q, L, M. destruct I. auto.
Qed.

Lemma severed_transfer p p' :
  active p' = active p ->
  connections p' = connections p ->
  current_query p' = current_query p ->
  severed p -> severed p'.
Proof.
  intros A N Q V. unfold severed, is_active, connected in *.
  rewrite A, N, Q. exact V.
Qed.

Lemma length_update_nth f l : forall n,
  List.length (update_nth n f l) = List.length l.
Proof.
  induction l as [|x l IH]; intros [|n]; simpl; auto.
Qed.

Lemma nth_update_nth f d l : forall n,
  n < List.length l -> nth n (update_nth n f l) d = f (nth n l d).
Proof.
  induction l as [|x l IH]; intros [|n] H; simpl in *; try lia; auto.
  apply IH. lia.
Qed.

Lemma nth_update_nth_other f d l : forall n m,
  n <> m -> nth m (update_nth n f l) d = nth m l d.
Proof.
  induction l as [|x l IH]; intros [|n] [|m] H; simpl in *; auto.
  congruence.
Qed.

Lemma update_nth_app f l x :
  update_nth (List.length l) f (l ++ [x]) = l ++ [f x].
Proof. induction l as [|y l IH]; simpl; congruence. Qed.

Lemma nth_length_app (l : list Query) x d : nth (List.length l) (l ++ [x]) d = x.
Proof. induction l as [|y l IH]; simpl; auto. Qed.

(** Releasing the current query leaves nothing connected. *)
Lemma release_current_connections p :
  wired_only_current p -> connections (release_current p) = [].
Proof.
  intros W. unfold release_current, wired_only_current in *.
  destruct (current_query p) as [old|] eqn:Q.
  - cbn. induction (connections p) as [|[q sig] l IH]; [reflexivity|].
    assert (E : q = old).
    { specialize (W q sig (or_introl eq_refl)). congruence. }
    subst q. cbn [filter]. unfold same_connection. cbn [fst snd].
    rewrite Nat.eqb_refl.
    destruct sig; cbn [QuerySignal_beq andb negb filter fst snd];
      rewrite ?Nat.eqb_refl; cbn [QuerySignal_beq andb negb filter];
      apply IH; intros q sig H; apply (W q sig); right; exact H.
  - destruct (connections p) as [|[q sig] l]; [reflexivity|].
    specialize (W q sig (or_introl eq_refl)). discriminate.
Qed.

Lemma release_current_frame p :
  configuration (release_current p) = configuration p /\
  active (release_current p) = active p /\
  List.length (heap (release_current p)) = List.length (heap p) /\
  window (release_current p) = window p /\
  history_ (release_current p) = history_ p /\
  ambient (release_current p) = ambient p /\
  calls (release_current p) =
    calls p ++
    match current_query p with
    | Some old => [call_cancel old; call_disconnect old sig_finished;
                   call_disconnect old sig_rowsInserted]
    | None => []
    end.
Proof.
  unfold release_current. destruct (current_query p) as [old|]; cbn.
  - rewrite length_update_nth, <- !app_assoc. repeat split; reflexivity.
  - rewrite app_nil_r. repeat split; reflexivity.
Qed.

(** The state after the slot connected to [textChanged] has run. *)
Lemma on_textChanged_spec txt p :
  wired_only_current p ->
  let new := List.length (heap p) in
  let p1 := on_textChanged txt p in
  configuration p1 = configuration p /\
  active p1 = active p /\
  current_query p1 = Some new /\
  List.length (heap p1) = S new /\
  connections p1 = [(new, sig_finished); (new, sig_rowsInserted)] /\
  lv_model (results_list (window p1)) = lv_model (results_list (window p)) /\
  history_ p1 = history_ p /\
  w_visible (window p1) = w_visible (window p) /\
  show_fallbacks_on_empty_query p1 = show_fallbacks_on_empty_query p /\
  ambient p1 = ambient p /\
  q_fallbacks (query_at p1 new) = q_fallbacks (engine (ambient p) txt) /\
  q_matches (query_at p1 new) = 0 /\
  calls p1 =
    calls p ++
    match current_query p with
    | Some old => [call_cancel old; call_disconnect old sig_finished;
                   call_disconnect old sig_rowsInserted]
    | None => []
    end ++
    [call_query new txt; call_connect new sig_finished;
     call_connect new sig_rowsInserted; call_run new].
Proof.
  intros W new p1.
  pose proof (release_current_connections p W) as RC.
  pose proof (release_current_frame p) as (R1 & R2 & R3 & R4 & R5 & R6 & R7).
  subst p1. unfold on_textChanged, query.
  set (r := release_current p) in *.
  cbn -[release_current]. unfold query_at. cbn -[release_current].
  rewrite !update_nth_app. subst new. rewrite <- R3.
  rewrite !nth_length_app, length_app, RC, R1, R2, R4, R5, R6, R7.
  cbn. rewrite <- !app_assoc. cbn.
  repeat split; try reflexivity; try lia.
  subst r. unfold release_current. destruct (current_query p); reflexivity.
Qed.

Lemma on_textChanged_wf txt p : wf p -> wf (on_textChanged txt p).
Proof.
  intros (I & W & B & M).
  pose proof (on_textChanged_spec txt p W)
    as (C & A & Q & L & N & X & _).
  unfold wf, inv, wired_only_current. rewrite C, A, Q, L, N, X.
  destruct I as [I1 I2]. repeat split; auto.
  - intros q sig [H|[H|[]]]; injection H as <- _; reflexivity.
  - intros q H. injection H as <-. lia.
  - intros m H. specialize (M m H). lia.
Qed.

Lemma active_is p s : inv p -> is_active s p = mem s (configuration p).
Proof. intros [_ A]. unfold is_active. rewrite A. reflexivity. Qed.

(** Every case of a legal configuration, as an equation on [configuration]. *)
Ltac each_config_of I :=
  let L := fresh "L" in
  pose proof (proj1 I) as L; each_config L.

Lemma processEvent_outcome e p :
  wf p ->
  match processEvent e p with
  | Ok p' => wf p' /\ stable p p'
  | NullDeref => current_query p = None
  | Fatal _ => False
  end.
Proof.
  intros W. pose proof (processEvent_inv e p (proj1 W)) as H.
  pose proof (processEvent_wf e p) as H'.
  destruct (processEvent e p) as [p'| |]; auto.
  split; [apply H'; auto|apply H].
Qed.

(** A text change always takes the Results region out of Visible. *)
Lemma textChanged_leaves_visible p q p' :
  inv p -> current_query p = Some q ->
  processEvent (SignalEvent textChanged) p = Ok p' ->
  is_active s_results_visible p' = false /\
  is_active s_results_model_matches p' = false /\
  is_active s_results_model_fallbacks p' = false.
Proof.
  intros I Q H.
  destruct (processEvent_next (SignalEvent textChanged) p q I Q)
    as (p1 & E & I' & _ & C).
  rewrite H in E. injection E as <-.
  rewrite !(active_is p' _ I'), C.
  generalize (guards (SignalEvent textChanged) p q). intros g.
  each_config_of I; rewrite L; vm_compute; auto.
Qed.

Lemma emit_textChanged_spec txt p :
  wf p ->
  exists p',
    emit_textChanged txt p = Ok p' /\ wf p' /\
    stable (on_textChanged txt p) p' /\
    is_active s_results_visible p' = false /\
    is_active s_results_model_matches p' = false /\
    is_active s_results_model_fallbacks p' = false.
Proof.
  intros W. pose proof (on_textChanged_wf txt p W) as W1.
  pose proof (on_textChanged_spec txt p (proj1 (proj2 W)))
    as (_ & _ & Q & _).
  unfold emit_textChanged.
  pose proof (processEvent_outcome (SignalEvent textChanged) _ W1) as H.
  destruct (processEvent _ (on_textChanged txt p)) as [p'| |] eqn:E.
  - exists p'. destruct H as [H1 H2].
    split; [reflexivity|split; [exact H1|split; [exact H2|]]].
    eapply textChanged_leaves_visible; eauto. apply W1.
  - congruence.
  - contradiction.
Qed.

Lemma inactive_severed p :
  is_active s_results_model_matches p = false -> severed p.
Proof. intros H A. congruence. Qed.

Lemma on_textChanged_input txt p :
  text (input_line (window (on_textChanged txt p)))
  = text (input_line (window p)) /\
  queries_ (on_textChanged txt p) = queries_ p ++ [List.length (heap p)].
Proof.
  pose proof (release_current_frame p) as (_ & _ & R3 & R4 & _).
  assert (RQ : queries_ (release_current p) = queries_ p).
  { unfold release_current. destruct (current_query p); reflexivity. }
  unfold on_textChanged, query. set (r := release_current p) in *.
  cbn -[release_current]. rewrite R4, RQ, R3. split; reflexivity.
Qed.

(** An emission of [textChanged] from a well-formed state, in full. *)
Lemma emit_textChanged_run txt p :
  wf p ->
  exists p' extra,
    emit_textChanged txt p = Ok p' /\ wf p' /\
    is_active s_results_model_matches p' = false /\
    current_query p' = Some (List.length (heap p)) /\
    history_ p' = history_ p /\
    w_visible (window p') = w_visible (window p) /\
    ambient p' = ambient p /\
    text (input_line (window p')) = text (input_line (window p)) /\
    queries_ p' = queries_ p ++ [List.length (heap p)] /\
    calls p' =
      calls p ++
      match current_query p with
      | Some old => [call_cancel old; call_disconnect old sig_finished;
                     call_disconnect old sig_rowsInserted]
      | None => []
      end ++
      [call_query (List.length (heap p)) txt;
       call_connect (List.length (heap p)) sig_finished;
       call_connect (List.length (heap p)) sig_rowsInserted;
       call_run (List.length (heap p))] ++ extra /\
    forall c, In c extra -> exists q, c = call_disconnect q sig_rowsInserted.
Proof.
  intros W.
  destruct (emit_textChanged_spec txt p W) as (p' & E & W' & S & _ & M & _).
  pose proof (on_textChanged_spec txt p (proj1 (proj2 W))) as X.
  cbv zeta in X.
  destruct X as (_ & _ & X3 & _ & _ & _ & X7 & X8 & _ & X10 & _ & _ & X13).
  destruct (on_textChanged_input txt p) as [T1 T2].
  destruct (st_calls S) as (extra & Y1 & Y2).
  exists p', extra. split; [exact E|]. split; [exact W'|].
  split; [exact M|].
  rewrite (st_current_query S), (st_history S), (st_w_visible S),
    (st_ambient S), (st_text S), (st_queries S), Y1, X13, <- !app_assoc.
  repeat split; auto.
Qed.

Lemma follows_transfer p p0 p' :
  active p0 = active p -> connections p0 = connections p ->
  current_query p0 = current_query p ->
  follows p0 p' -> follows p p'.
Proof.
  intros A N Q (W & V & C). split; [exact W|]. split.
  - intros X. apply V. revert X. apply severed_transfer; assumption.
  - intros q X. apply (C q). congruence.
Qed.

Lemma follows_emit txt p :
  wf p -> exists p', emit_textChanged txt p = Ok p' /\ follows p p'.
Proof.
  intros W.
  destruct (emit_textChanged_run txt p W) as (p' & extra & E & W' & M & Q & _).
  exists p'. split; [exact E|]. split; [exact W'|]. split.
  - intros _. apply inactive_severed. exact M.
  - intros q _. rewrite Q. discriminate.
Qed.

Lemma follows_trim s p0 p :
  follows p0 p -> follows p0 (trim_queries (history_add s p)).
Proof.
  intros (W & V & C). split; [|split].
  - eapply wf_transfer; [..|exact W]; reflexivity.
  - intros X. apply V in X. revert X. apply severed_transfer; reflexivity.
  - exact C.
Qed.

Lemma follows_refl p : wf p -> follows p p.
Proof.
  intros W. split; [exact W|]. split; [auto|]. intros q Q. congruence.
Qed.

(** Showing or hiding the window never fails. *)
Lemma window_setVisible_outcome visible p :
  wf p -> exists p', window_setVisible visible p = Ok p' /\ follows p p'.
Proof.
  intros W. unfold window_setVisible.
  destruct (Bool.eqb _ visible).
  { exists p. split; [reflexivity|]. apply follows_refl. exact W. }
  destruct visible.
  - unfold eventFilter_Show.
    set (p0 := call _ (set_w_visible true p)).
    assert (W0 : wf p0).
    { eapply wf_transfer; [..|exact W]; reflexivity. }
    destruct (follows_emit (text (input_line (window (set_w_visible true p))))
                p0 W0) as (p' & E & F).
    exists p'. split; [exact E|].
    revert F. apply follows_transfer; reflexivity.
  - unfold eventFilter_Hide.
    set (p0 := set_w_visible false p).
    assert (W0 : wf p0).
    { eapply wf_transfer; [..|exact W]; reflexivity. }
    assert (F0 : follows p p0).
    { apply (follows_transfer p p0 p0); try reflexivity.
      apply follows_refl. exact W0. }
    destruct (clearOnHide_ (ambient p0)); cbn [bind].
    + unfold input_line_clear. destruct (isEmpty _); cbn [bind].
      * eexists. split; [reflexivity|]. apply follows_trim. exact F0.
      * set (p1 := set_input_line (setText EmptyString) p0).
        assert (W1 : wf p1).
        { eapply wf_transfer; [..|exact W]; reflexivity. }
        destruct (follows_emit EmptyString p1 W1) as (p' & E & F).
        rewrite E. cbn [bind]. eexists. split; [reflexivity|].
        apply follows_trim. revert F. apply follows_transfer; reflexivity.
    + eexists. split; [reflexivity|]. apply follows_trim. exact F0.
Qed.

(** The part of [activate] before the modifier is looked at. *)
Lemma activate_outcome i a p :
  wf p ->
  match activate i a p with
  | Ok p' => wf p' /\
             (severed p -> severed p') /\
             (forall q, current_query p = Some q -> current_query p' <> None)
  | NullDeref => current_query p = None
  | Fatal _ => False
  end.
Proof.
  intros W. unfold activate.
  set (first := if mem s_results_model_matches (active p) then _ else _).
  assert (F : match first with
              | Ok p1 => exists c, p1 = call c p
              | NullDeref => current_query p = None
              | Fatal _ => False
              end).
  { subst first. unfold bind, deref.
    destruct (mem s_results_model_matches (active p));
      [|destruct (mem s_results_model_fallbacks (active p))];
      destruct (current_query p); eauto. }
  destruct first as [p1| |]; cbn [bind]; auto.
  destruct F as (c & ->).
  destruct (ControlModifier _); cbn [negb].
  - set (p2 := call _ (history_add _ (call c p))).
    assert (W2 : wf p2).
    { eapply wf_transfer; [..|exact W]; reflexivity. }
    destruct (follows_emit (text (input_line (window (call c p)))) p2 W2)
      as (p' & E & G).
    rewrite E. revert G. apply follows_transfer; reflexivity.
  - unfold window_hide.
    set (p2 := call call_window_hide (history_add _ (call c p))).
    assert (W2 : wf p2).
    { eapply wf_transfer; [..|exact W]; reflexivity. }
    destruct (window_setVisible_outcome false p2 W2) as (p' & E & G).
    rewrite E. revert G. apply follows_transfer; reflexivity.
Qed.

Lemma results_setCurrentRow_cases row p :
  results_setCurrentRow row p = p \/
  results_setCurrentRow row p
  = set_results_list (setCurrentIndex (Some row)) p \/
  exists h,
    results_setCurrentRow row p
    = set_input_line (setInputHint h)
        (set_results_list (setCurrentIndex (Some row)) p).
Proof.
  unfold results_setCurrentRow.
  destruct (lv_model _) as [m|]; [|auto].
  destruct (_ && _); [|auto]. destruct m; eauto.
Qed.

(** One step from a well-formed state: never the fatal error, a null
    dereference only when no query exists yet, and well-formed again. *)
Lemma step_outcome ev p :
  wf p ->
  match step ev p with
  | Ok p' => wf p' /\
             (severed p -> severed p') /\
             (forall q, current_query p = Some q -> current_query p' <> None)
  | NullDeref => current_query p = None
  | Fatal _ => False
  end.
Proof.
  intros W.
  assert (G : forall e p0,
             wf p0 -> (severed p -> severed p0) ->
             current_query p0 = current_query p ->
             match processEvent e p0 with
             | Ok p' => wf p' /\ (severed p -> severed p') /\
                        (forall q, current_query p = Some q ->
                                   current_query p' <> None)
             | NullDeref => current_query p = None
             | Fatal _ => False
             end).
  { intros e p0 W0 V0 Q0. pose proof (processEvent_outcome e p0 W0) as H.
    pose proof (processEvent_severed e p0) as V.
    destruct (processEvent e p0) as [p'| |]; try congruence.
    destruct H as [H1 H2]. split; [exact H1|]. split.
    - intros X. eapply V; eauto.
    - intros q Q. rewrite (st_current_query H2). congruence. }
  destruct ev as [txt| |q|q|ty k|ty|row|row|a|visible|row]; cbn [step].
  - assert (W0 : wf (set_input_line (setText txt) p)).
    { eapply wf_transfer; [..|exact W]; reflexivity. }
    destruct (emit_textChanged_spec txt _ W0) as (p' & E & W' & S & _ & M & _).
    rewrite E. split; [exact W'|]. split.
    + intros _. apply inactive_severed. exact M.
    + intros q _. rewrite (st_current_query S).
      pose proof (on_textChanged_spec txt _ (proj1 (proj2 W0)))
        as (_ & _ & Q & _).
      rewrite Q. discriminate.
  - destruct (display_delay_timer p).
    + apply G; [eapply wf_transfer; [..|exact W]; reflexivity| |reflexivity].
      apply severed_transfer; reflexivity.
    + split; [exact W|]. split; [auto|]. intros q Q. congruence.
  - assert (W0 : wf (update_query q finish p)).
    { eapply wf_transfer; [..|exact W]; try reflexivity.
      apply length_update_nth. }
    assert (V0 : severed p -> severed (update_query q finish p)).
    { apply severed_transfer; reflexivity. }
    destruct (connected _ q sig_finished).
    + apply G; auto.
    + split; [exact W0|]. split; [exact V0|]. intros q' Q. cbn. congruence.
  - assert (W0 : wf (update_query q append_match p)).
    { eapply wf_transfer; [..|exact W]; try reflexivity.
      apply length_update_nth. }
    assert (V0 : severed p -> severed (update_query q append_match p)).
    { apply severed_transfer; reflexivity. }
    destruct (connected _ q sig_rowsInserted).
    + apply G; auto.
    + split; [exact W0|]. split; [exact V0|]. intros q' Q. cbn. congruence.
  - apply G; auto.
  - apply G; auto.
  - apply activate_outcome. exact W.
  - apply activate_outcome. exact W.
  - split; [|split].
    + eapply wf_transfer; [..|exact W]; reflexivity.
    + apply severed_transfer; reflexivity.
    + intros q Q. cbn. congruence.
  - unfold setVisible.
    destruct (window_setVisible_outcome visible p W) as (p' & E & F).
    rewrite E. exact F.
  - destruct (results_setCurrentRow_cases row p) as [->|[->|(h & ->)]];
      (split; [|split];
       [eapply wf_transfer; [..|exact W]; reflexivity
       |apply severed_transfer; reflexivity
       |intros q Q; cbn; congruence]).
Qed.

Lemma ctor_spec show_fallbacks fallback_mod actions_mod history a :
  exists p,
    Plugin_ctor show_fallbacks fallback_mod actions_mod history a = Ok p /\
    wf p /\ severed p /\ current_query p = None.
Proof.
  eexists. split; [vm_compute; reflexivity|].
  split; [|split; [|reflexivity]].
  - split; [split; reflexivity|]. split; [|split].
    + intros q sig [].
    + intros q H. discriminate.
    + intros m H. discriminate.
  - intros A. discriminate.
Qed.

Lemma reachable_wf p : reachable p -> wf p /\ severed p.
Proof.
  induction 1 as [sf mf ma hist a p H|p ev p' R [W V] H].
  - destruct (ctor_spec sf mf ma hist a) as (p0 & E & W & V & _).
    rewrite H in E. injection E as <-. auto.
  - pose proof (step_outcome ev p W) as O. rewrite H in O.
    destruct O as (W' & V' & _). auto.
Qed.

Lemma steps_reachable evs : forall p p',
  reachable p -> steps evs p = Ok p' -> reachable p'.
Proof.
  induction evs as [|ev evs IH]; cbn [steps]; intros p p' R H.
  - injection H as <-. exact R.
  - destruct (step ev p) as [p1| |] eqn:E; cbn [bind] in H; try discriminate.
    eapply IH; [|exact H]. eapply reach_step; eauto.
Qed.

Lemma run_reachable sf mf ma hist a evs p :
  run_from_ctor sf mf ma hist a evs = Ok p -> reachable p.
Proof.
  unfold run_from_ctor. intros H.
  destruct (Plugin_ctor sf mf ma hist a) as [p0| |] eqn:E; cbn [bind] in H;
    try discriminate.
  eapply steps_reachable; [|exact H]. eapply reach_ctor; eauto.
Qed.

Lemma demo_reachable evs :
  (match run_from_ctor true Meta Alt [] demo_ambient evs with
   | Ok _ => true
   | _ => false
   end) = true ->
  reachable (demo_state evs).
Proof.
  unfold demo_state. intros H.
  destruct (run_from_ctor true Meta Alt [] demo_ambient evs) eqn:E;
    try discriminate.
  eapply run_reachable; eauto.
Qed.

(** Sequences of steps from a well-formed state. *)
Lemma steps_outcome evs : forall p,
  wf p ->
  match steps evs p with
  | Ok p' => wf p'
  | NullDeref => current_query p = None
  | Fatal _ => False
  end.
Proof.
  induction evs as [|ev evs IH]; cbn [steps]; intros p W; [exact W|].
  pose proof (step_outcome ev p W) as O.
  destruct (step ev p) as [p1| |]; cbn [bind]; auto.
  destruct O as (W1 & _ & Q). specialize (IH p1 W1).
  destruct (steps evs p1); auto.
  destruct (current_query p) as [q|] eqn:E; [|reflexivity].
  exfalso. apply (Q q eq_refl). exact IH.
Qed.

Lemma inv_regions p : inv p -> regions_ok p.
Proof.
  intros I. unfold regions_ok, count_active. unfold is_active.
  destruct I as [L A]. rewrite A.
  each_config L; rewrite L; vm_compute; auto.
Qed.

Lemma steps_total evs p :
  wf p -> current_query p <> None ->
  exists p', steps evs p = Ok p' /\ wf p'.
Proof.
  intros W Q. pose proof (steps_outcome evs p W) as O.
  destruct (steps evs p) as [p'| |]; [eauto|contradiction|contradiction].
Qed.

Lemma step_textChanged_spec txt p :
  wf p ->
  exists p1,
    step (input_textChanged txt) p = Ok p1 /\ wf p1 /\
    stable (on_textChanged txt (set_input_line (setText txt) p)) p1 /\
    current_query p1 = Some (List.length (heap p)) /\
    is_active s_results_visible p1 = false /\
    is_active s_results_model_matches p1 = false /\
    is_active s_results_model_fallbacks p1 = false.
Proof.
  intros W. cbn [step].
  assert (W0 : wf (set_input_line (setText txt) p)).
  { eapply wf_transfer; [..|exact W]; reflexivity. }
  destruct (emit_textChanged_spec txt _ W0) as (p1 & E & W1 & S & V).
  exists p1. split; [exact E|]. split; [exact W1|]. split; [exact S|].
  split; [|exact V].
  rewrite (st_current_query S).
  pose proof (on_textChanged_spec txt _ (proj1 (proj2 W0)))
    as (_ & _ & Q & _).
  exact Q.
Qed.

Lemma step_textChanged_total txt p :
  wf p ->
  exists p1,
    step (input_textChanged txt) p = Ok p1 /\ wf p1 /\
    current_query p1 <> None.
Proof.
  intros W.
  destruct (step_textChanged_spec txt p W) as (p1 & E & W1 & _ & Q & _).
  exists p1. split; [exact E|]. split; [exact W1|]. congruence.
Qed.

(** ** The claims *)

(** C1: for every sequence of events processed from construction on, exactly
    one of Hidden, Postponed and Visible is active in the Results region,
    and inside Visible exactly one of Matches and Fallbacks and exactly one
    of Actions Hidden and Shown; once the input text has changed for the
    first time every further sequence of events is processed to the end. *)
Theorem C1_regions_exclusive :
  forall show_fallbacks fallback_mod actions_mod history a evs,
    match run_from_ctor show_fallbacks fallback_mod actions_mod history a evs
    with
    | Ok p => regions_ok p
    | _ => True
    end /\
    forall txt,
    exists p,
      run_from_ctor show_fallbacks fallback_mod actions_mod history a
        (input_textChanged txt :: evs) = Ok p /\
      regions_ok p.
Proof.
  intros sf mf ma hist a evs. unfold run_from_ctor.
  destruct (ctor_spec sf mf ma hist a) as (p0 & E & W & _ & _).
  rewrite E. cbn [bind]. split.
  - pose proof (steps_outcome evs p0 W) as O.
    destruct (steps evs p0); auto. apply inv_regions. apply O.
  - intros txt. cbn [steps].
    destruct (step_textChanged_total txt p0 W) as (p1 & E1 & W1 & Q1).
    rewrite E1. cbn [bind].
    destruct (steps_total evs p1 W1 Q1) as (p & E2 & W2).
    exists p. split; [exact E2|]. apply inv_regions. apply W2.
Qed.

(** C2: in Postponed, a delivered "results ready" signal takes the machine
    to Visible with Model=Matches, whatever the fallback-display setting and
    the size of the fallback set. *)
Theorem C2_postponed_resultsReady :
  forall p q,
    reachable p -> current_query p = Some q ->
    is_active s_results_postpone p = true ->
    exists p',
      processEvent (SignalEvent resultsReady) p = Ok p' /\
      is_active s_results_visible p' = true /\
      is_active s_results_model_matches p' = true /\
      is_active s_results_postpone p' = false.
Proof.
  intros p q R Q H. pose proof (proj1 (proj1 (reachable_wf p R))) as I.
  destruct (processEvent_next (SignalEvent resultsReady) p q I Q)
    as (p' & E & I' & _ & C).
  exists p'. split; [exact E|].
  rewrite !(active_is p' _ I'), C. unfold is_active in H.
  rewrite (proj2 I) in H.
  each_config_of I; rewrite L in *; try discriminate H;
    vm_compute; auto.
Qed.

Lemma C2_witness :
  exists p',
    processEvent (SignalEvent resultsReady)
      (demo_state [input_textChanged "a"; query_rowsInserted 0;
                   input_textChanged "ab"]) = Ok p' /\
    is_active s_results_visible p' = true /\
    is_active s_results_model_matches p' = true /\
    is_active s_results_postpone p' = false.
Proof.
  apply (C2_postponed_resultsReady
           (demo_state [input_textChanged "a"; query_rowsInserted 0;
                        input_textChanged "ab"]) 1).
  - apply demo_reachable. vm_compute. reflexivity.
  - vm_compute. reflexivity.
  - vm_compute. reflexivity.
Defined.

Lemma Key_beq_refl k : Key_beq k k = true.
Proof. destruct k; reflexivity. Qed.

(** From Postponed, after any event: Hidden exactly on the timer's timeout
    or on a finished query with nothing to show as fallback. *)
Lemma postponed_to_hidden p q e :
  inv p -> current_query p = Some q ->
  is_active s_results_postpone p = true ->
  exists p',
    processEvent e p = Ok p' /\
    (is_active s_results_hidden p' = true <->
     e = SignalEvent timeout \/
     (e = SignalEvent queryFinsished /\
      (show_fallbacks_on_empty_query p = false \/
       rowCount p (fallbacks q) = 0))) /\
    (is_active s_results_hidden p' = true ->
     is_active s_results_visible p' = false /\
     is_active s_results_model_fallbacks p' = false).
Proof.
  intros I Q H.
  destruct (processEvent_next e p q I Q) as (p' & E & I' & _ & C).
  exists p'. split; [exact E|].
  rewrite !(active_is p' _ I'), C. unfold is_active in H.
  rewrite (proj2 I) in H. unfold guards.
  destruct (rowCount p (fallbacks q)) as [|n] eqn:F;
  destruct (show_fallbacks_on_empty_query p) eqn:SH;
  generalize (key_is (mods_keys (mod_fallback p)) e);
  generalize (key_is (mods_keys (mod_actions p)) e);
  generalize (negb (rowCount p (matches q) =? 0));
  generalize (underMouse (ambient p));
  generalize (q_isFinished (query_at p q)); intros fin um m ka kf.
  all: each_config_of I; rewrite L in *; try discriminate H.
  all: destruct e as [[]|[] k|[]]; destruct um, kf, ka, m, fin.
  all: vm_compute.
  all: split; [split; [try discriminate|
                       intros [X|[X Y]]; try discriminate X]|
               try discriminate]; auto.
  all: try (destruct Y; discriminate).
Qed.

(** C3: from Postponed the Results region goes to Hidden exactly when the
    debounce timer times out, or the query-finished signal arrives while
    fallback display is disabled or the fallback set is empty; with fallback
    display disabled, a finished query with no match and some fallbacks leads
    to Hidden and not to Visible/Fallbacks. *)
Theorem C3_postponed_to_hidden :
  forall p q,
    reachable p -> current_query p = Some q ->
    is_active s_results_postpone p = true ->
    (forall e,
     exists p',
       processEvent e p = Ok p' /\
       (is_active s_results_hidden p' = true <->
        e = SignalEvent timeout \/
        (e = SignalEvent queryFinsished /\
         (show_fallbacks_on_empty_query p = false \/
          rowCount p (fallbacks q) = 0)))) /\
    (show_fallbacks_on_empty_query p = false ->
     rowCount p (matches q) = 0 -> 0 < rowCount p (fallbacks q) ->
     exists p',
       processEvent (SignalEvent queryFinsished) p = Ok p' /\
       is_active s_results_hidden p' = true /\
       is_active s_results_visible p' = false /\
       is_active s_results_model_fallbacks p' = false).
Proof.
  intros p q R Q H. pose proof (proj1 (proj1 (reachable_wf p R))) as I.
  split.
  - intros e. destruct (postponed_to_hidden p q e I Q H) as (p' & E & X & _).
    eauto.
  - intros SH _ _.
    destruct (postponed_to_hidden p q (SignalEvent queryFinsished) I Q H)
      as (p' & E & X & Y).
    exists p'. split; [exact E|].
    assert (Z : is_active s_results_hidden p' = true).
    { apply X. right. auto. }
    split; [exact Z|]. apply Y. exact Z.
Qed.

Lemma C3_witness :
  exists p',
    processEvent (SignalEvent timeout)
      (demo_state [input_textChanged "a"; query_rowsInserted 0;
                   input_textChanged "ab"]) = Ok p' /\
    (is_active s_results_hidden p' = true <->
     SignalEvent timeout = SignalEvent timeout \/
     (SignalEvent timeout = SignalEvent queryFinsished /\
      (show_fallbacks_on_empty_query
         (demo_state [input_textChanged "a"; query_rowsInserted 0;
                      input_textChanged "ab"]) = false \/
       rowCount (demo_state [input_textChanged "a"; query_rowsInserted 0;
                             input_textChanged "ab"]) (fallbacks 1) = 0))).
Proof.
  apply (proj1 (C3_postponed_to_hidden
                  (demo_state [input_textChanged "a"; query_rowsInserted 0;
                               input_textChanged "ab"]) 1
                  ltac:(apply demo_reachable; vm_compute; reflexivity)
                  ltac:(vm_compute; reflexivity)
                  ltac:(vm_compute; reflexivity))
               (SignalEvent timeout)).
Defined.

(** C4: with the Results region Hidden and a non-empty fallback set,
    pressing the fallback modifier leads to Visible/Fallbacks; in
    Visible/Fallbacks, releasing it leads to Hidden when the match set is
    empty and to Visible/Matches when it is not; this holds whatever the
    Button and Actions regions are in and whichever keys are bound. *)
Theorem C4_fallback_modifier :
  forall p q,
    reachable p -> current_query p = Some q ->
    (is_active s_results_hidden p = true ->
     0 < rowCount p (fallbacks q) ->
     exists p',
       processEvent (KeyEvent KeyPress (mods_keys (mod_fallback p))) p = Ok p' /\
       is_active s_results_visible p' = true /\
       is_active s_results_model_fallbacks p' = true) /\
    (is_active s_results_model_fallbacks p = true ->
     exists p',
       processEvent (KeyEvent KeyRelease (mods_keys (mod_fallback p))) p
         = Ok p' /\
       if rowCount p (matches q) =? 0
       then is_active s_results_hidden p' = true /\
            is_active s_results_visible p' = false
       else is_active s_results_visible p' = true /\
            is_active s_results_model_matches p' = true /\
            is_active s_results_model_fallbacks p' = false).
Proof.
  intros p q R Q. pose proof (proj1 (proj1 (reachable_wf p R))) as I.
  split.
  - intros H F.
    destruct (processEvent_next
                (KeyEvent KeyPress (mods_keys (mod_fallback p))) p q I Q)
      as (p' & E & I' & _ & C).
    exists p'. split; [exact E|].
    rewrite !(active_is p' _ I'), C. unfold is_active in H.
    rewrite (proj2 I) in H. unfold guards, key_is.
    rewrite Key_beq_refl.
    apply Nat.ltb_lt in F. rewrite F.
    generalize (Key_beq (mods_keys (mod_actions p))
                        (mods_keys (mod_fallback p)));
    generalize (mods_keys (mod_fallback p));
    generalize (show_fallbacks_on_empty_query p);
    generalize (negb (rowCount p (matches q) =? 0));
    generalize (underMouse (ambient p));
    generalize (q_isFinished (query_at p q)); intros fin um m sh k ka.
    each_config_of I; rewrite L in *; try discriminate H;
      destruct ka; vm_compute; auto.
  - intros H.
    destruct (processEvent_next
                (KeyEvent KeyRelease (mods_keys (mod_fallback p))) p q I Q)
      as (p' & E & I' & _ & C).
    exists p'. split; [exact E|].
    rewrite !(active_is p' _ I'), C. unfold is_active in H.
    rewrite (proj2 I) in H. unfold guards, key_is.
    rewrite Key_beq_refl.
    generalize (Key_beq (mods_keys (mod_actions p))
                        (mods_keys (mod_fallback p)));
    generalize (mods_keys (mod_fallback p));
    generalize (show_fallbacks_on_empty_query p);
    generalize (0 <? rowCount p (fallbacks q));
    generalize (underMouse (ambient p));
    generalize (q_isFinished (query_at p q)); intros fin um fb sh k ka.
    destruct (rowCount p (matches q) =? 0); cbn [negb];
      each_config_of I; rewrite L in *; try discriminate H;
      destruct ka; vm_compute; auto.
Qed.

Lemma C4_witness :
  exists p',
    processEvent (KeyEvent KeyPress Key_Meta)
      (demo_state [input_textChanged "zz"]) = Ok p' /\
    is_active s_results_visible p' = true /\
    is_active s_results_model_fallbacks p' = true.
Proof.
  apply (C4_fallback_modifier (demo_state [input_textChanged "zz"]) 0).
  - apply demo_reachable. vm_compute. reflexivity.
  - vm_compute. reflexivity.
  - vm_compute. reflexivity.
  - vm_compute. lia.
Defined.

Lemma steps_no_fatal evs p msg : wf p -> steps evs p <> Fatal msg.
Proof.
  intros W H. pose proof (steps_outcome evs p W) as O.
  rewrite H in O. exact O.
Qed.

(** C7: entering Actions=Shown with a result row selected while neither
    Matches nor Fallbacks is active is the fatal logic error; no sequence of
    events from construction on ever runs into it, and no event delivered in
    a reachable state does. *)
Theorem C7_fatal_unreachable :
  (forall p row,
     lv_currentIndex (results_list (window p)) = Some row ->
     is_active s_results_model_matches p = false ->
     is_active s_results_model_fallbacks p = false ->
     entered s_results_actions_visible p = Fatal no_model_active) /\
  (forall show_fallbacks fallback_mod actions_mod history a evs msg,
     run_from_ctor show_fallbacks fallback_mod actions_mod history a evs
       <> Fatal msg) /\
  (forall p ev msg, reachable p -> step ev p <> Fatal msg).
Proof.
  split; [|split].
  - intros p row H M F. unfold is_active in *. cbn [entered].
    rewrite H, M, F. reflexivity.
  - intros sf mf ma hist a evs msg. unfold run_from_ctor.
    destruct (ctor_spec sf mf ma hist a) as (p0 & E & W & _).
    rewrite E. cbn [bind]. apply steps_no_fatal. exact W.
  - intros p ev msg R H.
    pose proof (step_outcome ev p (proj1 (reachable_wf p R))) as O.
    rewrite H in O. exact O.
Qed.


Lemma C7_witness :
  entered s_results_actions_visible stray_selection = Fatal no_model_active.
Proof.
  apply (proj1 C7_fatal_unreachable stray_selection 0); reflexivity.
Defined.

(** C8: entering Actions=Shown while no result row is selected is not an
    error: the entry effect changes nothing (no action list is bound, the
    actions list is not shown, no event filter is installed). *)
Theorem C8_no_selection_no_effect :
  forall p,
    lv_currentIndex (results_list (window p)) = None ->
    entered s_results_actions_visible p = Ok p.
Proof.
  intros p H. cbn [entered]. rewrite H. reflexivity.
Qed.

Lemma C8_witness :
  entered s_results_actions_visible
    (demo_state [input_textChanged "zz"]) =
  Ok (demo_state [input_textChanged "zz"]).
Proof.
  apply (C8_no_selection_no_effect
           (demo_state [input_textChanged "zz"])).
  vm_compute. reflexivity.
Defined.

Lemma stale_signal_dropped p q sig :
  wired_only_current p -> current_query p <> Some q ->
  connected p q sig = false.
Proof.
  intros W H. destruct (connected p q sig) eqn:E; [|reflexivity].
  apply connected_In in E. apply W in E. contradiction.
Qed.

(** C5: on every input-text change the previously current query, if any, is
    cancelled and both its signals are disconnected before the new query is
    constructed, connected and started; in between nothing is connected, at
    every moment only the current query is, and a signal of any other query
    changes nothing but that query's own state. *)
Theorem C5_one_query_wired :
  forall p,
    reachable p ->
    wired_only_current p /\
    (forall txt,
       connections (release_current p) = [] /\
       calls (on_textChanged txt p) =
         calls p ++
         match current_query p with
         | Some old => [call_cancel old; call_disconnect old sig_finished;
                        call_disconnect old sig_rowsInserted]
         | None => []
         end ++
         [call_query (List.length (heap p)) txt;
          call_connect (List.length (heap p)) sig_finished;
          call_connect (List.length (heap p)) sig_rowsInserted;
          call_run (List.length (heap p))] /\
       current_query p <> Some (List.length (heap p)) /\
       exists p',
         step (input_textChanged txt) p = Ok p' /\
         wired_only_current p' /\
         current_query p' = Some (List.length (heap p))) /\
    (forall q,
       current_query p <> Some q ->
       step (query_finished q) p = Ok (update_query q finish p) /\
       step (query_rowsInserted q) p = Ok (update_query q append_match p)).
Proof.
  intros p R. destruct (reachable_wf p R) as [W _].
  pose proof W as (I & WC & B & M).
  split; [exact WC|]. split.
  - intros txt. split; [apply release_current_connections; exact WC|].
    pose proof (on_textChanged_spec txt p WC) as X. cbv zeta in X.
    destruct X as (_ & _ & _ & _ & _ & _ & _ & _ & _ & _ & _ & _ & X).
    split; [exact X|]. split.
    + intros H. apply B in H. lia.
    + destruct (step_textChanged_spec txt p W) as (p' & E & W' & _ & Q & _).
      exists p'. split; [exact E|]. split; [apply W'|exact Q].
  - intros q H. cbn [step]. split.
    + change (connected (update_query q finish p) q sig_finished)
        with (connected p q sig_finished).
      rewrite (stale_signal_dropped p q sig_finished WC H). reflexivity.
    + change (connected (update_query q append_match p) q sig_rowsInserted)
        with (connected p q sig_rowsInserted).
      rewrite (stale_signal_dropped p q sig_rowsInserted WC H). reflexivity.
Qed.

Lemma C5_witness :
  step (query_finished 0)
    (demo_state [input_textChanged "a"; query_rowsInserted 0;
                 input_textChanged "ab"]) =
  Ok (update_query 0 finish
        (demo_state [input_textChanged "a"; query_rowsInserted 0;
                     input_textChanged "ab"])) /\
  step (query_rowsInserted 0)
    (demo_state [input_textChanged "a"; query_rowsInserted 0;
                 input_textChanged "ab"]) =
  Ok (update_query 0 append_match
        (demo_state [input_textChanged "a"; query_rowsInserted 0;
                     input_textChanged "ab"])).
Proof.
  apply (proj2 (proj2 (C5_one_query_wired
                  (demo_state [input_textChanged "a"; query_rowsInserted 0;
                               input_textChanged "ab"])
                  ltac:(apply demo_reachable; vm_compute; reflexivity))) 0).
  vm_compute. discriminate.
Defined.

Lemma trim_queries_spec p x :
  In x (queries_ (trim_queries p)) ->
  In x (queries_ p) /\
  (current_query p = Some x \/ displayed_query p = Some x).
Proof.
  unfold trim_queries. cbn [queries_ set_queries_]. intros H.
  apply filter_In in H. destruct H as [H R]. split; [exact H|].
  unfold retained in R. apply orb_true_iff in R. destruct R as [R|R].
  - left. destruct (current_query p) as [c|]; [|discriminate].
    apply Nat.eqb_eq in R. congruence.
  - right. destruct (displayed_query p) as [d|]; [|discriminate].
    apply Nat.eqb_eq in R. congruence.
Qed.

Lemma isEmpty_true s : isEmpty s = true -> s = EmptyString.
Proof. destruct s; [reflexivity|discriminate]. Qed.

(** C6: an activation from a reachable state with a current query invokes
    the match activation when Model=Matches is active, the fallback
    activation when Model=Fallbacks is active, and then appends the input
    text to the history.  With Control held the window stays as it is and
    [textChanged] is emitted again for the same text, which starts a new
    query.  Without Control the window is hidden; when it was shown, the
    input line receives [QEvent::Hide], whose handler clears the input if
    [clearOnHide_] is set, appends the text that is left to the history
    once more and keeps in [queries_] only the current and the displayed
    query. *)
Theorem C6_activation :
  forall p q i a,
    reachable p -> current_query p = Some q ->
    let txt := text (input_line (window p)) in
    let activation :=
      if is_active s_results_model_matches p then call_activateMatch q i a
      else if is_active s_results_model_fallbacks p
           then call_activateFallback q i a
           else call_warn in
    let new := List.length (heap p) in
    exists p',
      activate i a p = Ok p' /\
      if ControlModifier (ambient p)
      then history_ p' = history_ p ++ [txt] /\
           (exists rest,
              calls p' = calls p ++
                [activation; call_history_add txt; call_emit_textChanged txt]
                ++ rest /\
              ~ In call_window_hide rest /\
              In (call_query new txt) rest /\
              In (call_run new) rest) /\
           w_visible (window p') = w_visible (window p) /\
           current_query p' = Some new
      else w_visible (window p') = false /\
           if w_visible (window p)
           then let left := if clearOnHide_ (ambient p)
                            then EmptyString else txt in
                text (input_line (window p')) = left /\
                history_ p' = history_ p ++ [txt; left] /\
                (exists rest,
                   calls p' = calls p ++
                     [activation; call_history_add txt; call_window_hide]
                     ++ rest ++ [call_history_add left] /\
                   if clearOnHide_ (ambient p) && negb (isEmpty txt)
                   then In (call_query new EmptyString) rest /\
                        In (call_run new) rest /\
                        current_query p' = Some new
                   else rest = [] /\ current_query p' = Some q) /\
                (forall x, In x (queries_ p') ->
                           current_query p' = Some x \/
                           displayed_query p' = Some x)
           else history_ p' = history_ p ++ [txt] /\
                calls p' = calls p ++
                  [activation; call_history_add txt; call_window_hide].
Proof.
  intros p q i a R Q txt activation new.
  destruct (reachable_wf p R) as [W _].
  assert (F : (if mem s_results_model_matches (active p)
               then q0 <- deref (current_query p) ;;
                    Ok (call (call_activateMatch q0 i a) p)
               else if mem s_results_model_fallbacks (active p)
                    then q0 <- deref (current_query p) ;;
                         Ok (call (call_activateFallback q0 i a) p)
                    else Ok (call call_warn p))
              = Ok (call activation p)).
  { subst activation. unfold is_active. rewrite Q. cbn [deref bind].
    destruct (mem s_results_model_matches (active p)); [reflexivity|].
    destruct (mem s_results_model_fallbacks (active p)); reflexivity. }
  unfold activate. rewrite F. cbn [bind].
  change (text (input_line (window (call activation p)))) with txt.
  change (ControlModifier (ambient (history_add txt (call activation p))))
    with (ControlModifier (ambient p)).
  destruct (ControlModifier (ambient p)); cbn [negb].
  - set (p2 := call (call_emit_textChanged txt)
                 (history_add txt (call activation p))).
    assert (W2 : wf p2).
    { eapply wf_transfer; [..|exact W]; reflexivity. }
    destruct (emit_textChanged_run txt p2 W2)
      as (p' & extra & E & _ & _ & X3 & X7 & X8 & _ & _ & _ & X13 & Y2).
    exists p'. split; [exact E|]. split; [rewrite X7; reflexivity|].
    split; [|split].
    + exists ([call_cancel q; call_disconnect q sig_finished;
               call_disconnect q sig_rowsInserted] ++
              [call_query new txt; call_connect new sig_finished;
               call_connect new sig_rowsInserted; call_run new] ++ extra).
      split; [|split; [|split]].
      * rewrite X13.
        change (current_query p2) with (current_query p). rewrite Q.
        change (heap p2) with (heap p).
        change (calls p2)
          with (((calls p ++ [activation]) ++ [call_history_add txt]) ++
                [call_emit_textChanged txt]).
        rewrite <- !app_assoc. reflexivity.
      * intros H. cbn [app In] in H.
        repeat (destruct H as [H|H]; [discriminate H|]).
        apply Y2 in H. destruct H as (q' & H). discriminate H.
      * cbn. auto.
      * cbn. auto 10.
    + rewrite X8. reflexivity.
    + rewrite X3. reflexivity.
  - unfold window_hide, window_setVisible.
    set (p1 := call call_window_hide (history_add txt (call activation p))).
    change (w_visible (window p1)) with (w_visible (window p)).
    destruct (w_visible (window p)) eqn:V; cbn [Bool.eqb].
    + unfold eventFilter_Hide.
      set (p0 := set_w_visible false p1).
      change (clearOnHide_ (ambient p0)) with (clearOnHide_ (ambient p)).
      assert (C0 : calls p0 =
                   calls p ++
                   [activation; call_history_add txt; call_window_hide]).
      { cbn. rewrite <- !app_assoc. reflexivity. }
      assert (H0 : history_ p0 = history_ p ++ [txt]) by reflexivity.
      destruct (clearOnHide_ (ambient p)); cbn [andb bind].
      * unfold input_line_clear.
        change (text (input_line (window p0))) with txt.
        destruct (isEmpty txt) eqn:EM; cbn [bind negb].
        -- apply isEmpty_true in EM.
           eexists. split; [reflexivity|]. split; [reflexivity|].
           split; [exact EM|]. split; [|split].
           ++ cbn [history_ trim_queries set_queries_ history_add call set_history_].
              rewrite H0. change (text (input_line (window p0))) with txt.
              rewrite EM at 2. rewrite <- app_assoc. reflexivity.
           ++ exists []. split; [|split; [reflexivity|exact Q]].
              cbn [calls trim_queries set_queries_ history_add call set_history_].
              rewrite C0. change (text (input_line (window p0))) with txt.
              rewrite EM at 2. rewrite <- !app_assoc. reflexivity.
           ++ intros x H. apply trim_queries_spec in H. apply H.
        -- set (p2 := set_input_line (setText EmptyString) p0).
           assert (W2 : wf p2).
           { eapply wf_transfer; [..|exact W]; reflexivity. }
           destruct (emit_textChanged_run EmptyString p2 W2)
             as (p' & extra & E & _ & _ & X3 & X7 & X8 & _ & X9 & _ & X13 & _).
           rewrite E. cbn [bind].
           eexists. split; [reflexivity|]. split; [exact X8|].
           split; [exact X9|]. split; [|split].
           ++ cbn [history_ trim_queries set_queries_ history_add call set_history_].
              rewrite X7, X9. change (history_ p2) with (history_ p0).
              rewrite H0, <- app_assoc. reflexivity.
           ++ exists ([call_cancel q; call_disconnect q sig_finished;
                       call_disconnect q sig_rowsInserted] ++
                      [call_query new EmptyString;
                       call_connect new sig_finished;
                       call_connect new sig_rowsInserted; call_run new] ++
                      extra).
              split; [|split; [|split; [|exact X3]]].
              ** cbn [calls trim_queries set_queries_ history_add call
                      set_history_].
                 rewrite X13, X9. change (calls p2) with (calls p0).
                 change (current_query p2) with (current_query p).
                 change (heap p2) with (heap p). fold new.
                 rewrite Q, C0, <- !app_assoc. reflexivity.
              ** cbn. auto.
              ** cbn. auto 10.
           ++ intros x H. apply trim_queries_spec in H. apply H.
      * eexists. split; [reflexivity|]. split; [reflexivity|].
        split; [reflexivity|]. split; [|split].
        -- cbn [history_ trim_queries set_queries_ history_add call set_history_].
           rewrite H0, <- app_assoc. reflexivity.
        -- exists []. split; [|split; [reflexivity|exact Q]].
           cbn [calls trim_queries set_queries_ history_add call set_history_].
           rewrite C0, <- !app_assoc. reflexivity.
        -- intros x H. apply trim_queries_spec in H. apply H.
    + exists p1. split; [reflexivity|]. split; [exact V|].
      split; [reflexivity|]. cbn. rewrite <- !app_assoc. reflexivity.
Qed.

Lemma C6_witness :
  exists p',
    activate 0 0
      (demo_state
         [visibility true; input_textChanged "2+2"; query_rowsInserted 1])
      = Ok p' /\
    w_visible (window p') = false /\
    text (input_line (window p')) = "2+2"%string /\
    history_ p' = ["2+2"%string; "2+2"%string] /\
    (exists rest,
       calls p' =
         calls (demo_state
                  [visibility true; input_textChanged "2+2";
                   query_rowsInserted 1]) ++
         [call_activateMatch 1 0 0; call_history_add "2+2";
          call_window_hide] ++ rest ++ [call_history_add "2+2"] /\
       rest = [] /\ current_query p' = Some 1) /\
    (forall x, In x (queries_ p') ->
               current_query p' = Some x \/ displayed_query p' = Some x).
Proof.
  apply (C6_activation
           (demo_state
              [visibility true; input_textChanged "2+2";
               query_rowsInserted 1])
           1 0%Z 0%Z).
  - apply demo_reachable. vm_compute. reflexivity.
  - vm_compute. reflexivity.
Defined.

(** Events that emit no [textChanged] connect nothing and keep the query. *)
Lemma quiet_step ev p p' :
  quiet ev = true -> step ev p = Ok p' ->
  current_query p' = current_query p /\
  forall c, In c (connections p') -> In c (connections p).
Proof.
  assert (G : forall e p0,
             current_query p0 = current_query p ->
             connections p0 = connections p ->
             processEvent e p0 = Ok p' ->
             current_query p' = current_query p /\
             forall c, In c (connections p') -> In c (connections p)).
  { intros e p0 Q N H. apply processEvent_stable in H.
    rewrite <- Q, <- N. split; [apply H|apply (st_connections H)]. }
  intros QT H. destruct ev as [txt| |q|q|ty k|ty|row|row|a|visible|row];
    try discriminate QT; cbn [step] in H.
  - destruct (display_delay_timer p).
    + eapply G; [| |exact H]; reflexivity.
    + injection H as <-. auto.
  - destruct (connected _ q sig_finished).
    + eapply G; [| |exact H]; reflexivity.
    + injection H as <-. auto.
  - destruct (connected _ q sig_rowsInserted).
    + eapply G; [| |exact H]; reflexivity.
    + injection H as <-. auto.
  - eapply G; [| |exact H]; reflexivity.
  - eapply G; [| |exact H]; reflexivity.
  - injection H as <-. auto.
  - injection H as <-.
    destruct (results_setCurrentRow_cases row p) as [->|[->|(h & ->)]];
      auto.
Qed.

Lemma quiet_steps evs : forall p p' q,
  forallb quiet evs = true -> steps evs p = Ok p' ->
  current_query p = Some q ->
  connected p q sig_rowsInserted = false ->
  current_query p' = Some q /\ connected p' q sig_rowsInserted = false.
Proof.
  induction evs as [|ev evs IH]; cbn [steps forallb]; intros p p' q QT H Q C.
  - injection H as <-. auto.
  - apply andb_prop in QT. destruct QT as [QT1 QT2].
    destruct (step ev p) as [p1| |] eqn:E; cbn [bind] in H; try discriminate.
    destruct (quiet_step ev p p1 QT1 E) as [Q1 N1].
    apply (IH p1 p' q QT2 H); [congruence|].
    destruct (connected p1 q sig_rowsInserted) eqn:X; [|reflexivity].
    apply connected_In in X. apply N1 in X. apply connected_In in X.
    congruence.
Qed.

(** C10: entering Model=Matches disconnects the current query's row
    insertions from "results ready"; so while Model=Matches is active, and
    from then on through every sequence of events that emits no textChanged,
    a further match row for that query emits no "results ready" and changes
    nothing but the query's row count. *)
Theorem C10_resultsReady_severed :
  (forall p p' q,
     entered s_results_model_matches p = Ok p' ->
     current_query p = Some q ->
     connected p' q sig_rowsInserted = false) /\
  (forall p q,
     reachable p -> current_query p = Some q ->
     is_active s_results_model_matches p = true ->
     connected p q sig_rowsInserted = false /\
     forall evs p',
       forallb quiet evs = true -> steps evs p = Ok p' ->
       current_query p' = Some q /\
       connected p' q sig_rowsInserted = false /\
       step (query_rowsInserted q) p' = Ok (update_query q append_match p')).
Proof.
  split.
  - apply entered_matches_severs.
  - intros p q R Q A. destruct (reachable_wf p R) as [_ V].
    pose proof (V A q Q) as C. split; [exact C|].
    intros evs p' QT H.
    destruct (quiet_steps evs p p' q QT H Q C) as [Q' C'].
    split; [exact Q'|]. split; [exact C'|].
    cbn [step].
    change (connected (update_query q append_match p') q sig_rowsInserted)
      with (connected p' q sig_rowsInserted).
    rewrite C'. reflexivity.
Qed.

Lemma C10_witness :
  connected (demo_state [input_textChanged "2+2"; query_rowsInserted 0]) 0
    sig_rowsInserted = false.
Proof.
  apply (proj2 C10_resultsReady_severed
           (demo_state [input_textChanged "2+2"; query_rowsInserted 0]) 0).
  - apply demo_reachable. vm_compute. reflexivity.
  - vm_compute. reflexivity.
  - vm_compute. reflexivity.
Defined.

(** ** The bound model and the selected row of the results list *)

Lemma same_model_true a m : same_model a m = true <-> a = Some m.
Proof.
  unfold same_model. destruct a as [m'|]; split; intros H; try discriminate.
  - apply internal_Model_dec_bl in H. congruence.
  - injection H as ->. apply internal_Model_dec_lb. reflexivity.
Qed.

Lemma entered_fallbacks_bound p q :
  current_query p = Some q ->
  lv_model (results_list (window p)) = Some (fallbacks q) ->
  entered s_results_model_fallbacks p = Ok (set_results_list show p).
Proof.
  intros Q H. cbn [entered]. rewrite Q. cbn [deref bind].
  rewrite (proj2 (same_model_true _ _) H). reflexivity.
Qed.

Lemma entered_fallbacks_rebinds p q :
  current_query p = Some q ->
  lv_model (results_list (window p)) <> Some (fallbacks q) ->
  entered s_results_model_fallbacks p =
  Ok (set_results_list show
        (set_results_list
           (fun lv => setCurrentIndex (index00 p (fallbacks q))
                        (setModel (fallbacks q) lv)) p)).
Proof.
  intros Q H. cbn [entered]. rewrite Q. cbn [deref bind].
  destruct (same_model _ (fallbacks q)) eqn:E; [|reflexivity].
  apply same_model_true in E. contradiction.
Qed.

Lemma entered_selection s p p' :
  entered s p = Ok p' ->
  s <> s_results_model_matches -> s <> s_results_model_fallbacks ->
  selection p' = selection p.
Proof.
  intros H M F. destruct s; try contradiction; cbn in H;
    unfold bind, deref in H;
    repeat (break_match_hyp H; cbn in H); try discriminate;
    injection H as <-; reflexivity.
Qed.

Lemma exited_selection s p : selection (exited s p) = selection p.
Proof. destruct s; reflexivity. Qed.

Lemma exitStates_selection l : forall p,
  selection (exitStates l p) = selection p.
Proof.
  unfold exitStates. induction l as [|s l IH]; cbn [fold_left]; intros p;
    [reflexivity|].
  rewrite IH, exited_selection. reflexivity.
Qed.

Lemma enterStates_selection l : forall p p',
  enterStates l p = Ok p' ->
  ~ In s_results_model_matches l -> ~ In s_results_model_fallbacks l ->
  selection p' = selection p.
Proof.
  induction l as [|s l IH]; cbn [enterStates In]; intros p p' H M F.
  - injection H as <-. reflexivity.
  - destruct (entered s _) as [p1| |] eqn:E; cbn [bind] in H; try discriminate.
    apply entered_selection in E; [|intros ->; tauto|intros ->; tauto].
    apply IH in H; [|tauto|tauto]. rewrite H. exact E.
Qed.

(** Once the fallbacks are bound, no entry but that of Matches changes the
    binding or the selected row. *)
Lemma enterStates_bound l : forall p p' q,
  enterStates l p = Ok p' ->
  current_query p = Some q ->
  ~ In s_results_model_matches l ->
  lv_model (results_list (window p)) = Some (fallbacks q) ->
  selection p' = selection p.
Proof.
  induction l as [|s l IH]; cbn [enterStates In]; intros p p' q H Q M B.
  - injection H as <-. reflexivity.
  - destruct (entered s _) as [p1| |] eqn:E; cbn [bind] in H; try discriminate.
    assert (S1 : selection p1 = selection p).
    { destruct (StateId_eq_dec s s_results_model_fallbacks) as [->|N].
      - rewrite (entered_fallbacks_bound _ q) in E by assumption.
        injection E as <-. unfold selection. cbn. rewrite B. reflexivity.
      - apply entered_selection in E; [exact E|intros ->; tauto|exact N]. }
    pose proof (entered_stable _ _ _ E) as (_ & _ & S).
    rewrite <- S1. apply (IH _ _ q H).
    + cbn [current_query set_active]. rewrite (st_current_query S). exact Q.
    + tauto.
    + unfold selection in S1. injection S1 as S1 _.
      cbn [window set_active]. rewrite S1. exact B.
Qed.

Lemma index00_stable p p' m : stable p p' -> index00 p' m = index00 p m.
Proof.
  intros S. unfold index00, rowCount, query_at. rewrite (st_heap S).
  reflexivity.
Qed.

(** Entering Fallbacks while another model is bound binds the fallbacks and
    selects the first row, and the rest of the entry keeps that. *)
Lemma enterStates_fallbacks l : forall p p' q,
  enterStates l p = Ok p' ->
  current_query p = Some q ->
  ~ In s_results_model_matches l ->
  In s_results_model_fallbacks l ->
  lv_model (results_list (window p)) <> Some (fallbacks q) ->
  selection p' = (Some (fallbacks q), index00 p (fallbacks q)).
Proof.
  induction l as [|s l IH]; cbn [enterStates In]; intros p p' q H Q M F B;
    [contradiction|].
  destruct (entered s _) as [p1| |] eqn:E; cbn [bind] in H; try discriminate.
  pose proof (entered_stable _ _ _ E) as (_ & _ & S).
  destruct (StateId_eq_dec s s_results_model_fallbacks) as [->|N].
  - rewrite (entered_fallbacks_rebinds _ q) in E by assumption.
    injection E as <-.
    apply (enterStates_bound _ _ _ q) in H; [|exact Q|tauto|reflexivity].
    rewrite H. reflexivity.
  - pose proof (entered_selection _ _ _ E) as S1.
    assert (S2 : selection p1 = selection p).
    { apply S1; [intros ->; tauto|exact N]. }
    assert (X : index00 (set_active (insert s (active p1)) p1) (fallbacks q)
                = index00 p (fallbacks q)).
    { exact (index00_stable _ _ (fallbacks q) S). }
    rewrite <- X. apply IH.
    + exact H.
    + cbn [current_query set_active]. rewrite (st_current_query S). exact Q.
    + tauto.
    + destruct F as [F|F]; [congruence|exact F].
    + unfold selection in S2. injection S2 as S2 _.
      cbn [window set_active]. rewrite S2. exact B.
Qed.

(** Replace the lists of one event by their values. *)
Ltac eval_lists H :=
  repeat match type of H with
         | context [idle ?e ?g ?p ?c] =>
           let v := eval vm_compute in (idle e g p c) in
           replace (idle e g p c) with v in H by (vm_compute; reflexivity)
         | context [entry_list ?e ?g ?p ?c] =>
           let v := eval vm_compute in (entry_list e g p c) in
           replace (entry_list e g p c) with v in H by (vm_compute; reflexivity)
         | context [exit_list ?e ?g ?p ?c] =>
           let v := eval vm_compute in (exit_list e g p c) in
           replace (exit_list e g p c) with v in H by (vm_compute; reflexivity)
         end.

Ltac not_in := cbn [In]; intuition discriminate.

(** A text change rebinds nothing and keeps the selected row. *)
Lemma textChanged_selection p q p' :
  inv p -> current_query p = Some q ->
  processEvent (SignalEvent textChanged) p = Ok p' ->
  selection p' = selection p.
Proof.
  intros I Q H. rewrite (processEvent_lists _ p q Q) in H.
  revert H. generalize (guards (SignalEvent textChanged) p q). intros g H.
  each_config_of I; rewrite L in H; eval_lists H;
    lazymatch type of H with
    | Ok _ = Ok _ => injection H as <-; reflexivity
    | _ => apply enterStates_selection in H; try not_in;
           rewrite H; apply exitStates_selection
    end.
Qed.

(** Outside Visible, with fallback display enabled, a finished query with
    fallbacks that are not bound yet ends in Visible/Fallbacks, bound to the
    fallbacks with their first row selected. *)
Lemma finished_shows_fallbacks p q :
  inv p -> current_query p = Some q ->
  is_active s_results_visible p = false ->
  show_fallbacks_on_empty_query p = true ->
  0 < rowCount p (fallbacks q) ->
  lv_model (results_list (window p)) <> Some (fallbacks q) ->
  exists p',
    processEvent (SignalEvent queryFinsished) p = Ok p' /\
    stable p p' /\
    is_active s_results_visible p' = true /\
    is_active s_results_model_fallbacks p' = true /\
    selection p' = (Some (fallbacks q), Some 0).
Proof.
  intros I Q V SH F B.
  destruct (processEvent_next (SignalEvent queryFinsished) p q I Q)
    as (p' & E & I' & S & C).
  exists p'. split; [exact E|]. split; [exact S|].
  assert (X : index00 p (fallbacks q) = Some 0).
  { unfold index00. apply Nat.ltb_lt in F. rewrite F. reflexivity. }
  rewrite (processEvent_lists _ p q Q) in E.
  rewrite !(active_is p' _ I'), C. rewrite (active_is p _ I) in V.
  revert E. unfold guards, key_is. rewrite SH.
  apply Nat.ltb_lt in F. rewrite F.
  generalize (negb (rowCount p (matches q) =? 0));
  generalize (underMouse (ambient p));
  generalize (q_isFinished (query_at p q)); intros fin um m E.
  pose proof (exitStates_spec) as XS.
  each_config_of I; rewrite L in *; try discriminate V;
    destruct um; eval_lists E;
    (split; [vm_compute; reflexivity|]);
    (split; [vm_compute; reflexivity|]);
    rewrite <- X;
    match type of E with
    | enterStates _ (exitStates ?l p) = _ =>
      destruct (XS l p) as (_ & _ & S0);
      rewrite <- (index00_stable _ _ (fallbacks q) S0);
      apply (enterStates_fallbacks _ _ _ q) in E;
      [exact E
      |rewrite (st_current_query S0); exact Q
      |not_in
      |cbn [In]; tauto
      |rewrite (f_equal fst (exitStates_selection l p) :
                  lv_model (results_list (window (exitStates l p))) =
                  lv_model (results_list (window p)));
       exact B]
    end.
Qed.

Lemma step_textChanged_process txt p :
  step (input_textChanged txt) p =
  processEvent (SignalEvent textChanged)
    (on_textChanged txt (set_input_line (setText txt) p)).
Proof. reflexivity. Qed.

Lemma step_finished_connected q p :
  connected p q sig_finished = true ->
  step (query_finished q) p =
  processEvent (SignalEvent queryFinsished) (update_query q finish p).
Proof.
  intros H. cbn [step].
  change (connected (update_query q finish p) q sig_finished)
    with (connected p q sig_finished).
  rewrite H. reflexivity.
Qed.

(** Typing a text and having its query finish, with fallback display
    enabled and fallbacks for the text. *)
Lemma typed_query_finishes p txt :
  wf p ->
  show_fallbacks_on_empty_query p = true ->
  0 < q_fallbacks (engine (ambient p) txt) ->
  exists p1 p2,
    step (input_textChanged txt) p = Ok p1 /\
    step (query_finished (List.length (heap p))) p1 = Ok p2 /\
    rowCount p2 (matches (List.length (heap p))) = 0 /\
    is_active s_results_visible p2 = true /\
    is_active s_results_model_fallbacks p2 = true /\
    selection p2 = (Some (fallbacks (List.length (heap p))), Some 0).
Proof.
  intros W SH F. set (new := List.length (heap p)).
  destruct (step_textChanged_spec txt p W)
    as (p1 & E1 & W1 & S1 & Q1 & V1 & _).
  assert (W0 : wf (set_input_line (setText txt) p)).
  { eapply wf_transfer; [..|exact W]; reflexivity. }
  pose proof (on_textChanged_spec txt _ (proj1 (proj2 W0))) as O.
  cbv zeta in O.
  destruct O as (_ & _ & OQ & OL & ON & OM & _ & _ & OS & _ & OF & OZ & _).
  set (o := on_textChanged txt (set_input_line (setText txt) p)) in *.
  change (List.length (heap (set_input_line (setText txt) p))) with new in *.
  change (ambient (set_input_line (setText txt) p)) with (ambient p) in *.
  assert (T : selection p1 = selection o).
  { apply (textChanged_selection o new p1).
    - apply (on_textChanged_wf txt _ W0).
    - exact OQ.
    - rewrite <- E1. symmetry. apply step_textChanged_process. }
  assert (HL : new < List.length (heap p1)).
  { rewrite (st_heap S1), OL. lia. }
  set (p1' := update_query new finish p1).
  assert (A : query_at p1' new = finish (query_at o new)).
  { unfold query_at, p1'. cbn [heap update_query set_heap].
    rewrite nth_update_nth by exact HL. rewrite (st_heap S1). reflexivity. }
  assert (C1 : connected p1 new sig_finished = true).
  { apply connected_In. apply (st_finished S1). rewrite ON. left. reflexivity. }
  assert (W1' : wf p1').
  { eapply wf_transfer; [..|exact W1]; try reflexivity.
    apply length_update_nth. }
  destruct (finished_shows_fallbacks p1' new) as (p2 & E2 & S2 & V2 & M2 & T2).
  - apply W1'.
  - exact Q1.
  - exact V1.
  - change (show_fallbacks_on_empty_query p1')
      with (show_fallbacks_on_empty_query p1).
    rewrite (st_show S1), OS. exact SH.
  - unfold rowCount. rewrite A. cbn [finish q_fallbacks]. rewrite OF. exact F.
  - change (lv_model (results_list (window p1')))
      with (fst (selection p1)).
    rewrite T. cbn [fst selection]. rewrite OM.
    change (lv_model (results_list (window (set_input_line (setText txt) p))))
      with (lv_model (results_list (window p))).
    intros B. apply (proj2 (proj2 (proj2 W))) in B. cbn [model_query] in B.
    subst new. lia.
  - exists p1, p2. split; [exact E1|].
    split; [rewrite (step_finished_connected _ _ C1); exact E2|].
    split; [|split; [exact V2|split; [exact M2|exact T2]]].
    unfold rowCount, query_at. rewrite (st_heap S2).
    change (nth new (heap p1') null_query) with (query_at p1' new).
    rewrite A. cbn [finish q_matches]. exact OZ.
Qed.

(** C9: entering Model=Fallbacks re-binds the results list and selects the
    first row only when the bound model is not the current query's fallbacks;
    when it is, binding and selected row stay as they are, so that entering
    twice is entering once.  A text typed with fallback display enabled whose
    query finishes without a match and with fallbacks ends in
    Visible/Fallbacks, bound to its fallbacks, with row 0 selected. *)
Theorem C9_fallbacks_entry :
  (forall p q,
     current_query p = Some q ->
     (lv_model (results_list (window p)) = Some (fallbacks q) ->
      entered s_results_model_fallbacks p = Ok (set_results_list show p)) /\
     (lv_model (results_list (window p)) <> Some (fallbacks q) ->
      exists p',
        entered s_results_model_fallbacks p = Ok p' /\
        selection p' = (Some (fallbacks q), index00 p (fallbacks q))) /\
     (forall p1,
        entered s_results_model_fallbacks p = Ok p1 ->
        entered s_results_model_fallbacks p1 = Ok p1)) /\
  (forall p txt,
     reachable p ->
     show_fallbacks_on_empty_query p = true ->
     0 < q_fallbacks (engine (ambient p) txt) ->
     exists p1 p2,
       step (input_textChanged txt) p = Ok p1 /\
       step (query_finished (List.length (heap p))) p1 = Ok p2 /\
       rowCount p2 (matches (List.length (heap p))) = 0 /\
       is_active s_results_visible p2 = true /\
       is_active s_results_model_fallbacks p2 = true /\
       selection p2 = (Some (fallbacks (List.length (heap p))), Some 0)).
Proof.
  split.
  - intros p q Q. split; [|split].
    + apply entered_fallbacks_bound. exact Q.
    + intros B. eexists. split; [apply entered_fallbacks_rebinds; eauto|].
      reflexivity.
    + intros p1 H.
      destruct (same_model (lv_model (results_list (window p))) (fallbacks q))
        eqn:B.
      * apply same_model_true in B.
        rewrite (entered_fallbacks_bound p q Q B) in H. injection H as <-.
        rewrite (entered_fallbacks_bound (set_results_list show p) q Q B).
        reflexivity.
      * assert (B' : lv_model (results_list (window p)) <> Some (fallbacks q)).
        { intros X. apply same_model_true in X. congruence. }
        rewrite (entered_fallbacks_rebinds p q Q B') in H. injection H as <-.
        match goal with
        | |- entered _ ?x = _ =>
          rewrite (entered_fallbacks_bound x q Q eq_refl)
        end. reflexivity.
  - intros p txt R. apply typed_query_finishes. apply (reachable_wf p R).
Qed.

Lemma C9_witness :
  exists p1 p2,
    step (input_textChanged "zzzz") (demo_state []) = Ok p1 /\
    step (query_finished 0) p1 = Ok p2 /\
    rowCount p2 (matches 0) = 0 /\
    is_active s_results_visible p2 = true /\
    is_active s_results_model_fallbacks p2 = true /\
    selection p2 = (Some (fallbacks 0), Some 0).
Proof.
  apply (proj2 C9_fallbacks_entry (demo_state []) "zzzz"%string).
  - apply demo_reachable. vm_compute. reflexivity.
  - vm_compute. reflexivity.
  - vm_compute. lia.
Defined.

(** * Further properties *)

(** ** The widget state and the configuration *)

Lemma entered_view_ok s p p' :
  entered s p = Ok p' -> view p' = entered_view s (view p).
Proof.
  intros H. destruct s; cbn in H; unfold bind, deref in H;
    repeat (break_match_hyp H; cbn in H); try discriminate;
    injection H as <-; reflexivity.
Qed.

Lemma exited_view_ok s p : view (exited s p) = exited_view s (view p).
Proof. destruct s; reflexivity. Qed.

Lemma enterStates_view l : forall p p',
  enterStates l p = Ok p' ->
  view p' = fold_left (fun v s => entered_view s v) l (view p).
Proof.
  induction l as [|s l IH]; cbn [enterStates fold_left]; intros p p' H.
  - injection H as <-. reflexivity.
  - destruct (entered s _) as [p1| |] eqn:E; cbn [bind] in H; try discriminate.
    apply entered_view_ok in E. apply IH in H. rewrite H.
    change (view (set_active (insert s (active p1)) p1)) with (view p1).
    rewrite E. reflexivity.
Qed.

Lemma exitStates_view l : forall p,
  view (exitStates l p) = fold_left (fun v s => exited_view s v) l (view p).
Proof.
  unfold exitStates. induction l as [|s l IH]; cbn [fold_left]; intros p;
    [reflexivity|].
  rewrite IH, exited_view_ok. reflexivity.
Qed.

Lemma microstep_view_ok ts p p' :
  microstep ts p = Ok p' ->
  view p' = microstep_view (configuration p) ts (view p).
Proof.
  unfold microstep, microstep_view. intros H.
  apply enterStates_view in H. rewrite H, exitStates_view. reflexivity.
Qed.

Lemma all_views_complete v : In v all_views.
Proof.
  destruct v as [[|] [|] [|] [|]]; vm_compute; tauto.
Qed.

(** Whatever the conditions evaluate to, a microstep keeps the widget state
    in line with the configuration. *)
Lemma candidates_view_ok p config :
  legal config = true ->
  forallb
    (fun en =>
       let ts := removeConflictingTransitions config en in
       match ts with
       | [] => true
       | _ => forallb
                (fun v => implb (view_ok config v)
                            (view_ok (after_entry config ts)
                                     (microstep_view config ts v)))
                all_views
       end)
    (candidates p (atoms_of config)) = true.
Proof.
  intros H. each_config H; subst config; vm_compute; reflexivity.
Qed.

Lemma processEvent_candidates e p p' :
  processEvent e p = Ok p' ->
  exists en,
    In en (candidates p (atoms_of (configuration p))) /\
    match removeConflictingTransitions (configuration p) en with
    | [] => p' = p
    | ts => microstep ts p = Ok p'
    end.
Proof.
  unfold processEvent, selectTransitions. intros H.
  destruct (enabled_from e p _) as [en| |] eqn:E; cbn [bind] in H;
    try discriminate.
  exists en. split; [apply (enabled_from_candidates _ _ _ _ E)|].
  destruct (removeConflictingTransitions (configuration p) en).
  - congruence.
  - exact H.
Qed.

Lemma processEvent_view_ok e p p' :
  legal (configuration p) = true ->
  view_ok (configuration p) (view p) = true ->
  processEvent e p = Ok p' ->
  view_ok (configuration p') (view p') = true.
Proof.
  intros L V H. apply processEvent_candidates in H.
  destruct H as (en & En & H).
  pose proof (candidates_view_ok p _ L) as C.
  rewrite forallb_forall in C. specialize (C en En). cbv zeta in C.
  destruct (removeConflictingTransitions (configuration p) en) as [|t ts].
  - subst p'. exact V.
  - rewrite forallb_forall in C. specialize (C (view p) (all_views_complete _)).
    rewrite V in C. cbn [implb] in C.
    rewrite (microstep_view_ok _ _ _ H).
    destruct (microstep_spec _ _ _ H) as (Hc & _). rewrite Hc. exact C.
Qed.

Lemma eventTest_unguarded e p g t :
  unguarded e = true ->
  In t (transitions p) ->
  eventTest t e p = Ok (accepts e g (tid t)).
Proof.
  intros U H. unfold transitions in H.
  repeat (destruct H as [<-|H]; [|]); [..|contradiction];
    destruct e as [[]|[] k|[]]; try discriminate U; reflexivity.
Qed.

Lemma processEvent_unguarded e p g :
  unguarded e = true ->
  processEvent e p =
  if idle e g p (configuration p) then Ok p
  else enterStates (entry_list e g p (configuration p))
         (exitStates (exit_list e g p (configuration p)) p).
Proof.
  intros U. unfold processEvent, selectTransitions, idle, entry_list, exit_list,
    selected, atoms_of.
  rewrite enabled_from_pure with (acc := accepts e g).
  - cbn [bind]. destruct (removeConflictingTransitions _ _); reflexivity.
  - intros t H. apply eventTest_unguarded; assumption.
Qed.

Lemma on_textChanged_view txt p :
  view (on_textChanged txt p) = view p /\
  configuration (on_textChanged txt p) = configuration p.
Proof.
  unfold on_textChanged, release_current.
  destruct (current_query p); split; reflexivity.
Qed.

(** The debounce timer's expiry, delivered to the machine. *)
Lemma timeout_tidy p p' :
  inv p -> tidy p ->
  processEvent (SignalEvent timeout) (set_display_delay_timer false p) = Ok p' ->
  tidy p'.
Proof.
  intros I T H.
  rewrite (processEvent_unguarded (SignalEvent timeout) _ no_guards eq_refl) in H.
  cbn [configuration set_display_delay_timer] in H.
  unfold tidy in *.
  each_config_of I; rewrite L in *; eval_lists H;
    lazymatch type of H with
    | Ok _ = Ok _ =>
      injection H as <-;
      change (configuration (set_display_delay_timer false p))
        with (configuration p);
      change (view (set_display_delay_timer false p)) with (stop_timer (view p));
      rewrite L;
      revert T; generalize (view p); intros [[|] [|] [|] [|]];
      vm_compute; auto
    | enterStates ?l ?x = _ =>
      pose proof (enterStates_spec l x p' H) as (C & _ & _);
      apply enterStates_view in H; rewrite H, C, exitStates_view;
      rewrite (proj1 (exitStates_spec _ _));
      change (configuration (set_display_delay_timer false p))
        with (configuration p);
      change (view (set_display_delay_timer false p)) with (stop_timer (view p));
      rewrite L;
      revert T; generalize (view p); intros [[|] [|] [|] [|]];
      vm_compute; auto
    end.
Qed.

Lemma emit_textChanged_eq txt p :
  emit_textChanged txt p =
  processEvent (SignalEvent textChanged) (on_textChanged txt p).
Proof. reflexivity. Qed.

Lemma step_timer_eq p :
  step timer_timeout p =
  if display_delay_timer p
  then processEvent (SignalEvent timeout) (set_display_delay_timer false p)
  else Ok p.
Proof. reflexivity. Qed.

Lemma step_finished_eq q p :
  step (query_finished q) p =
  if connected p q sig_finished
  then processEvent (SignalEvent queryFinsished) (update_query q finish p)
  else Ok (update_query q finish p).
Proof. reflexivity. Qed.

Lemma step_rowsInserted_eq q p :
  step (query_rowsInserted q) p =
  if connected p q sig_rowsInserted
  then processEvent (SignalEvent resultsReady) (update_query q append_match p)
  else Ok (update_query q append_match p).
Proof. reflexivity. Qed.

Lemma step_key_eq ty k p : step (key ty k) p = processEvent (KeyEvent ty k) p.
Proof. reflexivity. Qed.

Lemma step_button_eq ty p : step (button ty) p = processEvent (ButtonEvent ty) p.
Proof. reflexivity. Qed.

Lemma step_results_eq row p :
  step (results_activated row) p = activate (to_uint (Z.of_nat row)) 0%Z p.
Proof. reflexivity. Qed.

Lemma step_actions_eq row p :
  step (actions_activated row) p =
  activate (to_uint (row_of (lv_currentIndex (results_list (window p)))))
           (to_uint (Z.of_nat row)) p.
Proof. reflexivity. Qed.

Lemma step_surroundings_eq a p : step (surroundings a) p = Ok (set_ambient a p).
Proof. reflexivity. Qed.

Lemma step_visibility_eq visible p :
  step (visibility visible) p = window_setVisible visible p.
Proof. reflexivity. Qed.

Lemma step_currentChanged_eq row p :
  step (results_currentChanged row) p = Ok (results_setCurrentRow row p).
Proof. reflexivity. Qed.

Lemma window_hide_eq p :
  window_hide p = window_setVisible false (call call_window_hide p).
Proof. reflexivity. Qed.

Lemma window_setVisible_eq visible p :
  window_setVisible visible p =
  if Bool.eqb (w_visible (window p)) visible then Ok p
  else if visible
       then emit_textChanged (text (input_line (window p)))
              (call (call_emit_textChanged (text (input_line (window p))))
                 (set_w_visible true p))
       else p1 <- (if clearOnHide_ (ambient p)
                   then if isEmpty (text (input_line (window p)))
                        then Ok (set_w_visible false p)
                        else emit_textChanged EmptyString
                               (set_input_line (setText EmptyString)
                                  (set_w_visible false p))
                   else Ok (set_w_visible false p)) ;;
            Ok (trim_queries
                  (history_add (text (input_line (window p1))) p1)).
Proof. reflexivity. Qed.

Lemma activate_eq i a p :
  activate i a p =
  (p1 <- activate_call i a p ;;
   if negb (ControlModifier (ambient p1))
   then window_hide (history_add (text (input_line (window p1))) p1)
   else emit_textChanged (text (input_line (window p1)))
          (call (call_emit_textChanged (text (input_line (window p1))))
             (history_add (text (input_line (window p1))) p1))).
Proof. reflexivity. Qed.

Lemma activate_call_spec i a p p1 :
  activate_call i a p = Ok p1 -> exists c, p1 = call c p.
Proof.
  unfold activate_call, bind, deref.
  destruct (mem s_results_model_matches (active p));
    [|destruct (mem s_results_model_fallbacks (active p))];
    destruct (current_query p); intros E; try discriminate;
    injection E as <-; eauto.
Qed.

(** The machine after an event whose selection is known: configuration and
    widget state as functions of the lists of states left and entered. *)
Lemma processEvent_summary e g p p' :
  (forall t, In t (transitions p) -> eventTest t e p = Ok (accepts e g (tid t))) ->
  processEvent e p = Ok p' ->
  configuration p' = next_configuration e g p (configuration p) /\
  view p' =
    fold_left (fun v s => entered_view s v)
      (entry_list e g p (configuration p))
      (fold_left (fun v s => exited_view s v)
         (exit_list e g p (configuration p)) (view p)).
Proof.
  intros A H. unfold processEvent, selectTransitions in H.
  rewrite enabled_from_pure with (acc := accepts e g) in H by exact A.
  cbn [bind] in H.
  unfold next_configuration, entry_list, exit_list, selected, atoms_of.
  destruct (removeConflictingTransitions _ _) as [|t ts].
  - injection H as <-. split; reflexivity.
  - split.
    + apply microstep_spec in H. apply H.
    + apply microstep_view_ok in H. exact H.
Qed.

Lemma processEvent_summary_unguarded e p p' :
  unguarded e = true ->
  processEvent e p = Ok p' ->
  configuration p' = next_configuration e no_guards p (configuration p) /\
  view p' =
    fold_left (fun v s => entered_view s v)
      (entry_list e no_guards p (configuration p))
      (fold_left (fun v s => exited_view s v)
         (exit_list e no_guards p (configuration p)) (view p)).
Proof.
  intros U. apply processEvent_summary. intros t H.
  apply eventTest_unguarded; assumption.
Qed.

(** Entries that read no query always succeed. *)
Lemma enterStates_total l : forall p,
  ~ In s_results_model_matches l -> ~ In s_results_model_fallbacks l ->
  ~ In s_results_actions_visible l ->
  exists p', enterStates l p = Ok p'.
Proof.
  induction l as [|s l IH]; cbn [enterStates In]; intros p M F A.
  - eauto.
  - assert (E : exists p1,
               entered s (set_configuration (insert s (configuration p)) p)
               = Ok p1).
    { destruct s; try (eexists; reflexivity); tauto. }
    destruct E as (p1 & ->). cbn [bind]. apply IH; tauto.
Qed.

Lemma timeout_from_postponed p :
  inv p -> tidy p -> is_active s_results_postpone p = true ->
  exists p',
    processEvent (SignalEvent timeout) (set_display_delay_timer false p)
    = Ok p' /\
    is_active s_results_hidden p' = true /\
    is_active s_results_postpone p' = false /\
    view p' = {| v_enabled := true; v_visible := false; v_timer := false;
                 v_opacity := opacity_animation p |}.
Proof.
  intros I T P.
  set (p0 := set_display_delay_timer false p).
  assert (I0 : inv p0) by (destruct I; split; assumption).
  pose proof (processEvent_inv (SignalEvent timeout) p0 I0) as O.
  pose proof (processEvent_unguarded (SignalEvent timeout) p0 no_guards eq_refl)
    as U.
  pose proof (processEvent_summary_unguarded (SignalEvent timeout) p0) as S.
  rewrite (active_is p _ I) in P.
  change (configuration p0) with (configuration p) in *.
  change (view p0) with (stop_timer (view p)) in S.
  assert (V : opacity_animation p = v_opacity (view p)) by reflexivity.
  rewrite V. clear V. unfold tidy in T. revert T S. generalize (view p).
  intros v T S.
  each_config_of I; rewrite L in *; try discriminate P; eval_lists U;
    (destruct (enterStates_total [s_results_hidden]
                 (exitStates [s_results_postpone] p0)) as (p' & E);
     [not_in|not_in|not_in|]);
    rewrite E in U; rewrite U in *; exists p';
    (split; [reflexivity|]);
    destruct O as [I' _]; rewrite !(active_is p' _ I');
    destruct (S p' eq_refl eq_refl) as (C & W); rewrite C, W;
    destruct v as [[|] [|] [|] [|]]; try discriminate T;
    vm_compute; auto.
Qed.

Lemma update_nth_field {B : Type} (g : Query -> B) f d l :
  (forall x, g (f x) = g x) ->
  forall n m, g (nth m (update_nth n f l) d) = g (nth m l d).
Proof.
  intros H. induction l as [|x l IH]; intros [|n] [|m]; cbn; auto.
Qed.

Lemma matches_append_le d l : forall n m,
  q_matches (nth m l d) <= q_matches (nth m (update_nth n append_match l) d).
Proof.
  induction l as [|x l IH]; intros [|n] [|m]; cbn; auto.
Qed.

Lemma has_matches_append q q' p :
  has_matches p q = true ->
  has_matches (update_query q' append_match p) q = true.
Proof.
  unfold has_matches, rowCount, query_at, update_query.
  cbn [heap set_heap]. rewrite !Nat.ltb_lt.
  pose proof (matches_append_le null_query (heap p) q' q). lia.
Qed.

Lemma has_matches_appended q p :
  q < List.length (heap p) ->
  has_matches (update_query q append_match p) q = true.
Proof.
  intros L. unfold has_matches, rowCount, query_at, update_query.
  cbn [heap set_heap]. rewrite nth_update_nth by exact L. reflexivity.
Qed.

(** ** Invariants of the reachable states, generically

    A property holds in every reachable state as soon as it holds after
    construction and is kept by the slot of [textChanged] followed by the
    machine's reaction, by the bookkeeping around an event, and by the
    delivery of an event to the machine, where [resultsReady] only comes
    from the current query once it has a match. *)
Lemma reachable_invariant (P : Plugin -> Prop) :
  (forall txt p, P p -> P (set_input_line (setText txt) p)) ->
  (forall txt p p',
     wf p -> P p -> emit_textChanged txt p = Ok p' -> P p') ->
  (forall q p, wf p -> P p -> P (update_query q finish p)) ->
  (forall q p, wf p -> P p -> P (update_query q append_match p)) ->
  (forall c p, P p -> P (call c p)) ->
  (forall s p, P p -> P (history_add s p)) ->
  (forall visible p, P p -> P (set_w_visible visible p)) ->
  (forall p, P p -> P (trim_queries p)) ->
  (forall row p, P p -> P (set_results_list (setCurrentIndex (Some row)) p)) ->
  (forall h p, P p -> P (set_input_line (setInputHint h) p)) ->
  (forall a p, P p -> P (set_ambient a p)) ->
  (forall e p p',
     wf p -> P p ->
     (e = SignalEvent resultsReady ->
      forall q, current_query p = Some q -> has_matches p q = true) ->
     processEvent e p = Ok p' -> P p') ->
  (forall p p',
     wf p -> P p ->
     processEvent (SignalEvent timeout) (set_display_delay_timer false p)
     = Ok p' ->
     P p') ->
  (forall sf mf ma hist a p, Plugin_ctor sf mf ma hist a = Ok p -> P p) ->
  forall p, reachable p -> P p.
Proof.
  intros Htext Hemit Hfinish Happend Hcall Hhist Hvisible Htrim Hrow Hhint
    Hamb Hevent Htimeout Hctor.
  assert (Hwindow : forall visible p p',
             wf p -> P p -> window_setVisible visible p = Ok p' -> P p').
  { intros visible p p' W T H. rewrite window_setVisible_eq in H.
    destruct (Bool.eqb _ visible); [injection H as <-; exact T|].
    destruct visible.
    - apply Hemit in H; [exact H| |auto].
      eapply wf_transfer; [..|exact W]; reflexivity.
    - destruct (clearOnHide_ _); [destruct (isEmpty _)|].
      + cbn [bind] in H. injection H as <-. auto.
      + destruct (emit_textChanged _ _) as [p1| |] eqn:E; cbn [bind] in H;
          try discriminate.
        injection H as <-. apply Htrim, Hhist.
        apply Hemit in E; [exact E| |auto].
        eapply wf_transfer; [..|exact W]; reflexivity.
      + cbn [bind] in H. injection H as <-. auto. }
  assert (Hact : forall i a p p',
             wf p -> P p -> activate i a p = Ok p' -> P p').
  { intros i a p p' W T H. rewrite activate_eq in H.
    destruct (activate_call i a p) as [p1| |] eqn:F; cbn [bind] in H;
      try discriminate.
    destruct (activate_call_spec _ _ _ _ F) as (c & ->).
    destruct (negb (ControlModifier _)).
    - rewrite window_hide_eq in H.
      apply Hwindow in H; [exact H| |auto].
      eapply wf_transfer; [..|exact W]; reflexivity.
    - apply Hemit in H; [exact H| |auto].
      eapply wf_transfer; [..|exact W]; reflexivity. }
  induction 1 as [sf mf ma hist a p H|p ev p' R T H].
  - eapply Hctor; eauto.
  - pose proof (proj1 (reachable_wf p R)) as W.
    destruct ev as [txt| |q|q|ty k|ty|row|row|a|visible|row].
    + rewrite step_textChanged_process, <- emit_textChanged_eq in H.
      apply Hemit in H; [exact H| |auto].
      eapply wf_transfer; [..|exact W]; reflexivity.
    + rewrite step_timer_eq in H. destruct (display_delay_timer p).
      * eapply Htimeout; eauto.
      * injection H as <-. exact T.
    + rewrite step_finished_eq in H. destruct (connected _ q sig_finished).
      * apply (Hevent (SignalEvent queryFinsished)
                 (update_query q finish p) p'); [|auto| |exact H].
        -- eapply wf_transfer; [..|exact W]; try reflexivity.
           apply length_update_nth.
        -- intros X. discriminate X.
      * injection H as <-. auto.
    + rewrite step_rowsInserted_eq in H.
      destruct (connected _ q sig_rowsInserted) eqn:N.
      * apply (Hevent (SignalEvent resultsReady)
                 (update_query q append_match p) p'); [|auto| |exact H].
        -- eapply wf_transfer; [..|exact W]; try reflexivity.
           apply length_update_nth.
        -- intros _ q0 Q0. cbn [current_query update_query set_heap] in Q0.
           apply connected_In in N.
           destruct W as (_ & Wc & Wb & _).
           pose proof (Wc _ _ N) as Q1. rewrite Q0 in Q1. injection Q1 as ->.
           apply has_matches_appended. apply Wb. exact Q0.
      * injection H as <-. auto.
    + rewrite step_key_eq in H.
      apply (Hevent _ _ _ W T) in H; [exact H|]. intros X. discriminate X.
    + rewrite step_button_eq in H.
      apply (Hevent _ _ _ W T) in H; [exact H|]. intros X. discriminate X.
    + rewrite step_results_eq in H. eapply Hact; eauto.
    + rewrite step_actions_eq in H. eapply Hact; eauto.
    + rewrite step_surroundings_eq in H. injection H as <-. auto.
    + rewrite step_visibility_eq in H. eapply Hwindow; eauto.
    + rewrite step_currentChanged_eq in H. injection H as <-.
      destruct (results_setCurrentRow_cases row p) as [->|[->|(h & ->)]];
        auto.
Qed.

(** The same for a property of the configuration and of an observation that
    is blind to everything but the handlers of the machine. *)
Lemma reachable_observed {A : Type} (obs : Plugin -> A)
  (ok : list StateId -> A -> Prop) :
  (forall txt p, obs (set_input_line (setText txt) p) = obs p) ->
  (forall txt p, obs (on_textChanged txt p) = obs p) ->
  (forall q f p, obs (update_query q f p) = obs p) ->
  (forall c p, obs (call c p) = obs p) ->
  (forall s p, obs (history_add s p) = obs p) ->
  (forall visible p, obs (set_w_visible visible p) = obs p) ->
  (forall p, obs (trim_queries p) = obs p) ->
  (forall i p, obs (set_results_list (setCurrentIndex i) p) = obs p) ->
  (forall h p, obs (set_input_line (setInputHint h) p) = obs p) ->
  (forall a p, obs (set_ambient a p) = obs p) ->
  (forall e p p',
     inv p -> ok (configuration p) (obs p) -> processEvent e p = Ok p' ->
     ok (configuration p') (obs p')) ->
  (forall p p',
     inv p -> ok (configuration p) (obs p) ->
     processEvent (SignalEvent timeout) (set_display_delay_timer false p)
     = Ok p' ->
     ok (configuration p') (obs p')) ->
  (forall sf mf ma hist a p,
     Plugin_ctor sf mf ma hist a = Ok p -> ok (configuration p) (obs p)) ->
  forall p, reachable p -> ok (configuration p) (obs p).
Proof.
  intros Otext Oslot Oquery Ocall Ohist Ovisible Otrim Orow Ohint Oamb Hevent
    Htimeout Hctor.
  apply (reachable_invariant (fun p => ok (configuration p) (obs p))).
  - intros txt p T. rewrite Otext. exact T.
  - intros txt p p' W T H. rewrite emit_textChanged_eq in H.
    destruct (on_textChanged_view txt p) as [_ C].
    apply (Hevent (SignalEvent textChanged) (on_textChanged txt p) p');
      [| |exact H].
    + apply (on_textChanged_wf txt p W).
    + rewrite C, Oslot. exact T.
  - intros q p _ T. rewrite Oquery. exact T.
  - intros q p _ T. rewrite Oquery. exact T.
  - intros c p T. rewrite Ocall. exact T.
  - intros s p T. rewrite Ohist. exact T.
  - intros visible p T. rewrite Ovisible. exact T.
  - intros p T. rewrite Otrim. exact T.
  - intros row p T. rewrite Orow. exact T.
  - intros h p T. rewrite Ohint. exact T.
  - intros a p T. rewrite Oamb. exact T.
  - intros e p p' W T _ H. apply (Hevent e p p' (proj1 W) T H).
  - intros p p' W T H. apply (Htimeout p p' (proj1 W) T H).
  - exact Hctor.
Qed.

Lemma reachable_tidy p : reachable p -> tidy p.
Proof.
  apply (reachable_observed view (fun c v => view_ok c v = true));
    try reflexivity.
  - intros txt p0. apply on_textChanged_view.
  - intros e p0 p' I. apply processEvent_view_ok. apply I.
  - intros p0 p'. apply timeout_tidy.
  - intros sf mf ma hist a p0 H. vm_compute in H. injection H as <-.
    vm_compute. reflexivity.
Qed.

Lemma tidy_fields p :
  inv p -> tidy p ->
  lv_enabled (results_list (window p)) = negb (is_active s_results_postpone p)
  /\ (is_active s_results_hidden p = true ->
      lv_visible (results_list (window p)) = false)
  /\ (is_active s_results_visible p = true ->
      lv_visible (results_list (window p)) = true)
  /\ (is_active s_results_postpone p = true -> display_delay_timer p = true)
  /\ is_forward (opacity_animation p) = is_active s_button_shown p.
Proof.
  intros I T. rewrite !(active_is p _ I). unfold tidy, view_ok, view in T.
  cbn [v_enabled v_visible v_timer v_opacity] in T.
  apply andb_prop in T. destruct T as [T E2].
  apply andb_prop in T. destruct T as [T I3].
  apply andb_prop in T. destruct T as [T I2].
  apply andb_prop in T. destruct T as [E1 I1].
  apply eqb_prop in E1. apply eqb_prop in E2.
  split; [exact E1|]. split; [|split; [|split; [|exact E2]]].
  - intros H. rewrite H in I1. cbn [implb] in I1.
    apply negb_true_iff in I1. exact I1.
  - intros H. rewrite H in I2. exact I2.
  - intros H. rewrite H in I3. exact I3.
Qed.

(** X1: in every state reached from construction, the results list is
    disabled exactly while Results=Postponed is active. *)
Theorem results_list_disabled_iff_postponed :
  forall p,
    reachable p ->
    lv_enabled (results_list (window p))
    = negb (is_active s_results_postpone p).
Proof.
  intros p R.
  apply (tidy_fields p (proj1 (proj1 (reachable_wf p R))) (reachable_tidy p R)).
Qed.

Lemma results_list_disabled_iff_postponed_witness :
  lv_enabled
    (results_list
       (window
          (demo_state [input_textChanged "a"; query_rowsInserted 0;
                       input_textChanged "ab"])))
  = negb
      (is_active s_results_postpone
         (demo_state [input_textChanged "a"; query_rowsInserted 0;
                      input_textChanged "ab"])).
Proof.
  apply results_list_disabled_iff_postponed.
  apply demo_reachable. vm_compute. reflexivity.
Defined.

(** X2: in every state reached from construction, the results list is hidden
    while Results=Hidden is active and shown while Results=Visible is
    active. *)
Theorem results_list_visibility :
  forall p,
    reachable p ->
    (is_active s_results_hidden p = true ->
     lv_visible (results_list (window p)) = false) /\
    (is_active s_results_visible p = true ->
     lv_visible (results_list (window p)) = true).
Proof.
  intros p R.
  destruct (tidy_fields p (proj1 (proj1 (reachable_wf p R)))
              (reachable_tidy p R)) as (_ & H & V & _).
  split; assumption.
Qed.

Lemma results_list_visibility_witness :
  (is_active s_results_hidden
     (demo_state [input_textChanged "a"; query_rowsInserted 0]) = true ->
   lv_visible
     (results_list
        (window (demo_state [input_textChanged "a"; query_rowsInserted 0])))
   = false) /\
  (is_active s_results_visible
     (demo_state [input_textChanged "a"; query_rowsInserted 0]) = true ->
   lv_visible
     (results_list
        (window (demo_state [input_textChanged "a"; query_rowsInserted 0])))
   = true).
Proof.
  apply results_list_visibility.
  apply demo_reachable. vm_compute. reflexivity.
Defined.

(** X3: in every state reached from construction, the opacity animation of
    the settings button runs forward exactly while Button=Shown is active. *)
Theorem button_animation_direction :
  forall p,
    reachable p ->
    (opacity_animation p = Forward <-> is_active s_button_shown p = true).
Proof.
  intros p R.
  destruct (tidy_fields p (proj1 (proj1 (reachable_wf p R)))
              (reachable_tidy p R)) as (_ & _ & _ & _ & H).
  rewrite <- H. destruct (opacity_animation p); cbn; split; intros X;
    congruence.
Qed.

Lemma button_animation_direction_witness :
  opacity_animation (demo_state [button Enter]) = Forward <->
  is_active s_button_shown (demo_state [button Enter]) = true.
Proof.
  apply button_animation_direction.
  apply demo_reachable. vm_compute. reflexivity.
Defined.

(** X4: in every state reached from construction in which Results=Postponed
    is active the debounce timer is pending, and its expiry is processed
    and ends in Results=Hidden with the results list hidden and enabled
    again. *)
Theorem postponed_ends_on_timeout :
  forall p,
    reachable p ->
    is_active s_results_postpone p = true ->
    display_delay_timer p = true /\
    exists p',
      step timer_timeout p = Ok p' /\
      is_active s_results_hidden p' = true /\
      is_active s_results_postpone p' = false /\
      lv_visible (results_list (window p')) = false /\
      lv_enabled (results_list (window p')) = true /\
      display_delay_timer p' = false.
Proof.
  intros p R P.
  pose proof (proj1 (proj1 (reachable_wf p R))) as I.
  pose proof (reachable_tidy p R) as T.
  destruct (tidy_fields p I T) as (_ & _ & _ & D & _).
  specialize (D P). split; [exact D|].
  destruct (timeout_from_postponed p I T P) as (p' & E & H & N & V).
  exists p'. rewrite step_timer_eq, D.
  split; [exact E|]. split; [exact H|]. split; [exact N|].
  unfold view in V. injection V as V1 V2 V3 _. auto.
Qed.

Lemma postponed_ends_on_timeout_witness :
  display_delay_timer
    (demo_state [input_textChanged "a"; query_rowsInserted 0;
                 input_textChanged "ab"]) = true /\
  exists p',
    step timer_timeout
      (demo_state [input_textChanged "a"; query_rowsInserted 0;
                   input_textChanged "ab"]) = Ok p' /\
    is_active s_results_hidden p' = true /\
    is_active s_results_postpone p' = false /\
    lv_visible (results_list (window p')) = false /\
    lv_enabled (results_list (window p')) = true /\
    display_delay_timer p' = false.
Proof.
  apply postponed_ends_on_timeout.
  - apply demo_reachable. vm_compute. reflexivity.
  - vm_compute. reflexivity.
Defined.

(** X5: a change of the input text is always processed; it takes
    Results=Visible to Results=Postponed, where the results list stays on
    screen, disabled, with the debounce timer started, leaves Hidden and
    Postponed as they are, and ends with Button=Shown active.  It never
    shows or hides the results list. *)
Theorem text_change_postpones :
  forall p txt,
    reachable p ->
    exists p',
      step (input_textChanged txt) p = Ok p' /\
      is_active s_button_shown p' = true /\
      is_active s_results_visible p' = false /\
      is_active s_results_postpone p'
      = (is_active s_results_postpone p || is_active s_results_visible p) /\
      is_active s_results_hidden p' = is_active s_results_hidden p /\
      lv_visible (results_list (window p'))
      = lv_visible (results_list (window p)) /\
      (is_active s_results_visible p = true ->
       lv_enabled (results_list (window p')) = false /\
       display_delay_timer p' = true).
Proof.
  intros p txt R.
  pose proof (proj1 (reachable_wf p R)) as W.
  pose proof (proj1 W) as I.
  destruct (step_textChanged_spec txt p W) as (p' & E & W' & _).
  exists p'. split; [exact E|].
  rewrite step_textChanged_process in E.
  apply (processEvent_summary_unguarded (SignalEvent textChanged)) in E;
    [|reflexivity].
  destruct (on_textChanged_view txt (set_input_line (setText txt) p))
    as (V & C).
  rewrite V, C in E.
  change (configuration (set_input_line (setText txt) p))
    with (configuration p) in E.
  change (view (set_input_line (setText txt) p)) with (view p) in E.
  destruct E as (C' & V').
  rewrite !(active_is p' _ (proj1 W')), !(active_is p _ I), C'.
  assert (X : forall v w : View,
             v = w ->
             v_visible v = v_visible w /\ v_enabled v = v_enabled w /\
             v_timer v = v_timer w) by (intros ? ? ->; auto).
  apply X in V'. cbn [view v_visible v_enabled v_timer] in V'.
  destruct V' as (V1 & V2 & V3). rewrite V1, V2, V3.
  change (lv_visible (results_list (window p))) with (v_visible (view p)).
  generalize (view p). intros v.
  generalize (on_textChanged txt (set_input_line (setText txt) p)). intros o.
  each_config_of I; rewrite L; vm_compute; repeat split; auto;
    congruence.
Qed.

Lemma text_change_postpones_witness :
  exists p',
    step (input_textChanged "ab")
      (demo_state [input_textChanged "a"; query_rowsInserted 0]) = Ok p' /\
    is_active s_button_shown p' = true /\
    is_active s_results_visible p' = false /\
    is_active s_results_postpone p'
    = (is_active s_results_postpone
         (demo_state [input_textChanged "a"; query_rowsInserted 0])
       || is_active s_results_visible
            (demo_state [input_textChanged "a"; query_rowsInserted 0])) /\
    is_active s_results_hidden p'
    = is_active s_results_hidden
        (demo_state [input_textChanged "a"; query_rowsInserted 0]) /\
    lv_visible (results_list (window p'))
    = lv_visible
        (results_list
           (window (demo_state [input_textChanged "a"; query_rowsInserted 0])))
    /\
    (is_active s_results_visible
       (demo_state [input_textChanged "a"; query_rowsInserted 0]) = true ->
     lv_enabled (results_list (window p')) = false /\
     display_delay_timer p' = true).
Proof.
  apply text_change_postpones.
  apply demo_reachable. vm_compute. reflexivity.
Defined.

(** X6: with a current query, every event delivered to the machine in a
    legal configuration is processed, and Button=Shown is active afterwards
    exactly as follows: always after a text change or the pointer entering
    the settings button; after a finished query only if it was active and
    the pointer is over the input line; after the pointer leaving the
    settings button only if it was active and the current query has not
    finished; unchanged after every other event. *)
Theorem button_region :
  forall e p q,
    inv p ->
    current_query p = Some q ->
    exists p',
      processEvent e p = Ok p' /\
      is_active s_button_shown p'
      = match e with
        | SignalEvent textChanged | ButtonEvent Enter => true
        | SignalEvent queryFinsished =>
          is_active s_button_shown p && underMouse (ambient p)
        | ButtonEvent Leave =>
          is_active s_button_shown p && negb (q_isFinished (query_at p q))
        | _ => is_active s_button_shown p
        end.
Proof.
  intros e p q I Q.
  destruct (processEvent_next e p q I Q) as (p' & E & I' & _ & C).
  exists p'. split; [exact E|].
  rewrite (active_is p' _ I'), (active_is p _ I), C. unfold guards.
  generalize (key_is (mods_keys (mod_fallback p)) e);
  generalize (key_is (mods_keys (mod_actions p)) e);
  generalize (show_fallbacks_on_empty_query p);
  generalize (0 <? rowCount p (fallbacks q));
  generalize (negb (rowCount p (matches q) =? 0));
  generalize (underMouse (ambient p));
  generalize (q_isFinished (query_at p q)).
  intros fin um m fb sh ka kf.
  each_config_of I; rewrite L; destruct e as [[]|[] k|[]];
    destruct fin, um, m, fb, sh, ka, kf; vm_compute; reflexivity.
Qed.

Lemma button_region_witness :
  exists p',
    processEvent (ButtonEvent Leave) (demo_state [input_textChanged "a"])
    = Ok p' /\
    is_active s_button_shown p'
    = (is_active s_button_shown (demo_state [input_textChanged "a"])
       && negb (q_isFinished
                  (query_at (demo_state [input_textChanged "a"]) 0))).
Proof.
  apply (button_region (ButtonEvent Leave)
           (demo_state [input_textChanged "a"]) 0).
  - split; vm_compute; reflexivity.
  - vm_compute. reflexivity.
Defined.

(** ** Event filters of the input line *)

Lemma entered_filters_ok s p p' :
  entered s p = Ok p' -> In (filters p') (entered_filters s (filters p)).
Proof.
  intros H. destruct s; cbn in H; unfold bind, deref in H;
    repeat (break_match_hyp H; cbn in H); try discriminate;
    injection H as <-; cbn; auto.
Qed.

Lemma exited_filters_ok s p :
  filters (exited s p) = exited_filters s (filters p).
Proof. destruct s; reflexivity. Qed.

Lemma fold_entered_filters_incl (l : list StateId) :
  forall a b : list Filters,
    incl a b ->
    incl (fold_left (fun xs s => flat_map (entered_filters s) xs) l a)
         (fold_left (fun xs s => flat_map (entered_filters s) xs) l b).
Proof.
  induction l as [|s l IH]; cbn [fold_left]; intros a b S; [exact S|].
  apply IH. intros u U. apply in_flat_map in U. destruct U as (v & V & U).
  apply in_flat_map. exists v. split; [apply S; exact V|exact U].
Qed.

Lemma enterStates_filters l : forall p p',
  enterStates l p = Ok p' ->
  In (filters p')
     (fold_left (fun xs s => flat_map (entered_filters s) xs) l [filters p]).
Proof.
  induction l as [|s l IH]; cbn [enterStates fold_left]; intros p p' H.
  - injection H as <-. left. reflexivity.
  - destruct (entered s _) as [p1| |] eqn:E; cbn [bind] in H; try discriminate.
    apply entered_filters_ok in E. apply IH in H.
    change (filters (set_active (insert s (active p1)) p1))
      with (filters p1) in H.
    change (filters (set_configuration (insert s (configuration p)) p))
      with (filters p) in E.
    cbn [flat_map]. rewrite app_nil_r.
    apply (fold_entered_filters_incl l [filters p1]); [|exact H].
    intros u [<-|[]]. exact E.
Qed.

Lemma exitStates_filters l : forall p,
  filters (exitStates l p)
  = fold_left (fun x s => exited_filters s x) l (filters p).
Proof.
  unfold exitStates. induction l as [|s l IH]; cbn [fold_left]; intros p;
    [reflexivity|].
  rewrite IH, exited_filters_ok. reflexivity.
Qed.

Lemma microstep_filters_ok ts p p' :
  microstep ts p = Ok p' ->
  In (filters p') (microstep_filters (configuration p) ts (filters p)).
Proof.
  unfold microstep, microstep_filters. intros H.
  apply enterStates_filters in H. rewrite exitStates_filters in H. exact H.
Qed.

Lemma same_filters_eq a : forall b, same_filters a b = true -> a = b.
Proof.
  induction a as [|x a IH]; destruct b as [|y b]; cbn; intros H;
    try discriminate; [reflexivity|].
  apply andb_prop in H. destruct H as [H1 H2].
  apply internal_FilterObj_dec_bl in H1. f_equal; auto.
Qed.

Lemma filters_ok_expected config x :
  filters_ok config x = true ->
  x = expected_filters config (f_actions x) /\
  implb (f_actions x) (mem s_results_actions_visible config) = true.
Proof.
  unfold filters_ok. intros H. apply andb_prop in H. destruct H as [H1 H2].
  split; [|exact H2]. apply same_filters_eq in H1.
  destruct x as [l a]. cbn in *. rewrite H1. reflexivity.
Qed.

(** Whatever the conditions evaluate to, and whether or not a row is
    selected, a microstep keeps the filters in line with the configuration. *)
Lemma candidates_filters_ok p config :
  legal config = true ->
  forallb
    (fun en =>
       let ts := removeConflictingTransitions config en in
       match ts with
       | [] => true
       | _ => forallb
                (fun shown =>
                   implb (implb shown (mem s_results_actions_visible config))
                     (forallb (filters_ok (after_entry config ts))
                        (microstep_filters config ts
                           (expected_filters config shown))))
                [true; false]
       end)
    (candidates p (atoms_of config)) = true.
Proof.
  intros H. each_config H; subst config; vm_compute; reflexivity.
Qed.

Lemma processEvent_filters_ok e p p' :
  inv p ->
  filters_ok (configuration p) (filters p) = true ->
  processEvent e p = Ok p' ->
  filters_ok (configuration p') (filters p') = true.
Proof.
  intros I V H. apply processEvent_candidates in H.
  destruct H as (en & En & H).
  pose proof (candidates_filters_ok p _ (proj1 I)) as C.
  rewrite forallb_forall in C. specialize (C en En). cbv zeta in C.
  destruct (removeConflictingTransitions (configuration p) en) as [|t ts].
  - subst p'. exact V.
  - apply filters_ok_expected in V. destruct V as [V1 V2].
    rewrite forallb_forall in C.
    assert (B : In (f_actions (filters p)) [true; false]).
    { destruct (f_actions (filters p)); cbn; auto. }
    specialize (C _ B). rewrite V2 in C. cbn [implb] in C.
    rewrite forallb_forall in C.
    destruct (microstep_spec _ _ _ H) as (Hc & _). rewrite Hc.
    apply C. rewrite <- V1. apply microstep_filters_ok. exact H.
Qed.

Lemma reachable_filters p :
  reachable p -> filters_ok (configuration p) (filters p) = true.
Proof.
  apply (reachable_observed filters (fun c x => filters_ok c x = true));
    try reflexivity.
  - intros txt p0. unfold on_textChanged, release_current.
    destruct (current_query p0); reflexivity.
  - intros e p0 p' I. apply processEvent_filters_ok. exact I.
  - intros p0 p' I V H.
    apply (processEvent_filters_ok (SignalEvent timeout)
             (set_display_delay_timer false p0) p');
      [|exact V|exact H].
    destruct I as [I1 I2]. split; assumption.
  - intros sf mf ma hist a p0 H. vm_compute in H. injection H as <-.
    vm_compute. reflexivity.
Qed.



(** X8: in every state reached from construction the actions list is on
    screen only while Actions=Shown is active. *)
Theorem actions_list_shown_only_in_shown :
  forall p,
    reachable p ->
    lv_visible (actions_list (window p)) = true ->
    is_active s_results_actions_visible p = true.
Proof.
  intros p R V.
  pose proof (proj1 (proj1 (reachable_wf p R))) as I.
  destruct (filters_ok_expected _ _ (reachable_filters p R)) as [_ E].
  rewrite (active_is p _ I).
  change (f_actions (filters p)) with (lv_visible (actions_list (window p)))
    in E.
  rewrite V in E. exact E.
Qed.

Lemma actions_list_shown_only_in_shown_witness :
  is_active s_results_actions_visible
    (demo_state [input_textChanged "a"; query_rowsInserted 0;
                 key KeyPress Key_Alt]) = true.
Proof.
  apply actions_list_shown_only_in_shown.
  - apply demo_reachable. vm_compute. reflexivity.
  - vm_compute. reflexivity.
Defined.

(** ** What the results list shows *)

Lemma has_rows_heap p p' q :
  heap p' = heap p ->
  has_matches p' q = has_matches p q /\
  has_fallbacks p' q = has_fallbacks p q.
Proof.
  intros H. unfold has_matches, has_fallbacks, rowCount, query_at.
  rewrite H. split; reflexivity.
Qed.

Lemma bound_kind_matches q : bound_kind q (Some (matches q)) = bound_matches.
Proof. cbn. rewrite Nat.eqb_refl. reflexivity. Qed.

Lemma bound_kind_fallbacks q :
  bound_kind q (Some (fallbacks q)) = bound_fallbacks.
Proof. cbn. rewrite Nat.eqb_refl. reflexivity. Qed.

Lemma bound_kind_is_matches q m :
  bound_kind q m = bound_matches <-> m = Some (matches q).
Proof.
  split; [|intros ->; apply bound_kind_matches].
  destruct m as [[q'|q'|q' r|q' r]|]; cbn; try discriminate;
    destruct (q' =? q) eqn:E; try discriminate.
  apply Nat.eqb_eq in E. subst. reflexivity.
Qed.

Lemma bound_kind_is_fallbacks q m :
  bound_kind q m = bound_fallbacks <-> m = Some (fallbacks q).
Proof.
  split; [|intros ->; apply bound_kind_fallbacks].
  destruct m as [[q'|q'|q' r|q' r]|]; cbn; try discriminate;
    destruct (q' =? q) eqn:E; try discriminate.
  apply Nat.eqb_eq in E. subst. reflexivity.
Qed.

Lemma entered_shown_ok s p p' q :
  entered s p = Ok p' -> current_query p = Some q ->
  shown q p' = entered_shown (has_matches p q) (has_fallbacks p q) s (shown q p).
Proof.
  intros H Q.
  destruct (StateId_eq_dec s s_results_model_matches) as [->|M].
  { cbn [entered] in H. rewrite Q in H. cbn [deref bind] in H.
    injection H as <-. unfold shown, has_matches.
    cbn [entered_shown]. f_equal.
    - match goal with
      | |- bound_kind q (lv_model (results_list (window ?x))) = _ =>
        assert (X : lv_model (results_list (window x)) = Some (matches q))
      end.
      { destruct (index00 _ (matches q));
          [destruct (isEmpty _)|]; reflexivity. }
      rewrite X. apply bound_kind_matches.
    - match goal with
      | |- has_row (lv_currentIndex (results_list (window ?x))) = _ =>
        assert (X : lv_currentIndex (results_list (window x))
                    = index00 p (matches q))
      end.
      { unfold index00 at 1 2.
        change (rowCount (disconnect q sig_rowsInserted
                            (set_results_list (setModel (matches q)) p))
                         (matches q))
          with (rowCount p (matches q)).
        destruct (0 <? rowCount p (matches q));
          [destruct (isEmpty _)|]; reflexivity. }
      rewrite X. unfold index00. destruct (0 <? _); reflexivity. }
  destruct (StateId_eq_dec s s_results_model_fallbacks) as [->|F].
  { unfold shown, has_fallbacks. cbn [entered_shown s_kind].
    destruct (bound_kind q (lv_model (results_list (window p)))) eqn:K.
    - assert (B : lv_model (results_list (window p)) <> Some (fallbacks q)).
      { intros X. rewrite X, bound_kind_fallbacks in K. discriminate. }
      rewrite (entered_fallbacks_rebinds p q Q B) in H. injection H as <-.
      cbn [window set_results_list set_window results_list show lv_model
           lv_currentIndex setCurrentIndex setModel].
      rewrite bound_kind_fallbacks. unfold index00.
      destruct (0 <? rowCount p (fallbacks q)); reflexivity.
    - apply bound_kind_is_fallbacks in K.
      rewrite (entered_fallbacks_bound p q Q K) in H. injection H as <-.
      cbn [window set_results_list set_window results_list show lv_model
           lv_currentIndex].
      rewrite K, bound_kind_fallbacks. reflexivity.
    - assert (B : lv_model (results_list (window p)) <> Some (fallbacks q)).
      { intros X. rewrite X, bound_kind_fallbacks in K. discriminate. }
      rewrite (entered_fallbacks_rebinds p q Q B) in H. injection H as <-.
      cbn [window set_results_list set_window results_list show lv_model
           lv_currentIndex setCurrentIndex setModel].
      rewrite bound_kind_fallbacks. unfold index00.
      destruct (0 <? rowCount p (fallbacks q)); reflexivity. }
  pose proof (entered_selection s p p' H M F) as S.
  unfold selection in S. injection S as S1 S2.
  unfold shown. rewrite S1, S2. destruct s; try contradiction; reflexivity.
Qed.

Lemma enterStates_shown l : forall p p' q,
  enterStates l p = Ok p' -> current_query p = Some q ->
  shown q p'
  = fold_left (fun x s => entered_shown (has_matches p q) (has_fallbacks p q)
                            s x) l (shown q p).
Proof.
  induction l as [|s l IH]; cbn [enterStates fold_left]; intros p p' q H Q.
  - injection H as <-. reflexivity.
  - destruct (entered s _) as [p1| |] eqn:E; cbn [bind] in H; try discriminate.
    pose proof (entered_stable _ _ _ E) as (_ & _ & S).
    pose proof (entered_shown_ok _ _ _ q E Q) as X.
    apply (IH _ _ q) in H.
    + rewrite H.
      change (shown q (set_active (insert s (active p1)) p1))
        with (shown q p1).
      rewrite X.
      destruct (has_rows_heap p (set_active (insert s (active p1)) p1) q)
        as [-> ->]; [|reflexivity].
      cbn [heap set_active]. rewrite (st_heap S). reflexivity.
    + cbn [current_query set_active]. rewrite (st_current_query S). exact Q.
Qed.

Lemma exitStates_shown l p q : shown q (exitStates l p) = shown q p.
Proof.
  pose proof (exitStates_selection l p) as S. unfold selection in S.
  injection S as S1 S2. unfold shown. rewrite S1, S2. reflexivity.
Qed.

Lemma processEvent_shown_eq e p q p' :
  current_query p = Some q ->
  processEvent e p = Ok p' ->
  shown q p'
  = fold_left (fun x s => entered_shown (has_matches p q) (has_fallbacks p q)
                            s x)
      (entry_list e (guards e p q) p (configuration p)) (shown q p).
Proof.
  intros Q H. rewrite (processEvent_exact e p q Q) in H.
  unfold entry_list.
  destruct (selected _ p (configuration p)) as [|t ts].
  - injection H as <-. reflexivity.
  - unfold microstep in H.
    apply (enterStates_shown _ _ _ q) in H.
    + rewrite H, exitStates_shown.
      destruct (has_rows_heap p
                  (exitStates (computeExitSet (configuration p) (t :: ts)) p)
                  q) as [-> ->]; [|reflexivity].
      apply (st_heap (proj2 (proj2 (exitStates_spec _ _)))).
    + rewrite (st_current_query (proj2 (proj2 (exitStates_spec _ _)))).
      exact Q.
Qed.

(** Delivering an event keeps the results list in line, provided
    [resultsReady] only comes from a query with a match. *)
Lemma processEvent_shown e p q p' :
  inv p -> current_query p = Some q ->
  shown_ok (configuration p) (has_matches p q) (has_fallbacks p q) (shown q p)
  = true ->
  (e = SignalEvent resultsReady -> has_matches p q = true) ->
  processEvent e p = Ok p' ->
  shown_ok (configuration p') (has_matches p' q) (has_fallbacks p' q)
    (shown q p') = true.
Proof.
  intros I Q V RR H.
  destruct (processEvent_next e p q I Q) as (p1 & E & _ & S & C).
  rewrite H in E. injection E as <-.
  rewrite (processEvent_shown_eq e p q p' Q H), C.
  destruct (has_rows_heap p p' q (st_heap S)) as [-> ->].
  unfold has_matches, has_fallbacks in *.
  revert V RR. unfold guards. rewrite eqb0_ltb, negb_involutive.
  generalize (shown q p).
  generalize (key_is (mods_keys (mod_fallback p)) e);
  generalize (key_is (mods_keys (mod_actions p)) e);
  generalize (show_fallbacks_on_empty_query p);
  generalize (0 <? rowCount p (fallbacks q));
  generalize (0 <? rowCount p (matches q));
  generalize (underMouse (ambient p));
  generalize (q_isFinished (query_at p q)).
  intros fin um gm gf sh ka kf [k r] V RR.
  each_config_of I; rewrite L in *;
    destruct e as [[]|[] key|[]];
    try (specialize (RR eq_refl); subst gm);
    try clear RR.
  (* one case per configuration, event kind and values the selection reads *)
  all: destruct gf, k, r; try destruct gm; try discriminate V;
    lazymatch goal with
    | |- context [next_configuration (SignalEvent queryFinsished)] =>
      destruct sh, um
    | |- context [next_configuration (KeyEvent _ _)] => destruct kf, ka
    | |- context [next_configuration (ButtonEvent Leave)] => destruct fin
    | |- _ => idtac
    end; vm_compute; reflexivity.
Qed.

Lemma has_rows_finish q' p q :
  has_matches (update_query q' finish p) q = has_matches p q /\
  has_fallbacks (update_query q' finish p) q = has_fallbacks p q.
Proof.
  unfold has_matches, has_fallbacks, rowCount, query_at, update_query.
  cbn [heap set_heap].
  rewrite (update_nth_field q_matches finish), (update_nth_field q_fallbacks finish)
    by reflexivity.
  split; reflexivity.
Qed.

Lemma has_fallbacks_append q' p q :
  has_fallbacks (update_query q' append_match p) q = has_fallbacks p q.
Proof.
  unfold has_fallbacks, rowCount, query_at, update_query.
  cbn [heap set_heap].
  rewrite (update_nth_field q_fallbacks append_match) by reflexivity.
  reflexivity.
Qed.

Lemma shown_ok_mono config gm gm' gf x :
  (gm = true -> gm' = true) ->
  shown_ok config gm gf x = true -> shown_ok config gm' gf x = true.
Proof.
  unfold shown_ok. intros M.
  destruct gm; [rewrite (M eq_refl); auto|].
  destruct (mem s_results_model_matches config), (is_matches (s_kind x)), gm';
    cbn [implb andb]; auto; discriminate.
Qed.

Lemma bound_kind_other q m :
  (forall x, m = Some x -> model_query x < q) ->
  bound_kind q m = bound_other.
Proof.
  intros H. destruct m as [[q'|q'|q' r|q' r]|]; cbn; try reflexivity;
    specialize (H _ eq_refl); cbn in H;
    destruct (q' =? q) eqn:E; try reflexivity;
    apply Nat.eqb_eq in E; lia.
Qed.

(** After a text change nothing of the new query is bound yet. *)
Lemma emit_textChanged_bound txt p p' :
  wf p -> emit_textChanged txt p = Ok p' -> bound_inv p'.
Proof.
  intros W H.
  destruct (emit_textChanged_spec txt p W) as (p1 & E & W1 & S & V & M & F).
  rewrite H in E. injection E as <-.
  pose proof (on_textChanged_spec txt p (proj1 (proj2 W))) as O.
  cbv zeta in O. destruct O as (_ & _ & OQ & _ & _ & OM & _).
  pose proof (on_textChanged_wf txt p W) as Wo.
  assert (T : selection p' = selection (on_textChanged txt p)).
  { apply (textChanged_selection _ (List.length (heap p)) p');
      [apply Wo|exact OQ|].
    rewrite <- H. symmetry. apply emit_textChanged_eq. }
  intros q Q. rewrite (st_current_query S), OQ in Q. injection Q as <-.
  rewrite !(active_is p' _ (proj1 W1)) in *.
  unfold shown_ok. rewrite M, F. cbn [implb andb].
  unfold shown. cbn [s_kind].
  replace (lv_model (results_list (window p')))
    with (lv_model (results_list (window p))).
  - rewrite bound_kind_other; [reflexivity|].
    intros x X. apply (proj2 (proj2 (proj2 W))). exact X.
  - rewrite <- OM. unfold selection in T. injection T as T _. symmetry.
    exact T.
Qed.

Lemma processEvent_bound e p p' :
  wf p -> bound_inv p ->
  (e = SignalEvent resultsReady ->
   forall q, current_query p = Some q -> has_matches p q = true) ->
  processEvent e p = Ok p' -> bound_inv p'.
Proof.
  intros W B RR H q Q.
  pose proof (processEvent_inv e p (proj1 W)) as O. rewrite H in O.
  destruct O as [_ S]. rewrite (st_current_query S) in Q.
  apply (processEvent_shown e p q p' (proj1 W) Q (B q Q)); [|exact H].
  intros X. apply (RR X q Q).
Qed.

Lemma reachable_bound p : reachable p -> bound_inv p.
Proof.
  apply (reachable_invariant bound_inv).
  - intros txt p0 B. exact B.
  - intros txt p0 p' W _. apply emit_textChanged_bound. exact W.
  - intros q' p0 _ B q Q. specialize (B q Q).
    destruct (has_rows_finish q' p0 q) as [-> ->]. exact B.
  - intros q' p0 _ B q Q. specialize (B q Q).
    rewrite has_fallbacks_append.
    apply (shown_ok_mono _ (has_matches p0 q)); [|exact B].
    apply has_matches_append.
  - intros c p0 B. exact B.
  - intros s p0 B. exact B.
  - intros visible p0 B. exact B.
  - intros p0 B. exact B.
  - intros row p0 B q Q. specialize (B q Q). revert B.
    change (shown q (set_results_list (setCurrentIndex (Some row)) p0))
      with {| s_kind := s_kind (shown q p0); s_row := true |}.
    change (configuration (set_results_list (setCurrentIndex (Some row)) p0))
      with (configuration p0).
    change (has_matches (set_results_list (setCurrentIndex (Some row)) p0) q)
      with (has_matches p0 q).
    change (has_fallbacks (set_results_list (setCurrentIndex (Some row)) p0) q)
      with (has_fallbacks p0 q).
    unfold shown_ok. cbn [s_kind s_row]. intros B.
    apply andb_prop in B. destruct B as [-> _].
    destruct (is_bound _); reflexivity.
  - intros h p0 B. exact B.
  - intros a p0 B. exact B.
  - intros e p0 p'. apply processEvent_bound.
  - intros p0 p' W B H.
    apply (processEvent_bound (SignalEvent timeout)
             (set_display_delay_timer false p0) p'); [|exact B| |exact H].
    + eapply wf_transfer; [..|exact W]; reflexivity.
    + intros X. discriminate X.
  - intros sf mf ma hist a p0 H.
    destruct (ctor_spec sf mf ma hist a) as (p1 & E & _ & _ & Q).
    rewrite H in E. injection E as <-. intros q Q'. congruence.
Qed.

(** *** No query, no results *)

Lemma enterStates_needs_query l : forall p p',
  current_query p = None -> enterStates l p = Ok p' ->
  mem s_results_model_matches l = false /\
  mem s_results_model_fallbacks l = false.
Proof.
  induction l as [|s l IH]; cbn [enterStates]; intros p p' Q H.
  - split; reflexivity.
  - destruct (entered s _) as [p1| |] eqn:E; cbn [bind] in H; try discriminate.
    pose proof (entered_stable _ _ _ E) as (_ & _ & S).
    apply IH in H.
    + destruct s; try (cbn; exact H); cbn [entered] in E;
        cbn [current_query set_configuration] in E; rewrite Q in E;
        discriminate E.
    + cbn [current_query set_active]. rewrite (st_current_query S). exact Q.
Qed.

Lemma candidates_need_query p config :
  legal config = true ->
  forallb
    (fun en =>
       let ts := removeConflictingTransitions config en in
       match ts with
       | [] => true
       | _ => implb (negb (mem s_results_visible config) &&
                     negb (mem s_results_model_matches (computeEntrySet ts)) &&
                     negb (mem s_results_model_fallbacks (computeEntrySet ts)))
                    (negb (mem s_results_visible (after_entry config ts)))
       end)
    (candidates p (atoms_of config)) = true.
Proof.
  intros H. each_config H; subst config; vm_compute; reflexivity.
Qed.

Lemma processEvent_no_query e p p' :
  inv p -> visible_needs_query p -> processEvent e p = Ok p' ->
  visible_needs_query p'.
Proof.
  intros I V H Q'.
  pose proof (processEvent_inv e p I) as O. rewrite H in O.
  destruct O as [_ S].
  assert (Q : current_query p = None).
  { rewrite <- (st_current_query S). exact Q'. }
  specialize (V Q).
  apply processEvent_candidates in H. destruct H as (en & En & H).
  pose proof (candidates_need_query p _ (proj1 I)) as C.
  rewrite forallb_forall in C. specialize (C en En). cbv zeta in C.
  destruct (removeConflictingTransitions (configuration p) en) as [|t ts].
  - subst p'. exact V.
  - destruct (microstep_spec _ _ _ H) as (Hc & _). rewrite Hc.
    unfold microstep in H. apply enterStates_needs_query in H.
    + destruct H as [H1 H2]. rewrite H1, H2, V in C.
      cbn [negb andb implb] in C.
      apply negb_true_iff in C. exact C.
    + rewrite (st_current_query (proj2 (proj2 (exitStates_spec _ _)))).
      exact Q.
Qed.

Lemma reachable_needs_query p : reachable p -> visible_needs_query p.
Proof.
  apply (reachable_invariant visible_needs_query).
  - intros txt p0 B. exact B.
  - intros txt p0 p' W _ H Q.
    destruct (emit_textChanged_spec txt p0 W) as (p1 & E & _ & S & _).
    rewrite H in E. injection E as <-.
    pose proof (on_textChanged_spec txt p0 (proj1 (proj2 W))) as O.
    cbv zeta in O. destruct O as (_ & _ & OQ & _).
    rewrite (st_current_query S), OQ in Q. discriminate Q.
  - intros q' p0 _ B. exact B.
  - intros q' p0 _ B. exact B.
  - intros c p0 B. exact B.
  - intros s p0 B. exact B.
  - intros visible p0 B. exact B.
  - intros p0 B. exact B.
  - intros row p0 B. exact B.
  - intros h p0 B. exact B.
  - intros a p0 B. exact B.
  - intros e p0 p' W B _. apply processEvent_no_query; [apply W|exact B].
  - intros p0 p' W B.
    apply (processEvent_no_query (SignalEvent timeout)
             (set_display_delay_timer false p0) p'); [|exact B].
    destruct W as [[I1 I2] _]. split; assumption.
  - intros sf mf ma hist a p0 H. vm_compute in H. injection H as <-.
    intros _. vm_compute. reflexivity.
Qed.

Lemma reachable_visible_bound :
  forall p,
    reachable p ->
    is_active s_results_visible p = true ->
    exists q,
      current_query p = Some q /\
      let m := if is_active s_results_model_matches p
               then matches q else fallbacks q in
      lv_model (results_list (window p)) = Some m /\
      0 < rowCount p m /\
      lv_currentIndex (results_list (window p)) <> None.
Proof.
  intros p R V.
  pose proof (proj1 (proj1 (reachable_wf p R))) as I.
  pose proof (reachable_needs_query p R) as N.
  pose proof (reachable_bound p R) as B.
  rewrite (active_is p s_results_visible I) in V.
  rewrite (active_is p s_results_model_matches I).
  destruct (current_query p) as [q|] eqn:Q;
    [|rewrite (N Q) in V; discriminate V].
  exists q. split; [reflexivity|]. cbv zeta.
  specialize (B q Q). unfold shown_ok, shown in B.
  cbn [s_kind s_row] in B.
  unfold has_matches, has_fallbacks in B.
  destruct (bound_kind q (lv_model (results_list (window p)))) eqn:K;
    [apply bound_kind_is_matches in K|apply bound_kind_is_fallbacks in K|];
    destruct (lv_currentIndex (results_list (window p)));
    destruct (0 <? rowCount p (matches q)) eqn:M;
    destruct (0 <? rowCount p (fallbacks q)) eqn:F;
    rewrite ?Nat.ltb_lt in *;
    each_config_of I; rewrite L in *; try discriminate V;
    try discriminate B;
    (split; [exact K|split; [assumption|discriminate]]).
Qed.

(** X9: in every state reached from construction in which Results=Visible is
    active there is a current query, the results list is bound to its
    matches while Model=Matches is active and to its fallbacks otherwise,
    that model has at least one row, and the list has a current row. *)
Theorem visible_shows_current_query :
  forall p,
    reachable p ->
    is_active s_results_visible p = true ->
    exists q,
      current_query p = Some q /\
      let m := if is_active s_results_model_matches p
               then matches q else fallbacks q in
      lv_model (results_list (window p)) = Some m /\
      0 < rowCount p m /\
      lv_currentIndex (results_list (window p)) <> None.
Proof. exact reachable_visible_bound. Qed.

Lemma visible_shows_current_query_witness :
  exists q,
    current_query
      (demo_state [input_textChanged "a"; query_rowsInserted 0]) = Some q /\
    let m := if is_active s_results_model_matches
                  (demo_state [input_textChanged "a"; query_rowsInserted 0])
             then matches q else fallbacks q in
    lv_model
      (results_list
         (window (demo_state [input_textChanged "a"; query_rowsInserted 0])))
    = Some m /\
    0 < rowCount (demo_state [input_textChanged "a"; query_rowsInserted 0]) m
    /\
    lv_currentIndex
      (results_list
         (window (demo_state [input_textChanged "a"; query_rowsInserted 0])))
    <> None.
Proof.
  apply visible_shows_current_query.
  - apply demo_reachable. vm_compute. reflexivity.
  - vm_compute. reflexivity.
Defined.

(** ** The Actions region and the queries created *)

(** X10: with a current query, every event delivered to the machine in a
    legal configuration is processed, and Actions=Shown is active afterwards
    exactly as follows: after a key press, if it was active or Actions=Hidden
    was and the key is the actions modifier; after a key release, if it was
    active, the key is not the actions modifier and the release does not
    hide the results (the fallback modifier released in Model=Fallbacks
    without a match); never after a text change; unchanged after every
    other event. *)
Theorem actions_region :
  forall e p q,
    inv p ->
    current_query p = Some q ->
    exists p',
      processEvent e p = Ok p' /\
      is_active s_results_actions_visible p'
      = match e with
        | KeyEvent KeyPress k =>
          is_active s_results_actions_visible p
          || (is_active s_results_actions_hidden p
              && Key_beq (mods_keys (mod_actions p)) k)
        | KeyEvent KeyRelease k =>
          is_active s_results_actions_visible p
          && negb (Key_beq (mods_keys (mod_actions p)) k)
          && negb (Key_beq (mods_keys (mod_fallback p)) k
                   && is_active s_results_model_fallbacks p
                   && (rowCount p (matches q) =? 0))
        | SignalEvent textChanged => false
        | _ => is_active s_results_actions_visible p
        end.
Proof.
  intros e p q I Q.
  destruct (processEvent_next e p q I Q) as (p' & E & I' & _ & C).
  exists p'. split; [exact E|].
  rewrite (active_is p' _ I'), !(active_is p _ I), C. unfold guards.
  assert (X : forall k, key_is k e = match e with
                                     | KeyEvent _ k' => Key_beq k k'
                                     | _ => false
                                     end) by reflexivity.
  destruct (rowCount p (matches q)) as [|n]; cbn [Nat.eqb negb];
  generalize (show_fallbacks_on_empty_query p);
  generalize (0 <? rowCount p (fallbacks q));
  generalize (underMouse (ambient p));
  generalize (q_isFinished (query_at p q));
  intros fin um fb sh;
  each_config_of I; rewrite L; destruct e as [[]|[] k|[]];
    unfold key_is;
    try (destruct (Key_beq (mods_keys (mod_actions p)) k),
                  (Key_beq (mods_keys (mod_fallback p)) k));
    destruct fin, um, fb, sh; vm_compute; reflexivity.
Qed.

Lemma actions_region_witness :
  exists p',
    processEvent (KeyEvent KeyPress Key_Alt)
      (demo_state [input_textChanged "a"; query_rowsInserted 0]) = Ok p' /\
    is_active s_results_actions_visible p'
    = (is_active s_results_actions_visible
         (demo_state [input_textChanged "a"; query_rowsInserted 0])
       || (is_active s_results_actions_hidden
             (demo_state [input_textChanged "a"; query_rowsInserted 0])
           && Key_beq
                (mods_keys
                   (mod_actions
                      (demo_state [input_textChanged "a";
                                   query_rowsInserted 0])))
                Key_Alt)).
Proof.
  apply (actions_region (KeyEvent KeyPress Key_Alt)
           (demo_state [input_textChanged "a"; query_rowsInserted 0]) 0).
  - split; vm_compute; reflexivity.
  - vm_compute. reflexivity.
Defined.

(** *** The queries the plugin has created *)

Lemma on_textChanged_heap txt p :
  heap (on_textChanged txt p)
  = match current_query p with
    | Some old =>
      update_nth old
        (fun x =>
           {| q_string := q_string x; q_matches := q_matches x;
              q_fallbacks := q_fallbacks x;
              q_matchActions := q_matchActions x;
              q_fallbackActions := q_fallbackActions x;
              q_isFinished := q_isFinished x; q_canceled := true;
              q_running := q_running x |}) (heap p)
    | None => heap p
    end ++
    [{| q_string := txt; q_matches := 0;
        q_fallbacks := q_fallbacks (engine (ambient p) txt);
        q_matchActions := q_matchActions (engine (ambient p) txt);
        q_fallbackActions := q_fallbackActions (engine (ambient p) txt);
        q_isFinished := false; q_canceled := false; q_running := true |}].
Proof.
  unfold on_textChanged, query. set (r := release_current p).
  cbn -[release_current]. rewrite update_nth_app. cbn.
  replace (ambient r) with (ambient p)
    by (subst r; unfold release_current; destruct (current_query p);
        reflexivity).
  f_equal. subst r. unfold release_current.
  destruct (current_query p); reflexivity.
Qed.

Lemma on_textChanged_cancels txt p :
  wf p -> superseded_cancelled p -> superseded_cancelled (on_textChanged txt p).
Proof.
  intros W P i L.
  pose proof (on_textChanged_spec txt p (proj1 (proj2 W))) as O.
  cbv zeta in O. destruct O as (_ & _ & OQ & OL & _).
  rewrite OQ. rewrite OL in L. unfold query_at.
  rewrite on_textChanged_heap.
  assert (Len : List.length
                  match current_query p with
                  | Some old =>
                    update_nth old
                      (fun x =>
                         {| q_string := q_string x; q_matches := q_matches x;
                            q_fallbacks := q_fallbacks x;
                            q_matchActions := q_matchActions x;
                            q_fallbackActions := q_fallbackActions x;
                            q_isFinished := q_isFinished x; q_canceled := true;
                            q_running := q_running x |}) (heap p)
                  | None => heap p
                  end = List.length (heap p)).
  { destruct (current_query p); [apply length_update_nth|reflexivity]. }
  destruct (Nat.eq_dec i (List.length (heap p))) as [->|N].
  - rewrite <- Len at 1. rewrite nth_length_app, Nat.eqb_refl. reflexivity.
  - assert (Li : i < List.length (heap p)) by lia.
    rewrite app_nth1 by (rewrite Len; exact Li).
    apply Nat.eqb_neq in N. rewrite N. cbn [negb].
    specialize (P i Li). unfold query_at in P.
    destruct (current_query p) as [old|].
    + destruct (Nat.eq_dec old i) as [->|M].
      * rewrite nth_update_nth by exact Li. reflexivity.
      * rewrite nth_update_nth_other by exact M. rewrite P.
        apply Nat.eqb_neq in M. rewrite Nat.eqb_sym, M. reflexivity.
    + exact P.
Qed.

Lemma superseded_transfer p p' :
  heap p' = heap p -> current_query p' = current_query p ->
  superseded_cancelled p -> superseded_cancelled p'.
Proof.
  unfold superseded_cancelled, query_at. intros -> ->. auto.
Qed.

Lemma superseded_update q f p :
  (forall x, q_canceled (f x) = q_canceled x) ->
  superseded_cancelled p -> superseded_cancelled (update_query q f p).
Proof.
  intros F P i L. unfold query_at, update_query in *.
  cbn [heap set_heap current_query] in *.
  rewrite length_update_nth in L.
  rewrite (update_nth_field q_canceled f) by exact F. apply P. exact L.
Qed.

Lemma processEvent_superseded e p p' :
  wf p -> superseded_cancelled p -> processEvent e p = Ok p' ->
  superseded_cancelled p'.
Proof.
  intros W P H.
  pose proof (processEvent_inv e p (proj1 W)) as O. rewrite H in O.
  destruct O as [_ S].
  apply (superseded_transfer p p' (st_heap S) (st_current_query S) P).
Qed.

Lemma reachable_superseded p : reachable p -> superseded_cancelled p.
Proof.
  apply (reachable_invariant superseded_cancelled).
  - intros txt p0 B. exact B.
  - intros txt p0 p' W B H. rewrite emit_textChanged_eq in H.
    apply (processEvent_superseded (SignalEvent textChanged)
             (on_textChanged txt p0) p' (on_textChanged_wf txt p0 W)
             (on_textChanged_cancels txt p0 W B) H).
  - intros q p0 _. apply superseded_update. reflexivity.
  - intros q p0 _. apply superseded_update. reflexivity.
  - intros c p0 B. exact B.
  - intros s p0 B. exact B.
  - intros visible p0 B. exact B.
  - intros p0 B. exact B.
  - intros row p0 B. exact B.
  - intros h p0 B. exact B.
  - intros a p0 B. exact B.
  - intros e p0 p' W B _. apply processEvent_superseded; assumption.
  - intros p0 p' W B.
    apply (processEvent_superseded (SignalEvent timeout)
             (set_display_delay_timer false p0) p'); [|exact B].
    eapply wf_transfer; [..|exact W]; reflexivity.
  - intros sf mf ma hist a p0 H. vm_compute in H. injection H as <-.
    intros i L. cbn in L. lia.
Qed.

(** X11: in every state reached from construction, a query the plugin has
    created is cancelled exactly when it is not the current query. *)
Theorem only_current_query_not_cancelled :
  forall p i,
    reachable p ->
    i < List.length (heap p) ->
    (q_canceled (query_at p i) = true <-> current_query p <> Some i).
Proof.
  intros p i R L. rewrite (reachable_superseded p R i L).
  destruct (current_query p) as [q|]; cbn.
  - destruct (i =? q) eqn:E; cbn.
    + apply Nat.eqb_eq in E. subst.
      split; [discriminate|intros H; contradiction H; reflexivity].
    + apply Nat.eqb_neq in E.
      split; [intros _ H; injection H as ->; apply E; reflexivity
             |reflexivity].
  - split; [discriminate|reflexivity].
Qed.

Lemma only_current_query_not_cancelled_witness :
  q_canceled
    (query_at (demo_state [input_textChanged "a"; input_textChanged "ab"]) 0)
  = true <->
  current_query (demo_state [input_textChanged "a"; input_textChanged "ab"])
  <> Some 0.
Proof.
  apply only_current_query_not_cancelled.
  - apply demo_reachable. vm_compute. reflexivity.
  - vm_compute. lia.
Defined.

(** ** The actions list while the model is switched *)

Lemma entered_actions_list s p p' :
  entered s p = Ok p' -> s <> s_results_actions_visible ->
  actions_list (window p') = actions_list (window p).
Proof.
  intros H A. destruct s; try contradiction; cbn in H;
    unfold bind, deref in H;
    repeat (break_match_hyp H; cbn in H); try discriminate;
    injection H as <-; reflexivity.
Qed.

Lemma enterStates_actions_list l : forall p p',
  enterStates l p = Ok p' -> ~ In s_results_actions_visible l ->
  actions_list (window p') = actions_list (window p).
Proof.
  induction l as [|s l IH]; cbn [enterStates In]; intros p p' H A.
  - injection H as <-. reflexivity.
  - destruct (entered s _) as [p1| |] eqn:E; cbn [bind] in H; try discriminate.
    apply entered_actions_list in E; [|intros ->; tauto].
    apply IH in H; [|tauto]. rewrite H. exact E.
Qed.

Lemma exitStates_actions_list l : forall p,
  ~ In s_results_actions_visible l ->
  actions_list (window (exitStates l p)) = actions_list (window p).
Proof.
  unfold exitStates. induction l as [|s l IH]; cbn [fold_left In]; intros p A;
    [reflexivity|].
  rewrite IH by tauto. destruct s; try reflexivity. tauto.
Qed.

(** X12: in a state reached from construction with Model=Matches and
    Actions=Shown active and a current query that has fallbacks, pressing
    the fallback modifier is processed and ends in Model=Fallbacks with the
    results list bound to the fallbacks, while Actions=Shown stays active
    and the actions list stays exactly as it was: it is not bound anew. *)
Theorem model_switch_keeps_actions_list :
  forall p q,
    reachable p ->
    current_query p = Some q ->
    is_active s_results_model_matches p = true ->
    is_active s_results_actions_visible p = true ->
    0 < rowCount p (fallbacks q) ->
    exists p',
      step (key KeyPress (mods_keys (mod_fallback p))) p = Ok p' /\
      is_active s_results_model_fallbacks p' = true /\
      is_active s_results_actions_visible p' = true /\
      lv_model (results_list (window p')) = Some (fallbacks q) /\
      actions_list (window p') = actions_list (window p).
Proof.
  intros p q R Q M A F.
  pose proof (proj1 (proj1 (reachable_wf p R))) as I.
  set (e := KeyEvent KeyPress (mods_keys (mod_fallback p))).
  destruct (processEvent_next e p q I Q) as (p' & E & I' & S & C).
  exists p'. rewrite step_key_eq. split; [exact E|].
  assert (R' : reachable p').
  { apply (reach_step p (key KeyPress (mods_keys (mod_fallback p))) p' R).
    rewrite step_key_eq. exact E. }
  assert (X : is_active s_results_model_fallbacks p' = true /\
              is_active s_results_actions_visible p' = true /\
              is_active s_results_visible p' = true /\
              is_active s_results_model_matches p' = false /\
              actions_list (window p') = actions_list (window p)).
  { rewrite (processEvent_lists e p q Q) in E.
    rewrite !(active_is p' _ I'), C.
    rewrite (active_is p _ I) in M. rewrite (active_is p _ I) in A.
    revert E. unfold guards, e, key_is. rewrite Key_beq_refl.
    apply Nat.ltb_lt in F. rewrite F.
    generalize (Key_beq (mods_keys (mod_actions p)) (mods_keys (mod_fallback p)));
    generalize (show_fallbacks_on_empty_query p);
    generalize (negb (rowCount p (matches q) =? 0));
    generalize (underMouse (ambient p));
    generalize (q_isFinished (query_at p q)).
    intros fin um m sh ka E.
    each_config_of I; rewrite L in *; try discriminate M; try discriminate A;
      destruct ka; eval_lists E;
      (repeat (split; [vm_compute; reflexivity|]));
      (apply enterStates_actions_list in E; [|not_in]);
      rewrite E; apply exitStates_actions_list; not_in. }
  destruct X as (X1 & X2 & X3 & X4 & X5).
  split; [exact X1|]. split; [exact X2|]. split; [|exact X5].
  destruct (reachable_visible_bound p' R' X3) as (q' & Q' & B).
  cbv zeta in B. rewrite X4 in B. destruct B as (B & _).
  rewrite (st_current_query S), Q in Q'. injection Q' as <-. exact B.
Qed.

Lemma model_switch_keeps_actions_list_witness :
  exists p',
    step (key KeyPress
            (mods_keys
               (mod_fallback
                  (demo_state [input_textChanged "a"; query_rowsInserted 0;
                               key KeyPress Key_Alt]))))
      (demo_state [input_textChanged "a"; query_rowsInserted 0;
                   key KeyPress Key_Alt]) = Ok p' /\
    is_active s_results_model_fallbacks p' = true /\
    is_active s_results_actions_visible p' = true /\
    lv_model (results_list (window p')) = Some (fallbacks 0) /\
    actions_list (window p')
    = actions_list
        (window (demo_state [input_textChanged "a"; query_rowsInserted 0;
                             key KeyPress Key_Alt])).
Proof.
  apply (model_switch_keeps_actions_list
           (demo_state [input_textChanged "a"; query_rowsInserted 0;
                        key KeyPress Key_Alt]) 0).
  - apply demo_reachable. vm_compute. reflexivity.
  - vm_compute. reflexivity.
  - vm_compute. reflexivity.
  - vm_compute. reflexivity.
  - vm_compute. lia.
Defined.

(** ** Signals and hint of the current query *)

(** *** The current query's [finished] signal *)

Lemma processEvent_finished_wired e p p' :
  wf p -> finished_wired p -> processEvent e p = Ok p' -> finished_wired p'.
Proof.
  intros W P H q Q.
  pose proof (processEvent_inv e p (proj1 W)) as O. rewrite H in O.
  destruct O as [_ S]. rewrite (st_current_query S) in Q.
  apply connected_In. apply (st_finished S). apply connected_In.
  apply (P q Q).
Qed.

Lemma reachable_finished_wired p : reachable p -> finished_wired p.
Proof.
  apply (reachable_invariant finished_wired).
  - intros txt p0 B. exact B.
  - intros txt p0 p' W _ H. rewrite emit_textChanged_eq in H.
    apply (processEvent_finished_wired (SignalEvent textChanged)
             (on_textChanged txt p0) p' (on_textChanged_wf txt p0 W));
      [|exact H].
    pose proof (on_textChanged_spec txt p0 (proj1 (proj2 W))) as O.
    cbv zeta in O. destruct O as (_ & _ & OQ & _ & ON & _).
    intros q Q. rewrite OQ in Q. injection Q as <-.
    apply connected_In. rewrite ON. left. reflexivity.
  - intros q p0 _ B. exact B.
  - intros q p0 _ B. exact B.
  - intros c p0 B. exact B.
  - intros s p0 B. exact B.
  - intros visible p0 B. exact B.
  - intros p0 B. exact B.
  - intros row p0 B. exact B.
  - intros h p0 B. exact B.
  - intros a p0 B. exact B.
  - intros e p0 p' W B _. apply processEvent_finished_wired; assumption.
  - intros p0 p' W B.
    apply (processEvent_finished_wired (SignalEvent timeout)
             (set_display_delay_timer false p0) p'); [|exact B].
    eapply wf_transfer; [..|exact W]; reflexivity.
  - intros sf mf ma hist a p0 H.
    destruct (ctor_spec sf mf ma hist a) as (p1 & E & _ & _ & Q).
    rewrite H in E. injection E as <-. intros q Q'. congruence.
Qed.

(** X13: in every state reached from construction the [finished] signal of
    the current query is connected to the plugin, so that the end of the
    current query is always delivered to the machine. *)
Theorem current_query_finished_connected :
  forall p q,
    reachable p ->
    current_query p = Some q ->
    connected p q sig_finished = true /\
    step (query_finished q) p
    = processEvent (SignalEvent queryFinsished) (update_query q finish p).
Proof.
  intros p q R Q.
  pose proof (reachable_finished_wired p R q Q) as C.
  split; [exact C|]. apply step_finished_connected. exact C.
Qed.

Lemma current_query_finished_connected_witness :
  connected
    (demo_state [input_textChanged "a"; query_rowsInserted 0]) 0 sig_finished
  = true /\
  step (query_finished 0)
    (demo_state [input_textChanged "a"; query_rowsInserted 0])
  = processEvent (SignalEvent queryFinsished)
      (update_query 0 finish
         (demo_state [input_textChanged "a"; query_rowsInserted 0])).
Proof.
  apply current_query_finished_connected.
  - apply demo_reachable. vm_compute. reflexivity.
  - vm_compute. reflexivity.
Defined.

(** *** The input hint of an empty query *)

Lemma entered_hint s p p' q :
  entered s p = Ok p' -> current_query p = Some q ->
  isEmpty (q_string (query_at p q)) = true ->
  inputHint (input_line (window p')) = inputHint (input_line (window p)).
Proof.
  intros H Q E.
  destruct (StateId_eq_dec s s_results_model_matches) as [->|M].
  - cbn [entered] in H. rewrite Q in H. cbn [deref bind] in H.
    injection H as <-.
    change (query_at
              (set_results_list
                 (setCurrentIndex
                    (index00
                       (disconnect q sig_rowsInserted
                          (set_results_list (setModel (matches q)) p))
                       (matches q)))
                 (disconnect q sig_rowsInserted
                    (set_results_list (setModel (matches q)) p))) q)
      with (query_at p q).
    rewrite E. destruct (index00 _ _); reflexivity.
  - destruct s; try contradiction; cbn in H; unfold bind, deref in H;
      repeat (break_match_hyp H; cbn in H); try discriminate;
      injection H as <-; reflexivity.
Qed.

Lemma enterStates_hint l : forall p p' q,
  enterStates l p = Ok p' -> current_query p = Some q ->
  isEmpty (q_string (query_at p q)) = true ->
  inputHint (input_line (window p')) = inputHint (input_line (window p)).
Proof.
  induction l as [|s l IH]; cbn [enterStates]; intros p p' q H Q E.
  - injection H as <-. reflexivity.
  - destruct (entered s _) as [p1| |] eqn:X; cbn [bind] in H; try discriminate.
    pose proof (entered_stable _ _ _ X) as (_ & _ & S).
    pose proof (entered_hint _ _ _ q X Q E) as Y.
    apply (IH _ _ q) in H.
    + rewrite H. exact Y.
    + cbn [current_query set_active]. rewrite (st_current_query S). exact Q.
    + unfold query_at. cbn [heap set_active]. rewrite (st_heap S). exact E.
Qed.

Lemma exitStates_hint l : forall p,
  inputHint (input_line (window (exitStates l p)))
  = inputHint (input_line (window p)).
Proof.
  unfold exitStates. induction l as [|s l IH]; cbn [fold_left]; intros p;
    [reflexivity|].
  rewrite IH. destruct s; reflexivity.
Qed.

Lemma processEvent_hint e p p' q :
  current_query p = Some q ->
  isEmpty (q_string (query_at p q)) = true ->
  processEvent e p = Ok p' ->
  inputHint (input_line (window p')) = inputHint (input_line (window p)).
Proof.
  intros Q E H. rewrite (processEvent_exact e p q Q) in H.
  destruct (selected _ p (configuration p)) as [|t ts].
  - injection H as <-. reflexivity.
  - unfold microstep in H.
    pose proof (exitStates_spec (computeExitSet (configuration p) (t :: ts)) p)
      as (_ & _ & S).
    apply (enterStates_hint _ _ _ q) in H.
    + rewrite H. apply exitStates_hint.
    + rewrite (st_current_query S). exact Q.
    + unfold query_at. rewrite (st_heap S). exact E.
Qed.

(** X14: from a reachable state in which the string of the current query is
    empty, every event delivered to the machine is processed and leaves the
    hint of the input line as it is: when Model=Matches is entered the first
    row is selected with the signals of the selection model blocked, so the
    slot that shows the completion does not run. *)
Theorem empty_query_keeps_hint :
  forall e p q,
    reachable p ->
    current_query p = Some q ->
    q_string (query_at p q) = EmptyString ->
    exists p',
      processEvent e p = Ok p' /\
      inputHint (input_line (window p')) = inputHint (input_line (window p)).
Proof.
  intros e p q R Q E.
  pose proof (processEvent_outcome e p (proj1 (reachable_wf p R))) as O.
  destruct (processEvent e p) as [p'| |] eqn:H.
  - exists p'. split; [reflexivity|].
    apply (processEvent_hint e p p' q Q); [|exact H].
    rewrite E. reflexivity.
  - congruence.
  - contradiction.
Qed.

Lemma empty_query_keeps_hint_witness :
  exists p',
    processEvent (KeyEvent KeyRelease Key_Meta)
      (demo_state [input_textChanged EmptyString; query_rowsInserted 0;
                   key KeyPress Key_Meta])
    = Ok p' /\
    inputHint (input_line (window p')) = hint_synopsis 0.
Proof.
  apply (empty_query_keeps_hint (KeyEvent KeyRelease Key_Meta)
           (demo_state [input_textChanged EmptyString; query_rowsInserted 0;
                        key KeyPress Key_Meta])
           0).
  - apply demo_reachable. vm_compute. reflexivity.
  - vm_compute. reflexivity.
  - vm_compute. reflexivity.
Defined.

(** ** Leaving Hidden and leaving Visible *)

(** X15: with a current query and Results=Hidden active, every event
    delivered to the machine is processed, and the results become visible
    exactly in three cases: with the matches on [resultsReady]; with the
    fallbacks on a finished query when fallback display is enabled and the
    query has fallbacks, and on a press of the fallback modifier when the
    query has fallbacks.  Every other event leaves Results=Hidden active, and
    Postponed is never entered from Hidden. *)
Theorem hidden_to_visible :
  forall e p q,
    inv p ->
    current_query p = Some q ->
    is_active s_results_hidden p = true ->
    exists p',
      processEvent e p = Ok p' /\
      is_active s_results_model_matches p'
      = match e with SignalEvent resultsReady => true | _ => false end /\
      is_active s_results_model_fallbacks p'
      = match e with
        | SignalEvent queryFinsished =>
          show_fallbacks_on_empty_query p && (0 <? rowCount p (fallbacks q))
        | KeyEvent KeyPress k =>
          Key_beq (mods_keys (mod_fallback p)) k
          && (0 <? rowCount p (fallbacks q))
        | _ => false
        end /\
      is_active s_results_postpone p' = false /\
      is_active s_results_hidden p' = negb (is_active s_results_visible p').
Proof.
  intros e p q I Q A.
  destruct (processEvent_next e p q I Q) as (p' & E & I' & _ & C).
  exists p'. split; [exact E|].
  rewrite !(active_is p' _ I'), C. rewrite (active_is p _ I) in A.
  unfold guards.
  generalize (negb (rowCount p (matches q) =? 0));
  generalize (show_fallbacks_on_empty_query p);
  generalize (0 <? rowCount p (fallbacks q));
  generalize (underMouse (ambient p));
  generalize (q_isFinished (query_at p q));
  intros fin um fb sh m;
  each_config_of I; rewrite L in *; try discriminate A;
    destruct e as [[]|[] k|[]];
    unfold key_is;
    try (destruct (Key_beq (mods_keys (mod_actions p)) k),
                  (Key_beq (mods_keys (mod_fallback p)) k));
    destruct fin, um, fb, sh, m; vm_compute; auto.
Qed.

Lemma hidden_to_visible_witness :
  exists p',
    processEvent (SignalEvent queryFinsished)
      (demo_state [input_textChanged "a"]) = Ok p' /\
    is_active s_results_model_matches p' = false /\
    is_active s_results_model_fallbacks p'
    = (show_fallbacks_on_empty_query (demo_state [input_textChanged "a"])
       && (0 <? rowCount (demo_state [input_textChanged "a"]) (fallbacks 0)))
    /\
    is_active s_results_postpone p' = false /\
    is_active s_results_hidden p' = negb (is_active s_results_visible p').
Proof.
  apply (hidden_to_visible (SignalEvent queryFinsished)
           (demo_state [input_textChanged "a"]) 0).
  - split; vm_compute; reflexivity.
  - vm_compute. reflexivity.
  - vm_compute. reflexivity.
Defined.

(** X16: with a current query and Results=Visible active, every event
    delivered to the machine is processed, and Results=Visible stays active
    unless the event is a text change, which ends in Postponed, or the
    release of the fallback modifier in Model=Fallbacks without a match,
    which ends in Hidden; a finished query, new results, the timer and the
    pointer change nothing in the Results region. *)
Theorem visible_stays :
  forall e p q,
    inv p ->
    current_query p = Some q ->
    is_active s_results_visible p = true ->
    exists p',
      processEvent e p = Ok p' /\
      is_active s_results_postpone p'
      = match e with SignalEvent textChanged => true | _ => false end /\
      is_active s_results_hidden p'
      = match e with
        | KeyEvent KeyRelease k =>
          Key_beq (mods_keys (mod_fallback p)) k
          && is_active s_results_model_fallbacks p
          && (rowCount p (matches q) =? 0)
        | _ => false
        end /\
      is_active s_results_visible p'
      = negb (is_active s_results_postpone p')
        && negb (is_active s_results_hidden p') /\
      (match e with
       | SignalEvent _ | ButtonEvent _ =>
         is_active s_results_model_matches p'
         = (is_active s_results_model_matches p
            && is_active s_results_visible p')
       | KeyEvent _ _ => True
       end).
Proof.
  intros e p q I Q A.
  destruct (processEvent_next e p q I Q) as (p' & E & I' & _ & C).
  exists p'. split; [exact E|].
  rewrite !(active_is p' _ I'), C. rewrite (active_is p _ I) in A.
  rewrite !(active_is p _ I).
  unfold guards.
  destruct (rowCount p (matches q)) as [|n]; cbn [Nat.eqb negb];
  generalize (show_fallbacks_on_empty_query p);
  generalize (0 <? rowCount p (fallbacks q));
  generalize (underMouse (ambient p));
  generalize (q_isFinished (query_at p q));
  intros fin um fb sh;
  each_config_of I; rewrite L in *; try discriminate A;
    destruct e as [[]|[] k|[]];
    unfold key_is;
    try (destruct (Key_beq (mods_keys (mod_actions p)) k),
                  (Key_beq (mods_keys (mod_fallback p)) k));
    destruct fin, um, fb, sh; vm_compute; auto.
Qed.

Lemma visible_stays_witness :
  exists p',
    processEvent (SignalEvent queryFinsished)
      (demo_state [input_textChanged "a"; query_rowsInserted 0]) = Ok p' /\
    is_active s_results_postpone p' = false /\
    is_active s_results_hidden p' = false /\
    is_active s_results_visible p'
    = negb (is_active s_results_postpone p')
      && negb (is_active s_results_hidden p') /\
    is_active s_results_model_matches p'
    = (is_active s_results_model_matches
         (demo_state [input_textChanged "a"; query_rowsInserted 0])
       && is_active s_results_visible p').
Proof.
  apply (visible_stays (SignalEvent queryFinsished)
           (demo_state [input_textChanged "a"; query_rowsInserted 0]) 0).
  - split; vm_compute; reflexivity.
  - vm_compute. reflexivity.
  - vm_compute. reflexivity.
Defined.

(** ** The top-level window *)

Lemma Window_event_keeps e w :
  isNull (clickOffset_ w) = true ->
  isNull (clickOffset_ (fst (Window_event e w))) = true /\
  tl_moves (fst (Window_event e w)) = tl_moves w.
Proof.
  intros N. unfold Window_event.
  destruct (type e); cbn; rewrite ?N; cbn; auto.
Qed.

(** X17: a window whose drag offset is null keeps it null and is never moved
    by its event handler, whatever sequence of events it handles: a mouse
    press hides the window and returns before the offset is recorded, so
    that no mouse move drags. *)
Theorem window_never_dragged :
  forall es w,
    isNull (clickOffset_ w) = true ->
    isNull (clickOffset_ (Window_events es w)) = true /\
    tl_moves (Window_events es w) = tl_moves w.
Proof.
  unfold Window_events.
  induction es as [|e es IH]; cbn [fold_left]; intros w N; [auto|].
  destruct (Window_event_keeps e w N) as [N1 P1].
  destruct (IH _ N1) as [N2 P2]. rewrite P2, P1. auto.
Qed.

Lemma window_never_dragged_witness :
  isNull
    (clickOffset_
       (Window_events
          [mouse MouseButtonPress {| xp := 3; yp := 4 |}
             {| xp := 103; yp := 204 |};
           mouse MouseMove {| xp := 5; yp := 6 |} {| xp := 105; yp := 206 |}]
          (Window_new QPoint_null)))
  = true /\
  tl_moves
    (Window_events
       [mouse MouseButtonPress {| xp := 3; yp := 4 |}
          {| xp := 103; yp := 204 |};
        mouse MouseMove {| xp := 5; yp := 6 |} {| xp := 105; yp := 206 |}]
       (Window_new QPoint_null))
  = tl_moves (Window_new QPoint_null).
Proof.
  apply window_never_dragged. reflexivity.
Defined.

(** ** Themes *)

Lemma map_at_setValue {A : Type} k (v : A) s :
  map_at k (setValue k v s) = Some v.
Proof. unfold setValue. cbn. rewrite String.eqb_refl. reflexivity. Qed.

(** X18: setting the light theme to a name that is no theme stores the name
    and writes it to the settings in every case; in light mode the call
    then throws [out_of_range] with the style sheet untouched; in dark mode
    it returns normally, and the next change to a light palette throws. *)
Theorem unknown_light_theme :
  forall readAll theme t,
    map_at theme (themes_ t) = None ->
    theme_light_ (fst (setLightTheme readAll theme t)) = theme /\
    map_at CFG_THEME (settings (fst (setLightTheme readAll theme t)))
    = Some theme /\
    styleSheet (fst (setLightTheme readAll theme t)) = styleSheet t /\
    snd (setLightTheme readAll theme t)
    = (if dark_mode_ t then None else Some out_of_range) /\
    snd (paletteChange readAll false (fst (setLightTheme readAll theme t)))
    = Some out_of_range.
Proof.
  intros readAll theme t H.
  unfold setLightTheme, paletteChange, applyTheme.
  cbn [dark_mode_ set_theme_light_ themes_ set_dark_mode_ theme_light_].
  destruct (dark_mode_ t); cbn [negb]; rewrite ?H;
    cbn [fst snd theme_light_ set_theme_light_ settings styleSheet themes_
         set_dark_mode_];
    rewrite ?H, map_at_setValue; auto.
Qed.

Lemma unknown_light_theme_witness :
  theme_light_ (fst (setLightTheme demo_readAll "Nope" demo_theming))
  = "Nope"%string /\
  map_at CFG_THEME
    (settings (fst (setLightTheme demo_readAll "Nope" demo_theming)))
  = Some "Nope"%string /\
  styleSheet (fst (setLightTheme demo_readAll "Nope" demo_theming))
  = styleSheet demo_theming /\
  snd (setLightTheme demo_readAll "Nope" demo_theming)
  = (if dark_mode_ demo_theming then None else Some out_of_range) /\
  snd (paletteChange demo_readAll false
         (fst (setLightTheme demo_readAll "Nope" demo_theming)))
  = Some out_of_range.
Proof.
  apply (unknown_light_theme demo_readAll "Nope" demo_theming).
  reflexivity.
Defined.

Lemma theme_op_themed readAll o t :
  themed readAll t \/ (exists d, o = op_paletteChange d) ->
  usable readAll (theme_light_ t) t -> usable readAll (theme_dark_ t) t ->
  op_usable readAll o t ->
  let t' := fst (theme_op readAll o t) in
  snd (theme_op readAll o t) = None /\
  themed readAll t' /\
  themes_ t' = themes_ t /\
  usable readAll (theme_light_ t') t' /\ usable readAll (theme_dark_ t') t'.
Proof.
  intros T (pl & cl & Ll & Rl) (pd & cd & Ld & Rd) U.
  destruct o as [n|n|d]; cbn [theme_op op_usable] in *.
  - destruct U as (pn & cn & Ln & Rn).
    unfold setLightTheme, applyTheme, themed, usable.
    cbn [dark_mode_ set_theme_light_ themes_].
    destruct (dark_mode_ t) eqn:D; cbn [negb fst snd].
    + destruct T as [(p0 & L0 & R0)|(d & X)]; [|discriminate X].
      rewrite D in L0.
      cbn [dark_mode_ set_theme_light_ themes_ theme_dark_ theme_light_
           styleSheet].
      rewrite D. repeat split; eauto.
    + rewrite Ln, Rn.
      cbn [fst snd dark_mode_ set_theme_light_ set_styleSheet themes_
           theme_dark_ theme_light_ styleSheet].
      rewrite D. repeat split; eauto.
  - destruct U as (pn & cn & Ln & Rn).
    unfold setDarkTheme, applyTheme, themed, usable.
    cbn [dark_mode_ set_theme_dark_ themes_].
    destruct (dark_mode_ t) eqn:D; cbn [negb fst snd].
    + rewrite Ln, Rn.
      cbn [fst snd dark_mode_ set_theme_dark_ set_styleSheet themes_
           theme_dark_ theme_light_ styleSheet].
      rewrite D. repeat split; eauto.
    + destruct T as [(p0 & L0 & R0)|(d & X)]; [|discriminate X].
      rewrite D in L0.
      cbn [dark_mode_ set_theme_dark_ themes_ theme_dark_ theme_light_
           styleSheet].
      rewrite D. repeat split; eauto.
  - unfold paletteChange, applyTheme, themed, usable.
    cbn [dark_mode_ set_dark_mode_ themes_ theme_dark_ theme_light_].
    destruct d.
    + rewrite Ld, Rd.
      cbn [fst snd dark_mode_ set_dark_mode_ set_styleSheet themes_
           theme_dark_ theme_light_ styleSheet].
      repeat split; eauto.
    + rewrite Ll, Rl.
      cbn [fst snd dark_mode_ set_dark_mode_ set_styleSheet themes_
           theme_dark_ theme_light_ styleSheet].
      repeat split; eauto.
Qed.

(** X19: when the style sheet is the file of the theme of the current mode
    and the stored themes are known and readable, every sequence of theme
    changes to known, readable themes and of palette changes runs without
    an exception and ends with the style sheet being the file of the theme
    of the mode then current. *)
Theorem themes_stay_applied :
  forall readAll os t,
    themed readAll t ->
    usable readAll (theme_light_ t) t ->
    usable readAll (theme_dark_ t) t ->
    Forall (fun o => op_usable readAll o t) os ->
    snd (theme_ops readAll os t) = None /\
    themed readAll (fst (theme_ops readAll os t)).
Proof.
  intros readAll os. induction os as [|o os IH]; intros t T L D U.
  - split; [reflexivity|exact T].
  - inversion U as [|? ? U1 U2]; subst.
    destruct (theme_op_themed readAll o t (or_introl T) L D U1)
      as (N & T' & M & L' & D').
    cbn [theme_ops]. destruct (theme_op readAll o t) as [t' [x|]];
      cbn [fst snd] in *; [discriminate N|].
    apply IH; auto.
    rewrite Forall_forall in *. intros o' O'. specialize (U2 o' O').
    destruct o'; cbn [op_usable] in *; auto;
      unfold usable in *; rewrite M; exact U2.
Qed.

Lemma themes_stay_applied_witness :
  snd (theme_ops demo_readAll
         [op_setLightTheme "Default"; op_paletteChange false] demo_theming)
  = None /\
  themed demo_readAll
    (fst (theme_ops demo_readAll
            [op_setLightTheme "Default"; op_paletteChange false]
            demo_theming)).
Proof.
  apply themes_stay_applied.
  - exists "/themes/Default.qss"%string. split; reflexivity.
  - exists "/themes/Default.qss"%string, "* { }"%string. split; reflexivity.
  - exists "/themes/Default.qss"%string, "* { }"%string. split; reflexivity.
  - repeat constructor.
    exists "/themes/Default.qss"%string, "* { }"%string. split; reflexivity.
Defined.

(** ** Display settings *)

Lemma testFlag_setFlag f on i :
  f <> 0%Z -> Z.land f (2 ^ 32 - 1) = f ->
  testFlag f (setFlag f on i) = on.
Proof.
  intros N M. unfold testFlag, setFlag.
  apply Z.eqb_neq in N. rewrite N. cbn [negb orb]. rewrite andb_true_r.
  destruct on.
  - apply Z.eqb_eq. apply Z.bits_inj'. intros n _.
    rewrite Z.land_spec, Z.lor_spec.
    destruct (Z.testbit i n), (Z.testbit f n); reflexivity.
  - apply Z.eqb_neq. intros E. apply Z.eqb_neq in N. apply N. rewrite <- E.
    apply Z.bits_inj'. intros n _. unfold complement.
    rewrite !Z.land_spec, Z.lxor_spec, Z.bits_0.
    pose proof (f_equal (fun z => Z.testbit z n) M) as B. cbv beta in B.
    rewrite Z.land_spec in B.
    destruct (Z.testbit i n), (Z.testbit f n),
      (Z.testbit (2 ^ 32 - 1) n); try reflexivity; discriminate B.
Qed.

Lemma testFlag_setFlag_other f g on i :
  g <> 0%Z -> Z.land g (2 ^ 32 - 1) = g -> Z.land f g = 0%Z ->
  testFlag g (setFlag f on i) = testFlag g i.
Proof.
  intros N M D. unfold testFlag, setFlag.
  apply Z.eqb_neq in N. rewrite N. cbn [negb orb]. rewrite !andb_true_r.
  f_equal. apply Z.bits_inj'. intros n _.
  pose proof (f_equal (fun z => Z.testbit z n) M) as B.
  pose proof (f_equal (fun z => Z.testbit z n) D) as C. cbv beta in B, C.
  rewrite Z.land_spec in B. rewrite Z.land_spec, Z.bits_0 in C.
  destruct on; unfold complement;
    rewrite ?Z.land_spec, ?Z.lor_spec, ?Z.lxor_spec;
    destruct (Z.testbit i n), (Z.testbit f n), (Z.testbit g n),
      (Z.testbit (2 ^ 32 - 1) n); try reflexivity;
    try discriminate B; discriminate C.
Qed.

(** X20: each display setting reads back what was set and is written to the
    settings under its key: always-on-top and the system shadow, which are
    bits of the window flags, the scroll bar and the client shadow; setting
    one of the two window flags leaves the other as it reads. *)
Theorem display_settings_read_back :
  forall d b,
    (alwaysOnTop (setAlwaysOnTop b d) = b /\
     map_at CFG_ALWAYS_ON_TOP (display_settings (setAlwaysOnTop b d)) = Some b /\
     displaySystemShadow (setAlwaysOnTop b d) = displaySystemShadow d) /\
    (displaySystemShadow (setDisplaySystemShadow b d) = b /\
     map_at CFG_SYSTEM_SHADOW (display_settings (setDisplaySystemShadow b d))
     = Some b /\
     alwaysOnTop (setDisplaySystemShadow b d) = alwaysOnTop d) /\
    (displayScrollbar (setDisplayScrollbar b d) = b /\
     map_at CFG_DISPLAY_SCROLLBAR (display_settings (setDisplayScrollbar b d))
     = Some b) /\
    (displayClientShadow (setDisplayClientShadow b d) = b /\
     map_at CFG_CLIENT_SHADOW (display_settings (setDisplayClientShadow b d))
     = Some b /\
     contentsMargins (setDisplayClientShadow b d)
     = (if b then (32, 32, 32, 32) else (0, 0, 0, 0))%Z).
Proof.
  intros d b.
  assert (T0 : WindowStaysOnTopHint <> 0%Z) by (intros X; discriminate X).
  assert (S0 : NoDropShadowWindowHint <> 0%Z) by (intros X; discriminate X).
  assert (TM : Z.land WindowStaysOnTopHint (2 ^ 32 - 1) = WindowStaysOnTopHint)
    by reflexivity.
  assert (SM : Z.land NoDropShadowWindowHint (2 ^ 32 - 1)
               = NoDropShadowWindowHint) by reflexivity.
  assert (TS : Z.land WindowStaysOnTopHint NoDropShadowWindowHint = 0%Z)
    by reflexivity.
  assert (ST : Z.land NoDropShadowWindowHint WindowStaysOnTopHint = 0%Z)
    by reflexivity.
  split; [|split; [|split]].
  - unfold alwaysOnTop, displaySystemShadow, setAlwaysOnTop.
    cbn [windowFlags set_windowFlags display_setValue display_settings].
    rewrite (testFlag_setFlag _ _ _ T0 TM),
      (testFlag_setFlag_other _ _ _ _ S0 SM TS), map_at_setValue.
    auto.
  - unfold alwaysOnTop, displaySystemShadow, setDisplaySystemShadow.
    cbn [windowFlags set_windowFlags display_setValue display_settings].
    rewrite (testFlag_setFlag _ _ _ S0 SM),
      (testFlag_setFlag_other _ _ _ _ T0 TM ST), map_at_setValue,
      negb_involutive.
    auto.
  - unfold displayScrollbar, setDisplayScrollbar.
    cbn [verticalScrollBarPolicy set_verticalScrollBarPolicy display_setValue
         display_settings].
    rewrite map_at_setValue. destruct b; auto.
  - unfold displayClientShadow, setDisplayClientShadow.
    destruct (graphicsEffect d) eqn:G, b;
      cbn [isSome negb andb graphicsEffect set_graphicsEffect
           set_contentsMargins display_setValue display_settings
           contentsMargins];
      rewrite ?G;
      cbn [isSome negb andb graphicsEffect set_graphicsEffect
           set_contentsMargins display_setValue display_settings
           contentsMargins];
      rewrite map_at_setValue, ?G; cbn [isSome]; auto.
Qed.
